(** * The mathtext box-and-glue layout engine (lib/matplotlib/mathtext.py)

    A shallow embedding of the TeX-like box model of [mathtext.py]: the font
    layer's [get_kern], the node classes ([Char], [Accent], [Box], [Rule],
    [Hlist], [Vlist], [Glue], [Kern]) with [shrink], the packing routines
    [hpack] and [vpack], the [Ship] traversal ([hlist_out], [vlist_out]) and
    the [\sqrt] assembly of the parser.

    Python floats are IEEE binary64 numbers: they are modelled by Rocq's
    primitive floats, so that every arithmetic expression of the source is
    evaluated here bit for bit as CPython evaluates it.  Python exceptions and
    the calls that reach the outside world ([warn], the backend's drawing
    calls) are modelled by a small exception-and-log monad. *)

From Stdlib Require Import Floats ZArith List Ascii String Bool Lia.
Import ListNotations.

Set Warnings "-inexact-float,-register-all".

Local Open Scope float_scope.

(** ** Python values *)

(** [a > b], [a >= b] and [a != b] on floats. *)
Definition py_gt (a b : float) : bool := b <? a.
Definition py_ge (a b : float) : bool := b <=? a.
Definition py_ne (a b : float) : bool := negb (a =? b).

(** The builtin [max] of two arguments keeps the first one unless the second
    compares greater. *)
Definition py_max (a b : float) : float := if py_gt b a then b else a.

(** numpy's [inf] and [isinf]. *)
Definition inf : float := infinity.
Definition isinf (x : float) : bool := is_infinity x.

(** [floor] and [ceil] of the C library.  Below 2^52 in magnitude the value is
    read off the mantissa and exponent; from 2^52 on every float is an
    integer already. *)
Definition floor_Z (x : float) : Z :=
  match Prim2SF x with
  | S754_finite s m e =>
      let n := if s then Zneg m else Zpos m in
      if (0 <=? e)%Z then (n * 2 ^ e)%Z else (n / 2 ^ (- e))%Z
  | _ => 0%Z
  end.

Definition float_of_Z (z : Z) : float :=
  match z with
  | Z0 => 0
  | Zpos _ => of_uint63 (Uint63.of_Z z)
  | Zneg p => - of_uint63 (Uint63.of_Z (Zpos p))
  end.

Definition floor (x : float) : float :=
  if is_nan x || is_infinity x || is_zero x then x
  else if 4503599627370496 <=? abs x then x
  else float_of_Z (floor_Z x).

Definition ceil (x : float) : float := - floor (- x).

(** The builtin [round] with one argument, as the CPython 2 of this module's
    time computes it: [floor(number + 0.5)] from zero up, [ceil(number - 0.5)]
    below. *)
Definition round (number : float) : float :=
  if py_ge number 0 then floor (number + 0.5) else ceil (number - 0.5).

(** A value passed where the source does not fix a type: the mode and limit
    arguments of the packing routines receive strings and floats. *)
Inductive pyval : Type :=
| PyStr (s : string)
| PyFloat (f : float).

(** [v == s] for a string literal [s]: a float never equals a string. *)
Definition py_eq_str (v : pyval) (s : string) : bool :=
  match v with
  | PyStr t => String.eqb t s
  | PyFloat _ => false
  end.

(** [d > l] for a float [d].  CPython 2 orders a number before any object that
    is not a number, so a float is never greater than a string. *)
Definition py_float_gt (d : float) (l : pyval) : bool :=
  match l with
  | PyFloat f => py_gt d f
  | PyStr _ => false
  end.

(** A font name is a string or, for the STIX size variants, an integer. *)
Inductive font_name : Type :=
| FontStr (s : string)
| FontInt (i : Z).

Definition font_eqb (f1 f2 : font_name) : bool :=
  match f1, f2 with
  | FontStr a, FontStr b => String.eqb a b
  | FontInt a, FontInt b => Z.eqb a b
  | _, _ => false
  end.

(** The position that an index has in a Python list of length [len]: a
    negative index counts from the end; [None] when the index is out of range
    and the access raises. *)
Definition py_index (len : nat) (i : Z) : option nat :=
  if (i <? 0)%Z then
    if (- Z.of_nat len <=? i)%Z then Some (Z.to_nat (Z.of_nat len + i)) else None
  else if (i <? Z.of_nat len)%Z then Some (Z.to_nat i) else None.

Fixpoint list_set {A : Type} (l : list A) (n : nat) (v : A) : list A :=
  match l, n with
  | [], _ => []
  | _ :: t, O => v :: t
  | a :: t, S k => a :: list_set t k v
  end.

(** ** Exceptions, warnings and drawing calls *)

Inductive exn : Type :=
| RuntimeError (msg : string)
| NameError (name : string)
| IndexError
| AttributeError (attr : string)
| ZeroDivisionError
| ParseFatalException (msg : string)
| OtherError (msg : string).

Inductive event : Type :=
| MathTextWarning (error_type class_name : string)
| FontWarning (msg : string)
| render_glyph (ox oy : float) (font : font_name) (sym : string)
    (fontsize dpi : float)
| render_rect_filled (x1 y1 x2 y2 : float).

(** A computation returns a value together with the events it emitted, in
    order, or raises. *)
Inductive result (A : Type) : Type :=
| Ok (a : A) (log : list event)
| Raise (e : exn).
Arguments Ok {A} a log.
Arguments Raise {A} e.

Definition ret {A : Type} (a : A) : result A := Ok a [].

Definition bind {A B : Type} (m : result A) (f : A -> result B) : result B :=
  match m with
  | Raise e => Raise e
  | Ok a log1 =>
      match f a with
      | Raise e => Raise e
      | Ok b log2 => Ok b (log1 ++ log2)
      end
  end.

Definition emit (e : event) : result unit := Ok tt [e].

Notation "x <- m ;; k" := (bind m (fun x => k))
  (at level 61, m at next level, right associativity).
Notation "m ;;; k" := (bind m (fun _ => k))
  (at level 61, right associativity).

Definition py_getitem {A : Type} (l : list A) (i : Z) : result A :=
  match py_index (List.length l) i with
  | Some n => match nth_error l n with Some a => ret a | None => Raise IndexError end
  | None => Raise IndexError
  end.

(** [l[i] += v] *)
Definition py_additem (l : list float) (i : Z) (v : float) : result (list float) :=
  match py_index (List.length l) i with
  | Some n =>
      match nth_error l n with
      | Some a => ret (list_set l n (a + v))
      | None => Raise IndexError
      end
  | None => Raise IndexError
  end.

(** Float division raises on a zero divisor. *)
Definition py_div (a b : float) : result float :=
  if b =? 0 then Raise ZeroDivisionError else ret (a / b).

(** ** The font layer *)

(** The metrics that [_get_info] stores for a glyph. *)
Module Metrics.
Record t : Type := {
  advance : float;
  height : float;
  width : float;
  xmin : float;
  xmax : float;
  ymin : float;
  ymax : float;
  iceberg : float;
  slanted : bool
}.
End Metrics.

(** The part of the [Bunch] returned by [_get_info] that [get_kern] reads:
    the loaded font (a handle), the glyph number and the glyph. *)
Module Info.
Record t : Type := {
  font : nat;
  metrics : Metrics.t;
  num : Z;
  glyph : string
}.
End Info.

(** The interface of [Fonts] that the box model calls.  Loading glyphs
    (FT2Font, AFM) is outside the model: a font object is given by what its
    methods answer. *)
Record Fonts : Type := {
  get_metrics : font_name -> string -> float -> float -> result Metrics.t;
  get_kern : font_name -> string -> float ->
             font_name -> string -> float -> float -> result float;
  get_xheight : font_name -> float -> float -> result float;
  get_underline_thickness : font_name -> float -> float -> result float;
  get_sized_alternatives_for_symbol :
    font_name -> string -> result (list (font_name * string))
}.

(** [Fonts.get_kern], inherited by every class that does not override it. *)
Definition Fonts_get_kern (font1 : font_name) (sym1 : string) (fontsize1 : float)
    (font2 : font_name) (sym2 : string) (fontsize2 : float) (dpi : float)
    : result float :=
  ret 0.

Section FontClasses.

(** [self._get_info] of the class at hand, and the kerning tables of the
    loaded fonts: [FT2Font.get_kerning(left, right, KERNING_DEFAULT)] and
    [AFM.get_kern_dist(c1, c2)]. *)
Variable _get_info : font_name -> string -> float -> float -> result Info.t.
Variable get_kerning : nat -> Z -> Z -> Z.
Variable get_kern_dist : nat -> string -> string -> float.

(** [TruetypeFonts.get_kern], shared by the Bakoma, Unicode and STIX fonts. *)
Definition TruetypeFonts_get_kern (font1 : font_name) (sym1 : string)
    (fontsize1 : float) (font2 : font_name) (sym2 : string) (fontsize2 : float)
    (dpi : float) : result float :=
  if font_eqb font1 font2 && (fontsize1 =? fontsize2) then
    info1 <- _get_info font1 sym1 fontsize1 dpi ;;
    info2 <- _get_info font2 sym2 fontsize2 dpi ;;
    let font := Info.font info1 in
    ret (float_of_Z (get_kerning font (Info.num info1) (Info.num info2)) / 64.0)
  else ret 0.0.

(** [StandardPsFonts.get_kern]. *)
Definition StandardPsFonts_get_kern (font1 : font_name) (sym1 : string)
    (fontsize1 : float) (font2 : font_name) (sym2 : string) (fontsize2 : float)
    (dpi : float) : result float :=
  if font_eqb font1 font2 && (fontsize1 =? fontsize2) then
    info1 <- _get_info font1 sym1 fontsize1 dpi ;;
    info2 <- _get_info font2 sym2 fontsize2 dpi ;;
    let font := Info.font info1 in
    ret (get_kern_dist font (Info.glyph info1) (Info.glyph info2)
         * 0.001 * fontsize1)
  else ret 0.0.

End FontClasses.

(** The three definitions of [get_kern] in the class hierarchy. *)
Inductive font_class : Type :=
| FontsBase
| TruetypeFonts
| StandardPsFonts.

Definition class_get_kern (cls : font_class)
    (_get_info : font_name -> string -> float -> float -> result Info.t)
    (get_kerning : nat -> Z -> Z -> Z)
    (get_kern_dist : nat -> string -> string -> float) :=
  match cls with
  | FontsBase => Fonts_get_kern
  | TruetypeFonts => TruetypeFonts_get_kern _get_info get_kerning
  | StandardPsFonts => StandardPsFonts_get_kern _get_info get_kern_dist
  end.

(** ** The TeX-like box model *)

Definition SHRINK_FACTOR : float := 0.7.
Definition NUM_SIZE_LEVELS : Z := 4.

(** The attributes of each node class.  [size] is the attribute set by
    [Node.__init__]. *)
Module Box.
Record t : Type := {
  size : Z;
  width : float;
  height : float;
  depth : float
}.
End Box.

Module Char.
Record t : Type := {
  size : Z;
  c : string;
  font : font_name;
  fontsize : float;
  dpi : float;
  _metrics : Metrics.t;
  width : float;
  height : float;
  depth : float
}.
End Char.

Module GlueSpec.
Record t : Type := {
  width : float;
  stretch : float;
  stretch_order : Z;
  shrink : float;
  shrink_order : Z
}.
End GlueSpec.

Module Glue.
Record t : Type := {
  size : Z;
  glue_subtype : string;
  glue_spec : GlueSpec.t
}.
End Glue.

Module Kern.
Record t : Type := {
  size : Z;
  width : float
}.
End Kern.

(** The attributes of class [List], a [Box] ([box] holds the inherited
    attributes) that owns [children]; the children are kept beside the record,
    in the node.  [glue_ratio] is an attribute that [hpack], [vpack] and
    [_set_glue] create ([None] while it does not exist). *)
Module BoxList.
Record t : Type := {
  box : Box.t;
  shift_amount : float;
  glue_set : float;
  glue_sign : Z;
  glue_order : Z;
  glue_ratio : option float
}.
Definition size (l : t) : Z := Box.size (box l).
Definition width (l : t) : float := Box.width (box l).
Definition height (l : t) : float := Box.height (box l).
Definition depth (l : t) : float := Box.depth (box l).
End BoxList.

(** The node classes.  [Box] stands for [Box], [Hbox] and [Vbox]; [Rule] for
    [Rule], [Hrule] and [Vrule]; [Hlist] also for its subclasses, which add no
    method of their own. *)
Inductive node : Type :=
| Char (ch : Char.t)
| Accent (ch : Char.t)
| Box (b : Box.t)
| Rule (b : Box.t)
| Hlist (l : BoxList.t) (children : list node)
| Vlist (l : BoxList.t) (children : list node)
| Glue (g : Glue.t)
| Kern (k : Kern.t).

(** The parser state that the node constructors read. *)
Module State.
Record t : Type := {
  font : font_name;
  fontsize : float;
  dpi : float
}.
End State.

(** [GlueSpec._types] *)
Definition GlueSpec_factory (glue_type : string) : result GlueSpec.t :=
  if String.eqb glue_type "fil" then ret (GlueSpec.Build_t 0 1 1 0 0)
  else if String.eqb glue_type "fill" then ret (GlueSpec.Build_t 0 1 2 0 0)
  else if String.eqb glue_type "filll" then ret (GlueSpec.Build_t 0 1 3 0 0)
  else if String.eqb glue_type "neg_fil" then ret (GlueSpec.Build_t 0 0 0 1 1)
  else if String.eqb glue_type "neg_fill" then ret (GlueSpec.Build_t 0 0 0 1 2)
  else if String.eqb glue_type "neg_filll" then ret (GlueSpec.Build_t 0 0 0 1 3)
  else if String.eqb glue_type "empty" then ret (GlueSpec.Build_t 0 0 0 0 0)
  else if String.eqb glue_type "ss" then ret (GlueSpec.Build_t 0 1 1 (-1) 1)
  else Raise (OtherError "KeyError").

(** [Glue(glue_type)] for a glue spec name. *)
Definition Glue_init (glue_type : string) : result node :=
  glue_spec <- GlueSpec_factory glue_type ;;
  ret (Glue {| Glue.size := 0; Glue.glue_subtype := "normal";
               Glue.glue_spec := glue_spec |}).

Definition Fil : result node := Glue_init "fil".
Definition Fill : result node := Glue_init "fill".
Definition Filll : result node := Glue_init "filll".
Definition SsGlue : result node := Glue_init "ss".

Definition Kern_init (width : float) : node :=
  Kern {| Kern.size := 0; Kern.width := width |}.

Definition Box_init (width height depth : float) : Box.t :=
  {| Box.size := 0; Box.width := width; Box.height := height;
     Box.depth := depth |}.

Definition Vbox (height depth : float) : node := Box (Box_init 0 height depth).
Definition Hbox (width : float) : node := Box (Box_init width 0 0).

(** [List.__init__] *)
Definition List_init : BoxList.t :=
  {| BoxList.box := Box_init 0 0 0;
     BoxList.shift_amount := 0;
     BoxList.glue_set := 0;
     BoxList.glue_sign := 0;
     BoxList.glue_order := 0;
     BoxList.glue_ratio := None |}.

(** Attribute assignments on a list. *)
Definition set_box (l : BoxList.t) (b : Box.t) : BoxList.t :=
  {| BoxList.box := b;
     BoxList.shift_amount := BoxList.shift_amount l;
     BoxList.glue_set := BoxList.glue_set l;
     BoxList.glue_sign := BoxList.glue_sign l;
     BoxList.glue_order := BoxList.glue_order l;
     BoxList.glue_ratio := BoxList.glue_ratio l |}.

Definition set_width (l : BoxList.t) (v : float) : BoxList.t :=
  let b := BoxList.box l in
  set_box l {| Box.size := Box.size b; Box.width := v;
               Box.height := Box.height b; Box.depth := Box.depth b |}.

Definition set_height (l : BoxList.t) (v : float) : BoxList.t :=
  let b := BoxList.box l in
  set_box l {| Box.size := Box.size b; Box.width := Box.width b;
               Box.height := v; Box.depth := Box.depth b |}.

Definition set_depth (l : BoxList.t) (v : float) : BoxList.t :=
  let b := BoxList.box l in
  set_box l {| Box.size := Box.size b; Box.width := Box.width b;
               Box.height := Box.height b; Box.depth := v |}.

Definition set_shift_amount (l : BoxList.t) (v : float) : BoxList.t :=
  {| BoxList.box := BoxList.box l;
     BoxList.shift_amount := v;
     BoxList.glue_set := BoxList.glue_set l;
     BoxList.glue_sign := BoxList.glue_sign l;
     BoxList.glue_order := BoxList.glue_order l;
     BoxList.glue_ratio := BoxList.glue_ratio l |}.

Definition set_glue_set (l : BoxList.t) (v : float) : BoxList.t :=
  {| BoxList.box := BoxList.box l;
     BoxList.shift_amount := BoxList.shift_amount l;
     BoxList.glue_set := v;
     BoxList.glue_sign := BoxList.glue_sign l;
     BoxList.glue_order := BoxList.glue_order l;
     BoxList.glue_ratio := BoxList.glue_ratio l |}.

Definition set_glue_sign (l : BoxList.t) (v : Z) : BoxList.t :=
  {| BoxList.box := BoxList.box l;
     BoxList.shift_amount := BoxList.shift_amount l;
     BoxList.glue_set := BoxList.glue_set l;
     BoxList.glue_sign := v;
     BoxList.glue_order := BoxList.glue_order l;
     BoxList.glue_ratio := BoxList.glue_ratio l |}.

Definition set_glue_order (l : BoxList.t) (v : Z) : BoxList.t :=
  {| BoxList.box := BoxList.box l;
     BoxList.shift_amount := BoxList.shift_amount l;
     BoxList.glue_set := BoxList.glue_set l;
     BoxList.glue_sign := BoxList.glue_sign l;
     BoxList.glue_order := v;
     BoxList.glue_ratio := BoxList.glue_ratio l |}.

Definition set_glue_ratio (l : BoxList.t) (v : float) : BoxList.t :=
  {| BoxList.box := BoxList.box l;
     BoxList.shift_amount := BoxList.shift_amount l;
     BoxList.glue_set := BoxList.glue_set l;
     BoxList.glue_sign := BoxList.glue_sign l;
     BoxList.glue_order := BoxList.glue_order l;
     BoxList.glue_ratio := Some v |}.

(** Attribute reads [p.width], [p.height], [p.depth] and [p.shift_amount] on a
    node of any class; a class without the attribute raises. *)
Definition node_width (p : node) : result float :=
  match p with
  | Char ch | Accent ch => ret (Char.width ch)
  | Box b | Rule b => ret (Box.width b)
  | Hlist l _ | Vlist l _ => ret (BoxList.width l)
  | Kern k => ret (Kern.width k)
  | Glue _ => Raise (AttributeError "width")
  end.

Definition node_height (p : node) : result float :=
  match p with
  | Char ch | Accent ch => ret (Char.height ch)
  | Box b | Rule b => ret (Box.height b)
  | Hlist l _ | Vlist l _ => ret (BoxList.height l)
  | Glue _ | Kern _ => Raise (AttributeError "height")
  end.

Definition node_depth (p : node) : result float :=
  match p with
  | Char ch | Accent ch => ret (Char.depth ch)
  | Box b | Rule b => ret (Box.depth b)
  | Hlist l _ | Vlist l _ => ret (BoxList.depth l)
  | Glue _ | Kern _ => Raise (AttributeError "depth")
  end.

Definition node_shift_amount (p : node) : result float :=
  match p with
  | Hlist l _ | Vlist l _ => ret (BoxList.shift_amount l)
  | _ => Raise (AttributeError "shift_amount")
  end.

(** [p.shift_amount = v] on a list. *)
Definition node_set_shift_amount (p : node) (v : float) : node :=
  match p with
  | Hlist l children => Hlist (set_shift_amount l v) children
  | Vlist l children => Vlist (set_shift_amount l v) children
  | _ => p
  end.

(** [isinstance(p, Box)]: the [Box] attributes of a box, a rule or a list. *)
Definition as_Box (p : node) : option Box.t :=
  match p with
  | Box b | Rule b => Some b
  | Hlist l _ | Vlist l _ => Some (BoxList.box l)
  | _ => None
  end.

(** [getattr(p, 'shift_amount', 0.)] *)
Definition getattr_shift_amount (p : node) (default : float) : float :=
  match p with
  | Hlist l _ | Vlist l _ => BoxList.shift_amount l
  | _ => default
  end.

(** *** Shrinking *)

(** [Box.shrink], after [Node.shrink] has incremented [size]. *)
Definition Box_shrink (self : Box.t) : Box.t :=
  let size := (Box.size self + 1)%Z in
  if (size <? NUM_SIZE_LEVELS)%Z then
    {| Box.size := size;
       Box.width := Box.width self * SHRINK_FACTOR;
       Box.height := Box.height self * SHRINK_FACTOR;
       Box.depth := Box.depth self * SHRINK_FACTOR |}
  else
    {| Box.size := size; Box.width := Box.width self;
       Box.height := Box.height self; Box.depth := Box.depth self |}.

(** [Char.shrink] *)
Definition Char_shrink (self : Char.t) : Char.t :=
  let size := (Char.size self + 1)%Z in
  if (size <? NUM_SIZE_LEVELS)%Z then
    {| Char.size := size;
       Char.c := Char.c self;
       Char.font := Char.font self;
       Char.fontsize := Char.fontsize self * SHRINK_FACTOR;
       Char.dpi := Char.dpi self;
       Char._metrics := Char._metrics self;
       Char.width := Char.width self * SHRINK_FACTOR;
       Char.height := Char.height self * SHRINK_FACTOR;
       Char.depth := Char.depth self * SHRINK_FACTOR |}
  else
    {| Char.size := size;
       Char.c := Char.c self;
       Char.font := Char.font self;
       Char.fontsize := Char.fontsize self;
       Char.dpi := Char.dpi self;
       Char._metrics := Char._metrics self;
       Char.width := Char.width self;
       Char.height := Char.height self;
       Char.depth := Char.depth self |}.

(** [Glue.shrink]: the shared glue spec is copied before its width changes. *)
Definition Glue_shrink (self : Glue.t) : Glue.t :=
  let size := (Glue.size self + 1)%Z in
  let spec := Glue.glue_spec self in
  if (size <? NUM_SIZE_LEVELS)%Z && py_ne (GlueSpec.width spec) 0 then
    {| Glue.size := size;
       Glue.glue_subtype := Glue.glue_subtype self;
       Glue.glue_spec :=
         {| GlueSpec.width := GlueSpec.width spec * SHRINK_FACTOR;
            GlueSpec.stretch := GlueSpec.stretch spec;
            GlueSpec.stretch_order := GlueSpec.stretch_order spec;
            GlueSpec.shrink := GlueSpec.shrink spec;
            GlueSpec.shrink_order := GlueSpec.shrink_order spec |} |}
  else
    {| Glue.size := size;
       Glue.glue_subtype := Glue.glue_subtype self;
       Glue.glue_spec := spec |}.

(** [Kern.shrink] *)
Definition Kern_shrink (self : Kern.t) : Kern.t :=
  let size := (Kern.size self + 1)%Z in
  if (size <? NUM_SIZE_LEVELS)%Z then
    {| Kern.size := size; Kern.width := Kern.width self * SHRINK_FACTOR |}
  else
    {| Kern.size := size; Kern.width := Kern.width self |}.

(** [List.shrink], once the children have been shrunk. *)
Definition List_shrink (self : BoxList.t) : BoxList.t :=
  let self := set_box self (Box_shrink (BoxList.box self)) in
  if (BoxList.size self <? NUM_SIZE_LEVELS)%Z then
    set_glue_set
      (set_shift_amount self (BoxList.shift_amount self * SHRINK_FACTOR))
      (BoxList.glue_set self * SHRINK_FACTOR)
  else self.

(** [shrink] applied [k] times to a [Char]. *)
Fixpoint Char_shrink_times (k : nat) (self : Char.t) : Char.t :=
  match k with
  | O => self
  | S k' => Char_shrink (Char_shrink_times k' self)
  end.

(** [v] multiplied [n] times by [SHRINK_FACTOR]. *)
Fixpoint scaled (n : nat) (v : float) : float :=
  match n with
  | O => v
  | S n' => scaled n' v * SHRINK_FACTOR
  end.

(** The locals of the [hpack] loop and of the [vpack] loop. *)
Module HPack.
Record t : Type := {
  h : float;
  d : float;
  x : float;
  total_stretch : list float;
  total_shrink : list float
}.
End HPack.

Module VPack.
Record t : Type := {
  w : float;
  d : float;
  x : float;
  total_stretch : list float;
  total_shrink : list float
}.
End VPack.

(** [List._determine_order]: the loop [for i in range(len(totals) - 1, 0, -1)],
    entered at index [i]. *)
Fixpoint _determine_order_from (totals : list float) (i : nat) : nat :=
  match i with
  | O => O
  | S j => if py_ne (nth i totals 0) 0.0 then i
           else _determine_order_from totals j
  end.

Definition _determine_order (totals : list float) : Z :=
  Z.of_nat (_determine_order_from totals (List.length totals - 1)).

(** [List._set_glue]; [class_name] is [self.__class__.__name__] and
    [children] the list's children. *)
Definition _set_glue (class_name : string) (children : list node)
    (self : BoxList.t) (x : float) (sign : Z) (totals : list float)
    (error_type : string) : result BoxList.t :=
  let o := _determine_order totals in
  let self := set_glue_order self o in
  let self := set_glue_sign self sign in
  total <- py_getitem totals o ;;
  let self :=
    if py_ne total 0 then set_glue_set self (x / total)
    else set_glue_ratio (set_glue_sign self 0) 0 in
  if (o =? 0)%Z then
    match children with
    | [] => ret self
    | _ :: _ => emit (MathTextWarning error_type class_name) ;;; ret self
    end
  else ret self.

(** One turn of the loop of [Hlist.hpack] over the children. *)
Definition hpack_step (p : node) (s : HPack.t) : result HPack.t :=
  match p with
  | Char ch | Accent ch =>
      ret {| HPack.x := HPack.x s + Char.width ch;
             HPack.h := py_max (HPack.h s) (Char.height ch);
             HPack.d := py_max (HPack.d s) (Char.depth ch);
             HPack.total_stretch := HPack.total_stretch s;
             HPack.total_shrink := HPack.total_shrink s |}
  | Box _ | Rule _ | Hlist _ _ | Vlist _ _ =>
      match as_Box p with
      | Some b =>
          let x := HPack.x s + Box.width b in
          if negb (isinf (Box.height b)) && negb (isinf (Box.depth b)) then
            let sh := getattr_shift_amount p 0 in
            ret {| HPack.x := x;
                   HPack.h := py_max (HPack.h s) (Box.height b - sh);
                   HPack.d := py_max (HPack.d s) (Box.depth b + sh);
                   HPack.total_stretch := HPack.total_stretch s;
                   HPack.total_shrink := HPack.total_shrink s |}
          else
            ret {| HPack.x := x;
                   HPack.h := HPack.h s;
                   HPack.d := HPack.d s;
                   HPack.total_stretch := HPack.total_stretch s;
                   HPack.total_shrink := HPack.total_shrink s |}
      | None => ret s
      end
  | Glue g =>
      let glue_spec := Glue.glue_spec g in
      let x := HPack.x s + GlueSpec.width glue_spec in
      total_stretch <- py_additem (HPack.total_stretch s)
                         (GlueSpec.stretch_order glue_spec)
                         (GlueSpec.stretch glue_spec) ;;
      total_shrink <- py_additem (HPack.total_shrink s)
                        (GlueSpec.shrink_order glue_spec)
                        (GlueSpec.shrink glue_spec) ;;
      ret {| HPack.x := x;
             HPack.h := HPack.h s;
             HPack.d := HPack.d s;
             HPack.total_stretch := total_stretch;
             HPack.total_shrink := total_shrink |}
  | Kern k =>
      ret {| HPack.x := HPack.x s + Kern.width k;
             HPack.h := HPack.h s;
             HPack.d := HPack.d s;
             HPack.total_stretch := HPack.total_stretch s;
             HPack.total_shrink := HPack.total_shrink s |}
  end.

Fixpoint hpack_loop (children : list node) (s : HPack.t) : result HPack.t :=
  match children with
  | [] => ret s
  | p :: rest => s' <- hpack_step p s ;; hpack_loop rest s'
  end.

Definition hpack_start : HPack.t :=
  {| HPack.h := 0; HPack.d := 0; HPack.x := 0;
     HPack.total_stretch := [0; 0; 0; 0];
     HPack.total_shrink := [0; 0; 0; 0] |}.

(** [Hlist.hpack(w, m)] on the list [self] with the given children: the part
    after the loop, from the locals the loop leaves, and the whole routine. *)
Definition hpack_finish (class_name : string) (children : list node)
    (self : BoxList.t) (w : float) (m : pyval) (s : HPack.t)
    : result BoxList.t :=
  let x := HPack.x s in
  let self := set_height self (HPack.h s) in
  let self := set_depth self (HPack.d s) in
  let w := if py_eq_str m "additional" then w + x else w in
  let self := set_width self w in
  let x := w - x in
  if x =? 0 then
    ret (set_glue_ratio (set_glue_order (set_glue_sign self 0) 0) 0)
  else if py_gt x 0 then
    _set_glue class_name children self x 1 (HPack.total_stretch s) "Overfull"
  else
    _set_glue class_name children self x (-1) (HPack.total_shrink s) "Underfull".

Definition hpack (class_name : string) (children : list node)
    (self : BoxList.t) (w : float) (m : pyval) : result BoxList.t :=
  s <- hpack_loop children hpack_start ;;
  hpack_finish class_name children self w m s.

(** One turn of the loop of [Vlist.vpack]. *)
Definition vpack_step (p : node) (s : VPack.t) : result VPack.t :=
  match p with
  | Box _ | Rule _ | Hlist _ _ | Vlist _ _ =>
      match as_Box p with
      | Some b =>
          let x := VPack.x s + (VPack.d s + Box.height b) in
          let d := Box.depth b in
          if negb (isinf (Box.width b)) then
            let sh := getattr_shift_amount p 0 in
            ret {| VPack.w := py_max (VPack.w s) (Box.width b + sh);
                   VPack.d := d;
                   VPack.x := x;
                   VPack.total_stretch := VPack.total_stretch s;
                   VPack.total_shrink := VPack.total_shrink s |}
          else
            ret {| VPack.w := VPack.w s;
                   VPack.d := d;
                   VPack.x := x;
                   VPack.total_stretch := VPack.total_stretch s;
                   VPack.total_shrink := VPack.total_shrink s |}
      | None => ret s
      end
  | Glue g =>
      let x := VPack.x s + VPack.d s in
      let glue_spec := Glue.glue_spec g in
      let x := x + GlueSpec.width glue_spec in
      total_stretch <- py_additem (VPack.total_stretch s)
                         (GlueSpec.stretch_order glue_spec)
                         (GlueSpec.stretch glue_spec) ;;
      total_shrink <- py_additem (VPack.total_shrink s)
                        (GlueSpec.shrink_order glue_spec)
                        (GlueSpec.shrink glue_spec) ;;
      ret {| VPack.w := VPack.w s;
             VPack.d := 0;
             VPack.x := x;
             VPack.total_stretch := total_stretch;
             VPack.total_shrink := total_shrink |}
  | Kern k =>
      ret {| VPack.w := VPack.w s;
             VPack.d := 0;
             VPack.x := VPack.x s + (VPack.d s + Kern.width k);
             VPack.total_stretch := VPack.total_stretch s;
             VPack.total_shrink := VPack.total_shrink s |}
  | Char _ | Accent _ =>
      Raise (RuntimeError "Internal mathtext error: Char node found in Vlist.")
  end.

Fixpoint vpack_loop (children : list node) (s : VPack.t) : result VPack.t :=
  match children with
  | [] => ret s
  | p :: rest => s' <- vpack_step p s ;; vpack_loop rest s'
  end.

Definition vpack_start : VPack.t :=
  {| VPack.w := 0; VPack.d := 0; VPack.x := 0;
     VPack.total_stretch := [0; 0; 0; 0];
     VPack.total_shrink := [0; 0; 0; 0] |}.

(** [Vlist.vpack(h, m, l)]: the part after the loop, and the whole routine. *)
Definition vpack_finish (class_name : string) (children : list node)
    (self : BoxList.t) (h : float) (m : pyval) (l : pyval) (s : VPack.t)
    : result BoxList.t :=
  let d := VPack.d s in
  let x := VPack.x s in
  let self := set_width self (VPack.w s) in
  clamped <-
    (if py_float_gt d l then
       match l with
       | PyFloat lf => ret (x + (d - lf), set_depth self lf)
       | PyStr _ => Raise (OtherError "TypeError")
       end
     else ret (x, set_depth self d)) ;;
  let x := fst clamped in
  let self := snd clamped in
  let h := if py_eq_str m "additional" then h + x else h in
  let self := set_height self h in
  let x := h - x in
  if x =? 0 then
    ret (set_glue_ratio (set_glue_order (set_glue_sign self 0) 0) 0)
  else if py_gt x 0 then
    _set_glue class_name children self x 1 (VPack.total_stretch s) "Overfull"
  else
    _set_glue class_name children self x (-1) (VPack.total_shrink s) "Underfull".

Definition vpack (class_name : string) (children : list node)
    (self : BoxList.t) (h : float) (m : pyval) (l : pyval)
    : result BoxList.t :=
  s <- vpack_loop children vpack_start ;;
  vpack_finish class_name children self h m l s.

(** The attributes of the [Ship] object. *)
Module Ship.
Record t : Type := {
  max_push : Z;
  cur_s : Z;
  cur_v : float;
  cur_h : float;
  off_h : float;
  off_v : float
}.
End Ship.

(** [Ship.clamp] *)
Definition clamp (value : float) : float :=
  if value <? -1000000000.0 then -1000000000.0
  else if py_gt value 1000000000.0 then 1000000000.0
  else value.

(** The turn of the [Glue] branch shared by [hlist_out] and [vlist_out]: from
    the locals [cur_g] and [cur_glue] to their new values and the computed
    [rule_width] (called [rule_height] in [vlist_out]). *)
Definition glue_out (glue_sign glue_order : Z) (glue_set : float)
    (glue_spec : GlueSpec.t) (cur_g cur_glue : float)
    : float * float * float :=
  let rule_width := GlueSpec.width glue_spec - cur_g in
  let '(cur_g, cur_glue) :=
    if negb (glue_sign =? 0)%Z then
      if (glue_sign =? 1)%Z then
        if (GlueSpec.stretch_order glue_spec =? glue_order)%Z then
          let cur_glue := cur_glue + GlueSpec.stretch glue_spec in
          (round (clamp (glue_set * cur_glue)), cur_glue)
        else (cur_g, cur_glue)
      else if (GlueSpec.shrink_order glue_spec =? glue_order)%Z then
        let cur_glue := cur_glue + GlueSpec.shrink glue_spec in
        (round (clamp (glue_set * cur_glue)), cur_glue)
      else (cur_g, cur_glue)
    else (cur_g, cur_glue) in
  (cur_g, cur_glue, rule_width + cur_g).

(** The optional root index handed to [Parser.sqrt]: [None], the
    [ParseResults] of the bracketed group, or anything else. *)
Inductive root_token : Type :=
| ParseResults (toks : list node)
| NotParseResults.

Section Layout.

(** [state.font_output], the font object shared by the nodes of a parse. *)
Variable font_output : Fonts.

(** The assignments of [Char._update_metrics], given the metrics that the
    font object answered. *)
Definition Char_assign_metrics (size : Z) (c : string) (font : font_name)
    (fontsize dpi : float) (metrics : Metrics.t) : Char.t :=
  {| Char.size := size;
     Char.c := c;
     Char.font := font;
     Char.fontsize := fontsize;
     Char.dpi := dpi;
     Char._metrics := metrics;
     Char.width :=
       if String.eqb c " " then Metrics.advance metrics
       else Metrics.width metrics;
     Char.height := Metrics.iceberg metrics;
     Char.depth := - (Metrics.iceberg metrics - Metrics.height metrics) |}.

(** The assignments of [Accent._update_metrics]. *)
Definition Accent_assign_metrics (size : Z) (c : string) (font : font_name)
    (fontsize dpi : float) (metrics : Metrics.t) : Char.t :=
  {| Char.size := size;
     Char.c := c;
     Char.font := font;
     Char.fontsize := fontsize;
     Char.dpi := dpi;
     Char._metrics := metrics;
     Char.width := Metrics.xmax metrics - Metrics.xmin metrics;
     Char.height := Metrics.ymax metrics - Metrics.ymin metrics;
     Char.depth := 0 |}.

(** [Char._update_metrics] *)
Definition Char__update_metrics (self : Char.t) : result Char.t :=
  metrics <- get_metrics font_output (Char.font self) (Char.c self)
               (Char.fontsize self) (Char.dpi self) ;;
  ret (Char_assign_metrics (Char.size self) (Char.c self) (Char.font self)
         (Char.fontsize self) (Char.dpi self) metrics).

(** [Accent._update_metrics] *)
Definition Accent__update_metrics (self : Char.t) : result Char.t :=
  metrics <- get_metrics font_output (Char.font self) (Char.c self)
               (Char.fontsize self) (Char.dpi self) ;;
  ret (Accent_assign_metrics (Char.size self) (Char.c self) (Char.font self)
         (Char.fontsize self) (Char.dpi self) metrics).

(** [Char(c, state)]: [Node.__init__] sets [size], the constructor copies the
    state, and [_update_metrics] derives the metrics and the dimensions. *)
Definition Char_init (c : string) (state : State.t) : result Char.t :=
  metrics <- get_metrics font_output (State.font state) c
               (State.fontsize state) (State.dpi state) ;;
  ret (Char_assign_metrics 0 c (State.font state) (State.fontsize state)
         (State.dpi state) metrics).

(** [Accent(c, state)] *)
Definition Accent_init (c : string) (state : State.t) : result Char.t :=
  metrics <- get_metrics font_output (State.font state) c
               (State.fontsize state) (State.dpi state) ;;
  ret (Accent_assign_metrics 0 c (State.font state) (State.fontsize state)
         (State.dpi state) metrics).

(** [Accent.shrink] *)
Definition Accent_shrink (self : Char.t) : result Char.t :=
  Accent__update_metrics (Char_shrink self).

(** [shrink] on a node of any class. *)
Fixpoint shrink (p : node) : result node :=
  match p with
  | Char ch => ret (Char (Char_shrink ch))
  | Accent ch => ch' <- Accent_shrink ch ;; ret (Accent ch')
  | Box b => ret (Box (Box_shrink b))
  | Rule b => ret (Rule (Box_shrink b))
  | Hlist l children =>
      children' <-
        (fix each (ps : list node) : result (list node) :=
           match ps with
           | [] => ret []
           | child :: rest =>
               child' <- shrink child ;;
               rest' <- each rest ;;
               ret (child' :: rest')
           end) children ;;
      ret (Hlist (List_shrink l) children')
  | Vlist l children =>
      children' <-
        (fix each (ps : list node) : result (list node) :=
           match ps with
           | [] => ret []
           | child :: rest =>
               child' <- shrink child ;;
               rest' <- each rest ;;
               ret (child' :: rest')
           end) children ;;
      ret (Vlist (List_shrink l) children')
  | Glue g => ret (Glue (Glue_shrink g))
  | Kern k => ret (Kern (Kern_shrink k))
  end.

(** [get_kerning(next)]: [Node.get_kerning] answers [0.0]; [Char.get_kerning]
    asks the font for the kerning with a following [Char]. *)
Definition get_kerning (self : node) (next : option node) : result float :=
  match self with
  | Char ch | Accent ch =>
      let advance := Metrics.advance (Char._metrics ch) - Char.width ch in
      kern <-
        match next with
        | Some (Char nx) | Some (Accent nx) =>
            get_kern font_output (Char.font ch) (Char.c ch) (Char.fontsize ch)
              (Char.font nx) (Char.c nx) (Char.fontsize nx) (Char.dpi ch)
        | _ => ret 0
        end ;;
      ret (advance + kern)
  | _ => ret 0.0
  end.

(** [Hlist.kern]: the new list of children. *)
Fixpoint kern (children : list node) : result (list node) :=
  match children with
  | [] => ret []
  | elem :: rest =>
      kerning_distance <- get_kerning elem (List.hd_error rest) ;;
      rest' <- kern rest ;;
      ret (if py_ne kerning_distance 0 then
             elem :: Kern_init kerning_distance :: rest'
           else elem :: rest')
  end.

(** [Hlist.__init__(elements, w, m, do_kern)] *)
Definition Hlist_init (elements : list node) (w : float) (m : pyval)
    (do_kern : bool) : result node :=
  let self := List_init in
  children <- (if do_kern then kern elements else ret elements) ;;
  self <- hpack "Hlist" children self 0 (PyStr "additional") ;;
  ret (Hlist self children).

(** [Vlist.__init__(elements, h, m)] *)
Definition Vlist_init (elements : list node) (h : float) (m : pyval)
    : result node :=
  let self := List_init in
  self <- vpack "Vlist" elements self 0 (PyStr "additional") (PyFloat inf) ;;
  ret (Vlist self elements).

(** [Hlist(elements)] and [Vlist(elements)] with the default arguments. *)
Definition Hlist_ (elements : list node) : result node :=
  Hlist_init elements 0 (PyStr "additional") true.

Definition Vlist_ (elements : list node) : result node :=
  Vlist_init elements 0 (PyStr "additional").

(** [Hrule(state)] *)
Definition Hrule (state : State.t) : result node :=
  thickness <- get_underline_thickness font_output (State.font state)
                 (State.fontsize state) (State.dpi state) ;;
  let height := thickness * 0.5 in
  let depth := thickness * 0.5 in
  ret (Rule (Box_init inf height depth)).

(** [Vrule(state)] *)
Definition Vrule (state : State.t) : result node :=
  thickness <- get_underline_thickness font_output (State.font state)
                 (State.fontsize state) (State.dpi state) ;;
  ret (Rule (Box_init thickness inf inf)).

(** The loop of [AutoHeightChar.__init__] over the sized alternatives; [last]
    holds [char], [sym] and [state] once the loop has bound them. *)
Fixpoint AutoHeightChar_loop (alternatives : list (font_name * string))
    (state : State.t) (target_total : float)
    (last : option (Char.t * string * State.t))
    : result (option (Char.t * string * State.t)) :=
  match alternatives with
  | [] => ret last
  | (fontname, sym) :: rest =>
      let state := {| State.font := fontname;
                      State.fontsize := State.fontsize state;
                      State.dpi := State.dpi state |} in
      char <- Char_init sym state ;;
      if py_ge (Char.height char + Char.depth char) target_total then
        ret (Some (char, sym, state))
      else AutoHeightChar_loop rest state target_total (Some (char, sym, state))
  end.

(** [AutoHeightChar(c, height, depth, state)] *)
Definition AutoHeightChar (c : string) (height depth : float) (state : State.t)
    : result node :=
  alternatives <- get_sized_alternatives_for_symbol font_output
                    (State.font state) c ;;
  let target_total := height + depth in
  last <- AutoHeightChar_loop alternatives state target_total None ;;
  match last with
  | None => Raise (NameError "char")
  | Some (char, sym, state) =>
      factor <- py_div target_total (Char.height char + Char.depth char) ;;
      let state := {| State.font := State.font state;
                      State.fontsize := State.fontsize state * factor;
                      State.dpi := State.dpi state |} in
      char <- Char_init sym state ;;
      let shift := depth - Char.depth char in
      self <- Hlist_ [Char char] ;;
      ret (node_set_shift_amount self shift)
  end.

(** The part of [Parser.sqrt] that builds [rightside]: the padded body under
    an [Hrule] and [Fill] glue, packed again by
    [rightside.vpack(height + 1.0, depth, 'exactly')].  The parameters of
    [vpack] are [(h, m, l)]: this call binds [depth] to the mode [m] and
    ['exactly'] to the limit [l]. *)
Definition sqrt_rightside (thickness height depth : float) (body : node)
    (state : State.t) : result node :=
  padded_body <- Hlist_ [Hbox (thickness * 2.0); body; Hbox (thickness * 2.0)] ;;
  hrule <- Hrule state ;;
  fill <- Fill ;;
  rightside <- Vlist_ [hrule; fill; padded_body] ;;
  match rightside with
  | Vlist l children =>
      l <- vpack "Vlist" children l (height + 1.0) (PyFloat depth)
             (PyStr "exactly") ;;
      ret (Vlist l children)
  | _ => ret rightside
  end.

(** [Parser.sqrt] on the tokens [root, body], in the parser state [state]. *)
Definition sqrt (root : option root_token) (body : node) (state : State.t)
    : result node :=
  thickness <- get_underline_thickness font_output (State.font state)
                 (State.fontsize state) (State.dpi state) ;;
  root <-
    match root with
    | None => ret (Box (Box_init 0 0 0))
    | Some NotParseResults =>
        Raise (ParseFatalException
                 "Can not parse root of radical. Only simple symbols are allowed in the root.")
    | Some (ParseResults toks) =>
        root <- Hlist_ toks ;;
        root <- shrink root ;;
        shrink root
    end ;;
  body_height <- node_height body ;;
  body_shift_amount <- node_shift_amount body ;;
  let height := body_height - body_shift_amount + thickness * 5.0 in
  body_depth <- node_depth body ;;
  let depth := body_depth + body_shift_amount in
  check <- AutoHeightChar "\__sqrt__" height depth state ;;
  check_height <- node_height check ;;
  check_shift_amount <- node_shift_amount check ;;
  let height := check_height - check_shift_amount in
  check_depth <- node_depth check ;;
  let depth := check_depth + check_shift_amount in
  rightside <- sqrt_rightside thickness height depth body state ;;
  inner <- Hlist_ [root] ;;
  root_vlist <- Vlist_ [inner] ;;
  let root_vlist := node_set_shift_amount root_vlist (- height * 0.6) in
  check_width <- node_width check ;;
  Hlist_ [root_vlist; Kern_init (- check_width * 0.5); check; rightside].

(** *** Shipping out *)

Definition set_cur_h (self : Ship.t) (v : float) : Ship.t :=
  {| Ship.max_push := Ship.max_push self; Ship.cur_s := Ship.cur_s self;
     Ship.cur_v := Ship.cur_v self; Ship.cur_h := v;
     Ship.off_h := Ship.off_h self; Ship.off_v := Ship.off_v self |}.

Definition set_cur_v (self : Ship.t) (v : float) : Ship.t :=
  {| Ship.max_push := Ship.max_push self; Ship.cur_s := Ship.cur_s self;
     Ship.cur_v := v; Ship.cur_h := Ship.cur_h self;
     Ship.off_h := Ship.off_h self; Ship.off_v := Ship.off_v self |}.

(** [self.cur_s += 1; self.max_push = max(self.cur_s, self.max_push)] *)
Definition push (self : Ship.t) : Ship.t :=
  let cur_s := (Ship.cur_s self + 1)%Z in
  {| Ship.max_push := Z.max cur_s (Ship.max_push self); Ship.cur_s := cur_s;
     Ship.cur_v := Ship.cur_v self; Ship.cur_h := Ship.cur_h self;
     Ship.off_h := Ship.off_h self; Ship.off_v := Ship.off_v self |}.

(** [self.cur_s -= 1] *)
Definition pop (self : Ship.t) : Ship.t :=
  {| Ship.max_push := Ship.max_push self; Ship.cur_s := (Ship.cur_s self - 1)%Z;
     Ship.cur_v := Ship.cur_v self; Ship.cur_h := Ship.cur_h self;
     Ship.off_h := Ship.off_h self; Ship.off_v := Ship.off_v self |}.

(** [Char.render(x, y)] and [Accent.render(x, y)] *)
Definition Char_render (ch : Char.t) (x y : float) : result unit :=
  emit (render_glyph x y (Char.font ch) (Char.c ch) (Char.fontsize ch)
          (Char.dpi ch)).

Definition Accent_render (ch : Char.t) (x y : float) : result unit :=
  emit (render_glyph (x - Metrics.xmin (Char._metrics ch))
          (y + Metrics.ymin (Char._metrics ch))
          (Char.font ch) (Char.c ch) (Char.fontsize ch) (Char.dpi ch)).

(** [Rule.render(x, y, w, h)]; [Box.render] does nothing. *)
Definition Rule_render (x y w h : float) : result unit :=
  emit (render_rect_filled x y (x + w) (y + h)).

Definition Box_render (x1 y1 x2 y2 : float) : result unit := ret tt.

(** The loops of [hlist_out] and [vlist_out] over [box.children].  They are
    written over the two routines they call for a child list, and return the
    [Ship] object together with the values that the locals [cur_g] and
    [cur_glue] hold when the loop ends.  [l] holds the attributes of [box].

    [vlist_out] assigns [p.width = box.width] to a child list before it ships
    it; of that list only its [vlist_out] reads the width, so the width that
    [vlist_out] reads as [box.width] is passed beside the node. *)
Definition hlist_out_loop
    (hlist_out : node -> Ship.t -> result Ship.t)
    (vlist_out : node -> float -> Ship.t -> result Ship.t)
    (l : BoxList.t) (base_line : float)
    : list node -> float -> float -> Ship.t -> result (Ship.t * float * float) :=
  fix loop (ps : list node) (cur_g cur_glue : float) (self : Ship.t)
    {struct ps} : result (Ship.t * float * float) :=
    match ps with
    | [] => ret (self, cur_g, cur_glue)
    | p :: rest =>
        match p with
        | Char ch =>
            Char_render ch (Ship.cur_h self + Ship.off_h self)
              (Ship.cur_v self + Ship.off_v self) ;;;
            loop rest cur_g cur_glue
              (set_cur_h self (Ship.cur_h self + Char.width ch))
        | Accent ch =>
            Accent_render ch (Ship.cur_h self + Ship.off_h self)
              (Ship.cur_v self + Ship.off_v self) ;;;
            loop rest cur_g cur_glue
              (set_cur_h self (Ship.cur_h self + Char.width ch))
        | Hlist pl pc =>
            match pc with
            | [] =>
                loop rest cur_g cur_glue
                  (set_cur_h self (Ship.cur_h self + BoxList.width pl))
            | _ :: _ =>
                let edge := Ship.cur_h self in
                let self :=
                  set_cur_v self (base_line + BoxList.shift_amount pl) in
                self <- hlist_out p self ;;
                let self := set_cur_h self (edge + BoxList.width pl) in
                let self := set_cur_v self base_line in
                loop rest cur_g cur_glue self
            end
        | Vlist pl pc =>
            match pc with
            | [] =>
                loop rest cur_g cur_glue
                  (set_cur_h self (Ship.cur_h self + BoxList.width pl))
            | _ :: _ =>
                let edge := Ship.cur_h self in
                let self :=
                  set_cur_v self (base_line + BoxList.shift_amount pl) in
                self <- vlist_out p (BoxList.width pl) self ;;
                let self := set_cur_h self (edge + BoxList.width pl) in
                let self := set_cur_v self base_line in
                loop rest cur_g cur_glue self
            end
        | Box b | Rule b =>
            let rule_height := Box.height b in
            let rule_depth := Box.depth b in
            let rule_width := Box.width b in
            let rule_height :=
              if isinf rule_height then BoxList.height l else rule_height in
            let rule_depth :=
              if isinf rule_depth then BoxList.depth l else rule_depth in
            if py_gt rule_height 0 && py_gt rule_width 0 then
              Raise (NameError "baseline")
            else
              loop rest cur_g cur_glue
                (set_cur_h self (Ship.cur_h self + rule_width))
        | Glue g =>
            let '(cur_g, cur_glue, rule_width) :=
              glue_out (BoxList.glue_sign l) (BoxList.glue_order l)
                (BoxList.glue_set l) (Glue.glue_spec g) cur_g cur_glue in
            loop rest cur_g cur_glue
              (set_cur_h self (Ship.cur_h self + rule_width))
        | Kern k =>
            loop rest cur_g cur_glue
              (set_cur_h self (Ship.cur_h self + Kern.width k))
        end
    end.

Definition vlist_out_loop
    (hlist_out : node -> Ship.t -> result Ship.t)
    (vlist_out : node -> float -> Ship.t -> result Ship.t)
    (l : BoxList.t) (box_width : float) (left_edge : float)
    : list node -> float -> float -> Ship.t -> result (Ship.t * float * float) :=
  fix loop (ps : list node) (cur_g cur_glue : float) (self : Ship.t)
    {struct ps} : result (Ship.t * float * float) :=
    match ps with
    | [] => ret (self, cur_g, cur_glue)
    | p :: rest =>
        match p with
        | Hlist pl pc =>
            match pc with
            | [] =>
                loop rest cur_g cur_glue
                  (set_cur_v self
                     (Ship.cur_v self + (BoxList.height pl + BoxList.depth pl)))
            | _ :: _ =>
                let self :=
                  set_cur_v self (Ship.cur_v self + BoxList.height pl) in
                let self :=
                  set_cur_h self (left_edge + BoxList.shift_amount pl) in
                let save_v := Ship.cur_v self in
                self <- hlist_out p self ;;
                let self := set_cur_v self (save_v + BoxList.depth pl) in
                let self := set_cur_h self left_edge in
                loop rest cur_g cur_glue self
            end
        | Vlist pl pc =>
            match pc with
            | [] =>
                loop rest cur_g cur_glue
                  (set_cur_v self
                     (Ship.cur_v self + (BoxList.height pl + BoxList.depth pl)))
            | _ :: _ =>
                let self :=
                  set_cur_v self (Ship.cur_v self + BoxList.height pl) in
                let self :=
                  set_cur_h self (left_edge + BoxList.shift_amount pl) in
                let save_v := Ship.cur_v self in
                self <- vlist_out p box_width self ;;
                let self := set_cur_v self (save_v + BoxList.depth pl) in
                let self := set_cur_h self left_edge in
                loop rest cur_g cur_glue self
            end
        | Box b | Rule b =>
            let rule_height := Box.height b in
            let rule_depth := Box.depth b in
            let rule_width := Box.width b in
            let rule_width :=
              if isinf rule_width then box_width else rule_width in
            let rule_height := rule_height + rule_depth in
            if py_gt rule_height 0 && py_gt rule_depth 0 then
              let self := set_cur_v self (Ship.cur_v self + rule_height) in
              match p with
              | Rule _ =>
                  Rule_render (Ship.cur_h self + Ship.off_h self)
                    (Ship.cur_v self + Ship.off_v self) rule_width rule_height
              | _ =>
                  Box_render (Ship.cur_h self + Ship.off_h self)
                    (Ship.cur_v self + Ship.off_v self) rule_width rule_height
              end ;;;
              loop rest cur_g cur_glue self
            else loop rest cur_g cur_glue self
        | Glue g =>
            let '(cur_g, cur_glue, rule_height) :=
              glue_out (BoxList.glue_sign l) (BoxList.glue_order l)
                (BoxList.glue_set l) (Glue.glue_spec g) cur_g cur_glue in
            loop rest cur_g cur_glue
              (set_cur_v self (Ship.cur_v self + rule_height))
        | Kern k =>
            loop rest cur_g cur_glue
              (set_cur_v self (Ship.cur_v self + Kern.width k))
        | Char _ | Accent _ =>
            Raise (RuntimeError
                     "Internal mathtext error: Char node found in vlist")
        end
    end.

(** [Ship.hlist_out(box)] and [Ship.vlist_out(box)]. *)
Fixpoint hlist_out (box : node) (self : Ship.t) {struct box} : result Ship.t :=
  match box with
  | Hlist l children | Vlist l children =>
      let base_line := Ship.cur_v self in
      let left_edge := Ship.cur_h self in
      let self := push self in
      out <- hlist_out_loop hlist_out vlist_out l base_line children 0 0 self ;;
      ret (pop (fst (fst out)))
  | _ => Raise (AttributeError "glue_order")
  end

with vlist_out (box : node) (box_width : float) (self : Ship.t) {struct box}
    : result Ship.t :=
  match box with
  | Hlist l children | Vlist l children =>
      let self := push self in
      let left_edge := Ship.cur_h self in
      let self := set_cur_v self (Ship.cur_v self - BoxList.height l) in
      let top_edge := Ship.cur_v self in
      out <- vlist_out_loop hlist_out vlist_out l box_width left_edge
               children 0 0 self ;;
      ret (pop (fst (fst out)))
  | _ => Raise (AttributeError "glue_order")
  end.

(** [Ship.__call__(ox, oy, box)] *)
Definition ship (ox oy : float) (box : node) : result Ship.t :=
  box_height <- node_height box ;;
  hlist_out box
    {| Ship.max_push := 0; Ship.cur_s := 0; Ship.cur_v := 0; Ship.cur_h := 0;
       Ship.off_h := ox; Ship.off_v := oy + box_height |}.

End Layout.

(** ** Centered lists and the parser's fractions *)

(** [p.hpack(w, m)] on a node built as an [Hlist]; [class_name] is the class
    of the object, which a subclass of [Hlist] reports as its own. *)
Definition Hlist_hpack (class_name : string) (p : node) (w : float) (m : pyval)
    : result node :=
  match p with
  | Hlist l children =>
      l <- hpack class_name children l w m ;;
      ret (Hlist l children)
  | _ => Raise (AttributeError "hpack")
  end.

(** [HCentered(elements)]: the elements between two [SsGlue], not kerned. *)
Definition HCentered (elements : list node) : result node :=
  left <- SsGlue ;;
  right <- SsGlue ;;
  let children := [left] ++ elements ++ [right] in
  self <- hpack "HCentered" children List_init 0 (PyStr "additional") ;;
  ret (Hlist self children).

Section Parser.

Variable font_output : Fonts.

(** [Parser.frac] on the tokens [num, den], in the parser state [state]. *)
Definition frac (num den : node) (state : State.t) : result node :=
  thickness <- get_underline_thickness font_output (State.font state)
                 (State.fontsize state) (State.dpi state) ;;
  num <- shrink font_output num ;;
  den <- shrink font_output den ;;
  cnum <- HCentered [num] ;;
  cden <- HCentered [den] ;;
  num_width <- node_width num ;;
  den_width <- node_width den ;;
  let width := py_max num_width den_width + thickness * 10.0 in
  cnum <- Hlist_hpack "HCentered" cnum width (PyStr "exactly") ;;
  cden <- Hlist_hpack "HCentered" cden width (PyStr "exactly") ;;
  hrule <- Hrule font_output state ;;
  vlist <- Vlist_ [cnum; Vbox 0 (thickness * 2.0); hrule;
                   Vbox 0 (thickness * 4.0); cden] ;;
  metrics <- get_metrics font_output (State.font state) "="
               (State.fontsize state) (State.dpi state) ;;
  cden_height <- node_height cden ;;
  let shift :=
    cden_height
    - ((Metrics.ymax metrics + Metrics.ymin metrics) / 2
       - thickness * 3.0) in
  let vlist := node_set_shift_amount vlist shift in
  Hlist_ font_output [vlist; Hbox (thickness * 2.0)].

(** *** Subscripts and superscripts *)













(** *** Delimiters sized to their content *)

(** [[f(x) for x in xs]] for an attribute read [f] that may raise. *)
Fixpoint py_map {A B : Type} (f : A -> result B) (xs : list A)
    : result (list B) :=
  match xs with
  | [] => ret []
  | x :: rest =>
      y <- f x ;;
      ys <- py_map f rest ;;
      ret (y :: ys)
  end.

(** The builtin [max] of a list: it raises on an empty one, and keeps the
    earlier item unless a later one compares greater. *)
Definition py_max_list (xs : list float) : result float :=
  match xs with
  | [] => Raise (OtherError "ValueError")
  | x :: rest => ret (fold_left py_max rest x)
  end.

(** [Parser.auto_sized_delimiter] on the tokens [front, middle, back]. *)
Definition auto_sized_delimiter (front : string) (middle : list node)
    (back : string) (state : State.t) : result node :=
  heights <- py_map node_height middle ;;
  height <- py_max_list heights ;;
  depths <- py_map node_depth middle ;;
  depth <- py_max_list depths ;;
  parts <-
    (if negb (String.eqb front ".") then
       delimiter <- AutoHeightChar font_output front height depth state ;;
       ret [delimiter]
     else ret []) ;;
  let parts := parts ++ middle in
  parts <-
    (if negb (String.eqb back ".") then
       delimiter <- AutoHeightChar font_output back height depth state ;;
       ret (parts ++ [delimiter])
     else ret parts) ;;
  Hlist_ font_output parts.

(** *** The stack of parser states *)

(** [State.copy] builds a new state with the same attributes. *)
Definition State_copy (self : State.t) : State.t :=
  {| State.font := State.font self; State.fontsize := State.fontsize self;
     State.dpi := State.dpi self |}.

(** [Parser.get_state], [pop_state] and [push_state] on [_state_stack], whose
    top is the last element. *)
Definition get_state (_state_stack : list State.t) : result State.t :=
  py_getitem _state_stack (-1).

Definition pop_state (_state_stack : list State.t) : result (list State.t) :=
  match _state_stack with
  | [] => Raise IndexError
  | _ :: _ => ret (removelast _state_stack)
  end.

Definition push_state (_state_stack : list State.t) : result (list State.t) :=
  state <- get_state _state_stack ;;
  ret (_state_stack ++ [State_copy state]).

(** [self.get_state().font = name]: the state on top is changed in place. *)
Definition set_state_font (_state_stack : list State.t) (name : string)
    : result (list State.t) :=
  state <- get_state _state_stack ;;
  ret (removelast _state_stack
       ++ [{| State.font := FontStr name;
              State.fontsize := State.fontsize state;
              State.dpi := State.dpi state |}]).

(** The characters of a string, one string each, and [s.replace(r'\$', '$')]. *)
Fixpoint chars (s : string) : list string :=
  match s with
  | EmptyString => []
  | String c rest => String c EmptyString :: chars rest
  end.

Fixpoint unescape_dollar (s : string) : string :=
  match s with
  | EmptyString => EmptyString
  | String c rest =>
      match rest with
      | String d rest' =>
          if (Ascii.eqb c "\"%char && Ascii.eqb d "$"%char)%bool
          then String "$"%char (unescape_dollar rest')
          else String c (unescape_dollar rest)
      | EmptyString => String c EmptyString
      end
  end.

(** [s[4:]] *)
Definition from_fifth (s : string) : string :=
  String.substring 4 (String.length s - 4) s.

(** [Parser.non_math], [math], [function], [start_group], [end_group] and
    [font]: each returns its token, if it has one, beside the stack as it
    leaves it. *)
Definition non_math (text : string) (_state_stack : list State.t)
    : result (node * list State.t) :=
  let s := unescape_dollar text in
  symbols <-
    py_map (fun c =>
              state <- get_state _state_stack ;;
              char <- Char_init font_output c state ;;
              ret (Char char)) (chars s) ;;
  hlist <- Hlist_ font_output symbols ;;
  _state_stack <- push_state _state_stack ;;
  _state_stack <- set_state_font _state_stack "it" ;;
  ret (hlist, _state_stack).

Definition math (toks : list node) (_state_stack : list State.t)
    : result (node * list State.t) :=
  hlist <- Hlist_ font_output toks ;;
  _state_stack <- pop_state _state_stack ;;
  ret (hlist, _state_stack).

(** The value holds the Hlist, its new attribute [function_name] and the
    stack. *)
Definition function (name : string) (_state_stack : list State.t)
    : result (node * string * list State.t) :=
  _state_stack <- push_state _state_stack ;;
  _state_stack <- set_state_font _state_stack "rm" ;;
  state <- get_state _state_stack ;;
  symbols <-
    py_map (fun c => char <- Char_init font_output c state ;; ret (Char char))
      (chars name) ;;
  hlist <- Hlist_ font_output symbols ;;
  _state_stack <- pop_state _state_stack ;;
  ret (hlist, name, _state_stack).

Definition start_group (latexfont : option string)
    (_state_stack : list State.t) : result (list State.t) :=
  _state_stack <- push_state _state_stack ;;
  match latexfont with
  | Some name => set_state_font _state_stack (from_fifth name)
  | None => ret _state_stack
  end.

Definition end_group (_state_stack : list State.t) : result (list State.t) :=
  pop_state _state_stack.

Definition font (name : string) (_state_stack : list State.t)
    : result (list State.t) :=
  set_state_font _state_stack name.

(** The [font] actions of a run of font commands, in turn. *)
Fixpoint fonts (names : list string) (_state_stack : list State.t)
    : result (list State.t) :=
  match names with
  | [] => ret _state_stack
  | name :: rest =>
      _state_stack <- font name _state_stack ;;
      fonts rest _state_stack
  end.

End Parser.

(** ** The backend that measures the bounding box *)

(** The builtin [min] of two arguments keeps the first one unless the second
    compares less. *)
Definition py_min (a b : float) : float := if b <? a then b else a.

(** [MathtextBackendBbox.bbox], a list of four numbers. *)
Module Bbox.
Record t : Type := {
  x1 : float;
  y1 : float;
  x2 : float;
  y2 : float
}.
End Bbox.

(** The [bbox] that [MathtextBackendBbox.__init__] sets. *)
Definition Bbox_init : Bbox.t :=
  {| Bbox.x1 := 0; Bbox.y1 := 0; Bbox.x2 := 0; Bbox.y2 := 0 |}.

(** [MathtextBackendBbox._update_bbox] *)
Definition _update_bbox (self : Bbox.t) (x1 y1 x2 y2 : float) : Bbox.t :=
  {| Bbox.x1 := py_min (Bbox.x1 self) x1;
     Bbox.y1 := py_min (Bbox.y1 self) y1;
     Bbox.x2 := py_max (Bbox.x2 self) x2;
     Bbox.y2 := py_max (Bbox.y2 self) y2 |}.

(** [MathtextBackendBbox.render_glyph] and [render_rect_filled]; [metrics] is
    [info.metrics]. *)
Definition Bbox_render_glyph (self : Bbox.t) (ox oy : float)
    (metrics : Metrics.t) : Bbox.t :=
  _update_bbox self (ox + Metrics.xmin metrics) (oy - Metrics.ymax metrics)
    (ox + Metrics.xmax metrics) (oy - Metrics.ymin metrics).

Definition Bbox_render_rect_filled (self : Bbox.t) (x1 y1 x2 y2 : float)
    : Bbox.t :=
  _update_bbox self x1 y1 x2 y2.

(** What [MathtextBackendBbox.get_results] hands to the real backend: its
    origin and the size of the canvas. *)
Module Canvas.
Record t : Type := {
  ox : float;
  oy : float;
  width : float;
  height : float;
  depth : float
}.
End Canvas.

Section BackendBbox.

(** The metrics that [_get_info] answers when [Fonts.render_glyph] looks the
    glyph up again to hand it to the backend. *)
Variable metrics_of : font_name -> string -> float -> float -> Metrics.t.

(** The backend's answer to one drawing call of the font object, and to the
    calls of a whole log in their order. *)
Definition Bbox_draw (self : Bbox.t) (call : event) : Bbox.t :=
  match call with
  | render_glyph ox oy font sym fontsize dpi =>
      Bbox_render_glyph self ox oy (metrics_of font sym fontsize dpi)
  | render_rect_filled x1 y1 x2 y2 => Bbox_render_rect_filled self x1 y1 x2 y2
  | _ => self
  end.

Definition Bbox_draw_all (log : list event) (self : Bbox.t) : Bbox.t :=
  fold_left Bbox_draw log self.

(** [MathtextBackendBbox.get_results(box)], up to the call of the real
    backend's [get_results]: the box is shipped once into the measuring
    backend, the canvas is sized from the padded bounding box (the font
    object rounds the sizes up), and the box is shipped again, into the real
    backend, from the corner of the padded box.  The value is the canvas and
    the log holds the drawing calls that reach the real backend. *)
Definition MathtextBackendBbox_get_results (box : node) : result Canvas.t :=
  match node_height box, node_depth box with
  | Ok orig_height _, Ok orig_depth _ =>
      match ship 0 0 box with
      | Ok _ measured =>
          let self := Bbox_draw_all measured Bbox_init in
          let bbox :=
            {| Bbox.x1 := Bbox.x1 self - 1; Bbox.y1 := Bbox.y1 self - 1;
               Bbox.x2 := Bbox.x2 self + 1; Bbox.y2 := Bbox.y2 self + 1 |} in
          let canvas :=
            {| Canvas.ox := Bbox.x1 self;
               Canvas.oy := Bbox.y1 self;
               Canvas.width := ceil (Bbox.x2 bbox - Bbox.x1 bbox);
               Canvas.height :=
                 ceil ((Bbox.y2 bbox - Bbox.y1 bbox) - orig_depth);
               Canvas.depth :=
                 ceil ((Bbox.y2 bbox - Bbox.y1 bbox) - orig_height) |} in
          ship (- Bbox.x1 bbox) (- Bbox.y1 bbox) box ;;;
          ret canvas
      | Raise e => Raise e
      end
  | Raise e, _ => Raise e
  | _, Raise e => Raise e
  end.

End BackendBbox.

(** ** Notions used to state the properties *)

(** The data model keeps glue orders within 0..3, the indices of the four
    totals of the packing routines. *)
Definition order_ok (o : Z) : bool := (0 <=? o)%Z && (o <? 4)%Z.

Definition glue_orders_ok (children : list node) : bool :=
  forallb
    (fun p =>
       match p with
       | Glue g =>
           order_ok (GlueSpec.stretch_order (Glue.glue_spec g))
           && order_ok (GlueSpec.shrink_order (Glue.glue_spec g))
       | _ => true
       end) children.




(** Some child is a [Char] (or an [Accent], which is one). *)
Definition is_Char (p : node) : bool :=
  match p with
  | Char _ | Accent _ => true
  | _ => false
  end.

(** Children that [vlist_out] handles without recursion: boxes, rules, glue
    and kerns; the rules that its Box branch draws; and the drawing calls for
    rectangles. *)
Definition is_flat (p : node) : bool :=
  match p with
  | Box _ | Rule _ | Glue _ | Kern _ => true
  | _ => false
  end.

Definition renders_in_vlist (p : node) : bool :=
  match p with
  | Rule b => py_gt (Box.height b + Box.depth b) 0 && py_gt (Box.depth b) 0
  | _ => false
  end.

Definition is_rect (e : event) : bool :=
  match e with
  | render_rect_filled _ _ _ _ => true
  | _ => false
  end.

(** Children of an Hlist that are no lists and whose boxes have height 0, as
    [Hbox(width)] and [Box(0., 0., 0.)] have. *)
Definition zero_height (p : node) : Prop :=
  match p with
  | Box b | Rule b => Box.height b = 0
  | Hlist _ _ | Vlist _ _ => False
  | _ => True
  end.

(** ** Sample objects

    A small font object and a few nodes, on which the definitions above are
    evaluated. *)

(** Metrics proportional to the font size; the glyph of ["x"] reaches 0.5 em
    above the baseline and is 0.75 em high, the comma is a small glyph that
    descends a little below the baseline. *)
Definition sample_metrics (sym : string) (fontsize : float) : Metrics.t :=
  if String.eqb sym "," then
    {| Metrics.advance := 0.25 * fontsize;
       Metrics.height := 0.028125 * fontsize;
       Metrics.width := 0.125 * fontsize;
       Metrics.xmin := 0;
       Metrics.xmax := 0.125 * fontsize;
       Metrics.ymin := -0.0125 * fontsize;
       Metrics.ymax := 0.015625 * fontsize;
       Metrics.iceberg := 0.015625 * fontsize;
       Metrics.slanted := false |}
  else if String.eqb sym "\__sqrt__" then
    {| Metrics.advance := 1.0 * fontsize;
       Metrics.height := 1.25 * fontsize;
       Metrics.width := 0.875 * fontsize;
       Metrics.xmin := 0;
       Metrics.xmax := 0.875 * fontsize;
       Metrics.ymin := -0.25 * fontsize;
       Metrics.ymax := 1.0 * fontsize;
       Metrics.iceberg := 1.0 * fontsize;
       Metrics.slanted := false |}
  else
    {| Metrics.advance := 0.625 * fontsize;
       Metrics.height := 0.75 * fontsize;
       Metrics.width := 0.5 * fontsize;
       Metrics.xmin := 0;
       Metrics.xmax := 0.5 * fontsize;
       Metrics.ymin := -0.25 * fontsize;
       Metrics.ymax := 0.5 * fontsize;
       Metrics.iceberg := 0.5 * fontsize;
       Metrics.slanted := true |}.

Definition sample_fonts : Fonts :=
  {| get_metrics := fun font sym fontsize dpi => ret (sample_metrics sym fontsize);
     get_kern := Fonts_get_kern;
     get_xheight := fun font fontsize dpi => ret (0.5 * fontsize);
     get_underline_thickness := fun font fontsize dpi => ret 1.0;
     get_sized_alternatives_for_symbol :=
       fun fontname sym => ret [(fontname, sym)] |}.

Definition sample_state : State.t :=
  {| State.font := FontStr "it"; State.fontsize := 8.0; State.dpi := 72.0 |}.

(** [Char('x', state)] *)
Definition sample_char : Char.t :=
  Char_assign_metrics 0 "x" (FontStr "it") 8.0 72.0 (sample_metrics "x" 8.0).

(** [_get_info] of a font object with a single loaded font. *)
Definition sample_get_info (font : font_name) (sym : string)
    (fontsize dpi : float) : result Info.t :=
  ret {| Info.font := 0%nat; Info.metrics := sample_metrics sym fontsize;
         Info.num := 120; Info.glyph := sym |}.

(** [Glue('fil')], and a list of children with one stretchable glue. *)
Definition sample_fil : node :=
  Glue {| Glue.size := 0; Glue.glue_subtype := "normal";
          Glue.glue_spec := GlueSpec.Build_t 0 1 1 0 0 |}.

Definition sample_children : list node := [sample_fil; Char sample_char].

(** The group [{,}] as the parser builds it: [Hlist([Char(',', state)])]. *)
Definition sample_comma : Char.t :=
  Char_assign_metrics 0 "," (FontStr "it") 8.0 72.0 (sample_metrics "," 8.0).

Definition sample_body : node :=
  Hlist
    {| BoxList.box :=
         {| Box.size := 0; Box.width := 2; Box.height := 0.125;
            Box.depth := 0.1 |};
       BoxList.shift_amount := 0;
       BoxList.glue_set := 0;
       BoxList.glue_sign := 0;
       BoxList.glue_order := 0;
       BoxList.glue_ratio := Some 0 |}
    [Char sample_comma; Kern_init 1].

(** ** Notions used to state the further properties *)

(** The height that a child claims above the baseline of an Hlist and its
    depth below it, as the loop of [hpack] reads them: a [Char] with its own
    dimensions, a box or list raised by its [shift_amount], unless one of its
    dimensions is running (infinite); glue and kerns claim none. *)
Definition height_in_hlist (p : node) : option float :=
  match p with
  | Char ch | Accent ch => Some (Char.height ch)
  | Glue _ | Kern _ => None
  | _ =>
      match as_Box p with
      | Some b =>
          if negb (isinf (Box.height b)) && negb (isinf (Box.depth b))
          then Some (Box.height b - getattr_shift_amount p 0)
          else None
      | None => None
      end
  end.

Definition depth_in_hlist (p : node) : option float :=
  match p with
  | Char ch | Accent ch => Some (Char.depth ch)
  | Glue _ | Kern _ => None
  | _ =>
      match as_Box p with
      | Some b =>
          if negb (isinf (Box.height b)) && negb (isinf (Box.depth b))
          then Some (Box.depth b + getattr_shift_amount p 0)
          else None
      | None => None
      end
  end.

(** The depth that the loop of [vpack] holds after the children: that of the
    last child when it is a box, a rule or a list, and zero after glue, after
    a kern and in an empty list. *)
Definition depth_of_last (children : list node) : float :=
  match rev children with
  | [] => 0
  | p :: _ =>
      match as_Box p with
      | Some b => Box.depth b
      | None => 0
      end
  end.

(** The width that a child claims in a Vlist: its own width moved by its
    shift, unless the width is running. *)
Definition width_in_vlist (p : node) : option float :=
  match as_Box p with
  | Some b =>
      if negb (isinf (Box.width b))
      then Some (Box.width b + getattr_shift_amount p 0)
      else None
  | None => None
  end.

(** The depth to which [hlist_out] and [vlist_out] descend into a list: one
    for the list itself, and under it the deepest child list that is shipped
    (a list without children is stepped over). *)
Definition deepest_of (nesting : node -> Z) : list node -> Z :=
  fix deepest (ps : list node) : Z :=
    match ps with
    | [] => 0%Z
    | p :: rest =>
        Z.max
          (match p with
           | Hlist _ (_ :: _) | Vlist _ (_ :: _) => nesting p
           | _ => 0%Z
           end)
          (deepest rest)
    end.

Fixpoint nesting (box : node) : Z :=
  match box with
  | Hlist _ children | Vlist _ children => (1 + deepest_of nesting children)%Z
  | _ => 0%Z
  end.

(** The glyphs of a tree in the order of the text: font, symbol, font size and
    dpi of every [Char] under the lists of the tree. *)
Definition glyph : Type := font_name * string * float * float.

Definition glyph_of (ch : Char.t) : glyph :=
  (Char.font ch, Char.c ch, Char.fontsize ch, Char.dpi ch).

Definition glyphs_of (glyphs : node -> list glyph) : list node -> list glyph :=
  fix each (ps : list node) : list glyph :=
    match ps with
    | [] => []
    | p :: rest =>
        match p with
        | Char ch | Accent ch => [glyph_of ch]
        | Hlist _ _ | Vlist _ _ => glyphs p
        | _ => []
        end ++ each rest
    end.

Fixpoint glyphs (box : node) : list glyph :=
  match box with
  | Hlist _ children | Vlist _ children => glyphs_of glyphs children
  | _ => []
  end.

(** The glyphs that a log of drawing calls draws, in order, and its filled
    rectangles. *)
Definition drawn_glyphs (log : list event) : list glyph :=
  flat_map
    (fun e =>
       match e with
       | render_glyph _ _ font sym fontsize dpi => [(font, sym, fontsize, dpi)]
       | _ => []
       end) log.

(** Whether a tree can be shipped.  A child of a list shipped by [hlist_out]
    is in the way when it is a box or rule whose height, the height of the
    list for a running one, and width are positive; a child of a list shipped
    by [vlist_out] when it is a [Char].  Child lists with children are shipped
    in turn, an [Hlist] by [hlist_out] and a [Vlist] by [vlist_out]. *)
Definition hlist_child_ships (ships_h ships_v : node -> bool) (l : BoxList.t)
    (p : node) : bool :=
  match p with
  | Char _ | Accent _ | Glue _ | Kern _ => true
  | Hlist _ [] | Vlist _ [] => true
  | Hlist _ (_ :: _) => ships_h p
  | Vlist _ (_ :: _) => ships_v p
  | Box b | Rule b =>
      negb (py_gt (if isinf (Box.height b) then BoxList.height l
                   else Box.height b) 0
            && py_gt (Box.width b) 0)
  end.

Definition vlist_child_ships (ships_h ships_v : node -> bool) (p : node)
    : bool :=
  match p with
  | Char _ | Accent _ => false
  | Box _ | Rule _ | Glue _ | Kern _ => true
  | Hlist _ [] | Vlist _ [] => true
  | Hlist _ (_ :: _) => ships_h p
  | Vlist _ (_ :: _) => ships_v p
  end.

Fixpoint ships_h (box : node) : bool :=
  match box with
  | Hlist l children | Vlist l children =>
      forallb (hlist_child_ships ships_h ships_v l) children
  | _ => false
  end

with ships_v (box : node) : bool :=
  match box with
  | Hlist l children | Vlist l children =>
      forallb (vlist_child_ships ships_h ships_v) children
  | _ => false
  end.

(** What the cursor looks like after a routine of [Ship] has returned from a
    list that is [n] levels deep: the level, the offsets and the coordinate
    across the direction of the list are as before, and [max_push] has
    recorded the level reached. *)
Definition ship_returns (across : Ship.t -> float) (n : Z)
    (self self' : Ship.t) : Prop :=
  across self' = across self /\
  Ship.cur_s self' = Ship.cur_s self /\
  Ship.off_h self' = Ship.off_h self /\
  Ship.off_v self' = Ship.off_v self /\
  Ship.max_push self' = Z.max (Ship.max_push self) (Ship.cur_s self + n).

(** Both routines return in that way from the tree [p]: [hlist_out] with
    [cur_v] as before and [vlist_out] with [cur_h] as before. *)
Definition cursor_restored (p : node) : Prop :=
  (forall self self' log,
     hlist_out p self = Ok self' log ->
     ship_returns Ship.cur_v (nesting p) self self') /\
  (forall box_width self self' log,
     vlist_out p box_width self = Ok self' log ->
     ship_returns Ship.cur_h (nesting p) self self').

(** [hlist_out] and [vlist_out] draw the glyphs of the tree [p] in order;
    and whether they return from [p] is what [ships_h] and [ships_v] say,
    wherever the cursor stands. *)
Definition draws_glyphs (p : node) : Prop :=
  (forall self self' log,
     hlist_out p self = Ok self' log -> drawn_glyphs log = glyphs p) /\
  (forall box_width self self' log,
     vlist_out p box_width self = Ok self' log -> drawn_glyphs log = glyphs p).

Definition ships_decided (p : node) : Prop :=
  (forall self,
     (exists self' log, hlist_out p self = Ok self' log) <-> ships_h p = true) /\
  (forall box_width self,
     (exists self' log, vlist_out p box_width self = Ok self' log)
     <-> ships_v p = true).

(** A tree with a [Char], a Vlist of a group and a rule, and an empty list. *)
Definition sample_tree : node :=
  Hlist List_init
    [Char sample_char;
     Vlist List_init [sample_body; Rule (Box_init inf 1 1)];
     Hlist List_init []].

(** The children that [Hlist.kern] builds from the elements and the kerning
    distance found for each: every element in place, followed by a [Kern] of
    its distance when that is not zero. *)
Fixpoint with_kerns (elements : list node) (distances : list float)
    : list node :=
  match elements, distances with
  | p :: rest, k :: ks =>
      (if py_ne k 0 then [p; Kern_init k] else [p]) ++ with_kerns rest ks
  | _, _ => []
  end.

(** What [shrink] leaves alone in a tree: the classes and the order of the
    nodes, the symbol, font, dpi and metrics of a [Char] (an [Accent] derives
    its metrics anew), and the subtype, stretch and shrink of glue. *)
Inductive shape : Type :=
| Char_shape (c : string) (font : font_name) (dpi : float) (metrics : Metrics.t)
| Accent_shape (c : string) (font : font_name) (dpi : float)
| Box_shape
| Rule_shape
| Hlist_shape (glue_sign glue_order : Z) (children : list shape)
| Vlist_shape (glue_sign glue_order : Z) (children : list shape)
| Glue_shape (glue_subtype : string) (stretch : float) (stretch_order : Z)
    (shrink : float) (shrink_order : Z)
| Kern_shape.

Fixpoint shape_of (p : node) : shape :=
  match p with
  | Char ch =>
      Char_shape (Char.c ch) (Char.font ch) (Char.dpi ch) (Char._metrics ch)
  | Accent ch => Accent_shape (Char.c ch) (Char.font ch) (Char.dpi ch)
  | Box _ => Box_shape
  | Rule _ => Rule_shape
  | Hlist l children =>
      Hlist_shape (BoxList.glue_sign l) (BoxList.glue_order l)
        (map shape_of children)
  | Vlist l children =>
      Vlist_shape (BoxList.glue_sign l) (BoxList.glue_order l)
        (map shape_of children)
  | Glue g =>
      let spec := Glue.glue_spec g in
      Glue_shape (Glue.glue_subtype g) (GlueSpec.stretch spec)
        (GlueSpec.stretch_order spec) (GlueSpec.shrink spec)
        (GlueSpec.shrink_order spec)
  | Kern _ => Kern_shape
  end.

(** The size levels of the nodes of a tree, a list before its children. *)
Fixpoint sizes (p : node) : list Z :=
  match p with
  | Char ch | Accent ch => [Char.size ch]
  | Box b | Rule b => [Box.size b]
  | Hlist l children | Vlist l children =>
      BoxList.size l :: flat_map sizes children
  | Glue g => [Glue.size g]
  | Kern k => [Kern.size k]
  end.

(** No [Accent] in the tree. *)
Fixpoint accent_free (p : node) : bool :=
  match p with
  | Accent _ => false
  | Hlist _ children | Vlist _ children => forallb accent_free children
  | _ => true
  end.

(** The loop of [List.shrink] over the children, as [shrink] runs it. *)
Definition shrink_each (font_output : Fonts) : list node -> result (list node) :=
  fix each (ps : list node) : result (list node) :=
    match ps with
    | [] => ret []
    | child :: rest =>
        child' <- shrink font_output child ;;
        rest' <- each rest ;;
        ret (child' :: rest')
    end.

Definition shrink_keeps (font_output : Fonts) (p : node) : Prop :=
  (forall p' log,
     shrink font_output p = Ok p' log ->
     shape_of p' = shape_of p /\ sizes p' = map Z.succ (sizes p)) /\
  (accent_free p = true -> exists p', shrink font_output p = Ok p' []).

(** The alternative that [AutoHeightChar] settles on, for a font whose
    metrics are [metrics_of]: the first one whose glyph, at the font size of
    the state, has a height and depth that add up to the target or more, and
    the last one when there is none. *)
Definition glyph_total (metrics_of : font_name -> string -> float -> float -> Metrics.t)
    (state : State.t) (alternative : font_name * string) : float :=
  let '(fontname, sym) := alternative in
  let char :=
    Char_assign_metrics 0 sym fontname (State.fontsize state) (State.dpi state)
      (metrics_of fontname sym (State.fontsize state) (State.dpi state)) in
  Char.height char + Char.depth char.

Definition chosen_alternative
    (metrics_of : font_name -> string -> float -> float -> Metrics.t)
    (state : State.t) (target_total : float)
    (alternatives : list (font_name * string)) : option (font_name * string) :=
  match find (fun a => py_ge (glyph_total metrics_of state a) target_total)
          alternatives with
  | Some a => Some a
  | None => List.last (map Some alternatives) None
  end.

(** [SsGlue()] *)
Definition ss_glue : node :=
  Glue {| Glue.size := 0; Glue.glue_subtype := "normal";
          Glue.glue_spec := GlueSpec.Build_t 0 1 1 (-1) 1 |}.


(** The bounding box [self] reaches the rectangle from [(x1, y1)] to
    [(x2, y2)]: on each side, as far as the coordinate there is a number. *)
Definition reaches (self : Bbox.t) (x1 y1 x2 y2 : float) : Prop :=
  ((x1 =? x1) = true -> (Bbox.x1 self <=? x1) = true) /\
  ((y1 =? y1) = true -> (Bbox.y1 self <=? y1) = true) /\
  ((x2 =? x2) = true -> (x2 <=? Bbox.x2 self) = true) /\
  ((y2 =? y2) = true -> (y2 <=? Bbox.y2 self) = true).

(** The rectangle that a drawing call covers for the measuring backend: the
    ink of a glyph, placed at the origin of the call, or the filled
    rectangle. *)
Definition covered
    (metrics_of : font_name -> string -> float -> float -> Metrics.t)
    (call : event) : option (float * float * float * float) :=
  match call with
  | render_glyph ox oy font sym fontsize dpi =>
      let metrics := metrics_of font sym fontsize dpi in
      Some (ox + Metrics.xmin metrics, oy - Metrics.ymax metrics,
            ox + Metrics.xmax metrics, oy - Metrics.ymin metrics)
  | render_rect_filled x1 y1 x2 y2 => Some (x1, y1, x2, y2)
  | _ => None
  end.

(** A bounding box whose four sides are numbers around the origin. *)
Definition around_origin (self : Bbox.t) : Prop :=
  (Bbox.x1 self <=? 0) = true /\ (Bbox.y1 self <=? 0) = true /\
  (0 <=? Bbox.x2 self) = true /\ (0 <=? Bbox.y2 self) = true.

(** A drawing call without its coordinates: the glyph drawn, or that a
    rectangle was filled. *)
Definition call_shape (call : event) : option (option glyph) :=
  match call with
  | render_glyph _ _ font sym fontsize dpi => Some (Some (font, sym, fontsize, dpi))
  | render_rect_filled _ _ _ _ => Some None
  | _ => None
  end.

(** The [Ship] object with other offsets. *)
Definition reoffset (self : Ship.t) (ox oy : float) : Ship.t :=
  {| Ship.max_push := Ship.max_push self; Ship.cur_s := Ship.cur_s self;
     Ship.cur_v := Ship.cur_v self; Ship.cur_h := Ship.cur_h self;
     Ship.off_h := ox; Ship.off_v := oy |}.

(** Shipping [p] with other offsets runs the same way: the same cursor at the
    end and the same drawing calls but for their coordinates. *)
Definition offsets_free (p : node) : Prop :=
  (forall self self' log ox oy,
     hlist_out p self = Ok self' log ->
     exists log2,
       hlist_out p (reoffset self ox oy) = Ok (reoffset self' ox oy) log2 /\
       map call_shape log2 = map call_shape log) /\
  (forall box_width self self' log ox oy,
     vlist_out p box_width self = Ok self' log ->
     exists log2,
       vlist_out p box_width (reoffset self ox oy)
       = Ok (reoffset self' ox oy) log2 /\
       map call_shape log2 = map call_shape log).

(** Nodes without a [height]: glue and kerns. *)
Definition no_height (p : node) : bool :=
  match p with
  | Glue _ | Kern _ => true
  | _ => false
  end.

(** The glyphs of the characters of a string, set in the font of a state. *)
Definition text_glyphs (font : font_name) (state : State.t) (s : string)
    : list glyph :=
  map (fun c => (font, c, State.fontsize state, State.dpi state)) (chars s).

(** The font in force inside a group that was opened with an optional LaTeX
    font command and in which the font commands [names] have been read. *)
Definition font_in_force (latexfont : option string) (names : list string)
    (top : State.t) : font_name :=
  match rev names with
  | name :: _ => FontStr name
  | [] =>
      match latexfont with
      | Some name => FontStr (from_fifth name)
      | None => State.font top
      end
  end.

(** The state [top] with another font. *)
Definition with_font (top : State.t) (font : font_name) : State.t :=
  {| State.font := font; State.fontsize := State.fontsize top;
     State.dpi := State.dpi top |}.

(** The node is glue. *)
Definition is_Glue (p : node) : bool :=
  match p with
  | Glue _ => true
  | _ => false
  end.

(** * Properties *)

(** ** The font layer *)

Lemma font_eqb_eq (f1 f2 : font_name) : font_eqb f1 f2 = true <-> f1 = f2.
Proof.
  destruct f1 as [a | a], f2 as [b | b]; simpl.
  - rewrite String.eqb_eq. split; [intros -> | intros [= ->]]; reflexivity.
  - split; discriminate.
  - split; discriminate.
  - rewrite Z.eqb_eq. split; [intros -> | intros [= ->]]; reflexivity.
Qed.

(** C9.  Whatever the font class, [get_kern] answers [0.0] (and neither loads
    a glyph nor warns) whenever the two font names differ or the two font
    sizes compare unequal: a kerning distance other than zero is only
    returned for equal font names and equal sizes. *)
Theorem get_kern_zero_unless_same_font_and_size
    (cls : font_class)
    (_get_info : font_name -> string -> float -> float -> result Info.t)
    (get_kerning : nat -> Z -> Z -> Z)
    (get_kern_dist : nat -> string -> string -> float)
    (font1 : font_name) (sym1 : string) (fontsize1 : float)
    (font2 : font_name) (sym2 : string) (fontsize2 : float) (dpi : float) :
  font1 <> font2 \/ (fontsize1 =? fontsize2) = false ->
  class_get_kern cls _get_info get_kerning get_kern_dist
    font1 sym1 fontsize1 font2 sym2 fontsize2 dpi = Ok 0 [].
Proof.
  intros H.
  assert (Hcond : font_eqb font1 font2 && (fontsize1 =? fontsize2) = false).
  { destruct H as [Hf | Hs].
    - destruct (font_eqb font1 font2) eqn:E; [|reflexivity].
      apply font_eqb_eq in E. contradiction.
    - rewrite Hs. apply andb_false_r. }
  destruct cls; simpl.
  - reflexivity.
  - unfold TruetypeFonts_get_kern. rewrite Hcond. reflexivity.
  - unfold StandardPsFonts_get_kern. rewrite Hcond. reflexivity.
Qed.

Lemma get_kern_zero_unless_same_font_and_size_witness :
  class_get_kern TruetypeFonts sample_get_info (fun _ _ _ => 64%Z)
    (fun _ _ _ => 0) (FontStr "rm") "A" 12.0 (FontStr "it") "V" 12.0 72.0
  = Ok 0 [].
Proof.
  apply (get_kern_zero_unless_same_font_and_size TruetypeFonts sample_get_info
           (fun _ _ _ => 64%Z) (fun _ _ _ => 0)
           (FontStr "rm") "A" 12.0 (FontStr "it") "V" 12.0 72.0).
  left. discriminate.
Defined.

Example get_kern_same_font_and_size :
  class_get_kern TruetypeFonts sample_get_info (fun _ _ _ => 96%Z)
    (fun _ _ _ => 0) (FontStr "it") "A" 12.0 (FontStr "it") "V" 12.0 72.0
  = Ok 1.5 [].
Proof. reflexivity. Qed.

(** ** Char metrics *)

(** C2, as the code has it.  When the font object answers [metrics], both
    [Char(c, state)] and [_update_metrics] leave a node whose height is the
    iceberg and whose depth is the negation of iceberg minus the metric
    height, that is, what the glyph reaches below the baseline. *)
Theorem Char_metrics_height_and_depth (font_output : Fonts) (self : Char.t)
    (metrics : Metrics.t) (log : list event) :
  get_metrics font_output (Char.font self) (Char.c self) (Char.fontsize self)
    (Char.dpi self) = Ok metrics log ->
  exists ch,
    Char__update_metrics font_output self = Ok ch log /\
    Char_init font_output (Char.c self)
      {| State.font := Char.font self; State.fontsize := Char.fontsize self;
         State.dpi := Char.dpi self |}
    = Ok (Char_assign_metrics 0 (Char.c self) (Char.font self)
            (Char.fontsize self) (Char.dpi self) metrics) log /\
    ch = Char_assign_metrics (Char.size self) (Char.c self) (Char.font self)
           (Char.fontsize self) (Char.dpi self) metrics /\
    Char._metrics ch = metrics /\
    Char.height ch = Metrics.iceberg metrics /\
    Char.depth ch = - (Metrics.iceberg metrics - Metrics.height metrics) /\
    (Char.c self <> " "%string -> Char.width ch = Metrics.width metrics).
Proof.
  intros Hm.
  eexists. unfold Char__update_metrics, Char_init. simpl. rewrite Hm. simpl.
  rewrite app_nil_r.
  repeat split.
  intros Hc. simpl.
  destruct (String.eqb_spec (Char.c self) " "); [contradiction | reflexivity].
Qed.

Lemma Char_metrics_height_and_depth_witness :
  exists ch,
    Char__update_metrics sample_fonts sample_char = Ok ch [] /\
    Char.height ch = 4 /\ Char.depth ch = 2.
Proof.
  destruct (Char_metrics_height_and_depth sample_fonts sample_char
              (sample_metrics "x" 8.0) [] eq_refl)
    as (ch & Hupd & _ & Hch & _).
  exists ch. split; [exact Hupd|]. subst ch. split; reflexivity.
Defined.

(** C2 as stated fails: for the sample glyph (iceberg 4, metric height 6) the
    depth is 2, not iceberg minus metric height, which is -2. *)
Lemma Char_depth_is_not_iceberg_minus_height :
  exists ch,
    Char_init sample_fonts "x" sample_state = Ok ch [] /\
    Char.c ch <> " "%string /\
    Char.height ch = Metrics.iceberg (Char._metrics ch) /\
    Char.depth ch = 2 /\
    Metrics.iceberg (Char._metrics ch) - Metrics.height (Char._metrics ch) = -2 /\
    Char.depth ch
    <> Metrics.iceberg (Char._metrics ch) - Metrics.height (Char._metrics ch).
Proof.
  exists sample_char. repeat split; try reflexivity.
  - discriminate.
  - intros H. apply (f_equal (fun v => v =? 2)) in H. vm_compute in H.
    discriminate.
Qed.

(** ** Shrinking a Char *)

Lemma Char_shrink_size (self : Char.t) :
  Char.size (Char_shrink self) = (Char.size self + 1)%Z.
Proof.
  unfold Char_shrink.
  destruct (Char.size self + 1 <? NUM_SIZE_LEVELS)%Z; reflexivity.
Qed.

Lemma Char_shrink_times_size (k : nat) (self : Char.t) :
  Char.size (Char_shrink_times k self) = (Char.size self + Z.of_nat k)%Z.
Proof.
  induction k as [|k IH]; simpl.
  - lia.
  - rewrite Char_shrink_size, IH. lia.
Qed.

(** C3, as the code has it.  [shrink] increments the size level first and
    scales only while the new level is below [NUM_SIZE_LEVELS]: from level 0,
    [k] shrinks multiply width, height, depth and fontsize by 0.7 exactly
    [min k 3] times, and leave the Char at level [k]. *)
Theorem Char_shrink_times_scales (self : Char.t) (k : nat) :
  Char.size self = 0%Z ->
  let shrunk := Char_shrink_times k self in
  Char.size shrunk = Z.of_nat k /\
  Char.width shrunk = scaled (Nat.min k 3) (Char.width self) /\
  Char.height shrunk = scaled (Nat.min k 3) (Char.height self) /\
  Char.depth shrunk = scaled (Nat.min k 3) (Char.depth self) /\
  Char.fontsize shrunk = scaled (Nat.min k 3) (Char.fontsize self).
Proof.
  intros Hsize. simpl.
  induction k as [|k IH].
  - simpl. rewrite Hsize. repeat split.
  - destruct IH as (Hs & Hw & Hh & Hd & Hf).
    cbn [Char_shrink_times]. unfold Char_shrink. rewrite Hs.
    unfold NUM_SIZE_LEVELS.
    destruct (Z.ltb_spec (Z.of_nat k + 1) 4) as [Hlt | Hge]; cbn [Char.size
      Char.width Char.height Char.depth Char.fontsize].
    + assert (Hmin : Nat.min (S k) 3 = S (Nat.min k 3)) by lia.
      rewrite Hmin, Hw, Hh, Hd, Hf. cbn [scaled].
      repeat split. lia.
    + assert (Hmin : Nat.min (S k) 3 = Nat.min k 3) by lia.
      rewrite Hmin, Hw, Hh, Hd, Hf.
      repeat split. lia.
Qed.

Lemma Char_shrink_times_scales_witness :
  Char.size sample_char = 0%Z /\
  Char.size (Char_shrink_times 5 sample_char) = 5%Z /\
  Char.width (Char_shrink_times 5 sample_char)
  = scaled 3 (Char.width sample_char).
Proof.
  split; [reflexivity|].
  destruct (Char_shrink_times_scales sample_char 5 eq_refl) as (Hs & Hw & _).
  split; [exact Hs | exact Hw].
Defined.

(** C3 as stated fails at the fourth shrink: the width after four shrinks is
    the width after three (1.372 for the sample glyph of width 4), not the
    width scaled four times (0.9604). *)
Lemma Char_fourth_shrink_does_not_scale :
  Char.size sample_char = 0%Z /\
  Char.width (Char_shrink_times 4 sample_char)
  = Char.width (Char_shrink_times 3 sample_char) /\
  Char.width (Char_shrink_times 4 sample_char)
  <> scaled (Nat.min 4 4) (Char.width sample_char) /\
  (1.3 <? Char.width (Char_shrink_times 4 sample_char)) = true /\
  (scaled (Nat.min 4 4) (Char.width sample_char) <? 1.0) = true.
Proof.
  repeat split.
  intros H.
  apply (f_equal (fun v => 1.3 <? v)) in H. vm_compute in H. discriminate.
Qed.

(** ** The exception-and-log monad *)

Lemma bind_Ok_nil {A B : Type} (a : A) (f : A -> result B) :
  bind (Ok a []) f = f a.
Proof. unfold bind. destruct (f a); reflexivity. Qed.

Lemma bind_ret {A B : Type} (a : A) (f : A -> result B) :
  bind (ret a) f = f a.
Proof. apply bind_Ok_nil. Qed.

Lemma bind_Ok_inv {A B : Type} (m : result A) (f : A -> result B) (b : B)
    (log : list event) :
  bind m f = Ok b log ->
  exists a log1 log2, m = Ok a log1 /\ f a = Ok b log2 /\ log = log1 ++ log2.
Proof.
  unfold bind. destruct m as [a log1 | e]; [|discriminate].
  destruct (f a) as [b' log2 | e] eqn:E; [|discriminate].
  intros [= <- <-]. exists a, log1, log2. auto.
Qed.

(** ** Indexing the totals *)

Lemma list_set_length {A : Type} (l : list A) (n : nat) (v : A) :
  List.length (list_set l n v) = List.length l.
Proof.
  revert n. induction l as [|a l IH]; intros [|n]; simpl; auto.
Qed.

Lemma py_index_ok (len : nat) (o : Z) :
  (0 <= o < Z.of_nat len)%Z -> py_index len o = Some (Z.to_nat o).
Proof.
  intros H. unfold py_index.
  destruct (Z.ltb_spec o 0); [lia|].
  destruct (Z.ltb_spec o (Z.of_nat len)); [reflexivity | lia].
Qed.

Lemma nth_error_nth_default (l : list float) (n : nat) :
  (n < List.length l)%nat -> nth_error l n = Some (nth n l 0).
Proof.
  revert n. induction l as [|a l IH]; intros [|n] H; simpl in *; try lia.
  - reflexivity.
  - apply IH. lia.
Qed.

Lemma py_getitem_ok (l : list float) (o : Z) :
  (0 <= o < Z.of_nat (List.length l))%Z ->
  py_getitem l o = Ok (nth (Z.to_nat o) l 0) [].
Proof.
  intros H. unfold py_getitem. rewrite py_index_ok by exact H.
  rewrite nth_error_nth_default by lia. reflexivity.
Qed.

Lemma py_additem_ok (l : list float) (o : Z) (v : float) :
  (0 <= o < Z.of_nat (List.length l))%Z ->
  py_additem l o v
  = Ok (list_set l (Z.to_nat o) (nth (Z.to_nat o) l 0 + v)) [].
Proof.
  intros H. unfold py_additem. rewrite py_index_ok by exact H.
  rewrite nth_error_nth_default by lia. reflexivity.
Qed.

Lemma py_additem_inv (l l' : list float) (o : Z) (v : float) (log : list event) :
  py_additem l o v = Ok l' log ->
  log = [] /\ List.length l' = List.length l.
Proof.
  unfold py_additem.
  destruct (py_index (List.length l) o) as [n|]; [|discriminate].
  destruct (nth_error l n); [|discriminate].
  intros [= <- <-]. split; [reflexivity | apply list_set_length].
Qed.

Lemma order_ok_range (o : Z) : order_ok o = true -> (0 <= o < 4)%Z.
Proof. unfold order_ok. lia. Qed.

(** ** The order chosen by [_determine_order] *)

Lemma _determine_order_from_spec (totals : list float) (i : nat) :
  let o := _determine_order_from totals i in
  (o <= i)%nat /\
  (forall j : nat, (o < j)%nat -> (j <= i)%nat -> py_ne (nth j totals 0) 0 = false) /\
  (o <> O -> py_ne (nth o totals 0) 0 = true).
Proof.
  induction i as [|i IH]; simpl.
  - repeat split; intros; lia.
  - destruct (py_ne (nth (S i) totals 0) 0.0) eqn:E.
    + repeat split; try lia. intros _. exact E.
    + destruct IH as (H1 & H2 & H3). repeat split.
      * lia.
      * intros j Hj1 Hj2. destruct (Nat.eq_dec j (S i)) as [-> | Hne].
        -- exact E.
        -- apply H2; lia.
      * exact H3.
Qed.


Lemma _determine_order_range (totals : list float) :
  List.length totals = 4%nat ->
  (0 <= _determine_order totals < 4)%Z.
Proof.
  intros Hlen. unfold _determine_order.
  pose proof (_determine_order_from_spec totals (List.length totals - 1))
    as (H1 & _).
  rewrite Hlen in *. simpl in *. lia.
Qed.

(** ** The loop of [hpack] *)

Lemma hpack_step_inv (p : node) (s s' : HPack.t) (log : list event) :
  hpack_step p s = Ok s' log ->
  log = [] /\
  List.length (HPack.total_stretch s') = List.length (HPack.total_stretch s) /\
  List.length (HPack.total_shrink s') = List.length (HPack.total_shrink s).
Proof.
  destruct p as [ch | ch | b | b | l c | l c | g | k]; simpl;
    try (destruct (_ && _));
    try (intros [= <- <-]; repeat split; reflexivity).
  intros H.
  apply bind_Ok_inv in H as (ts & log1 & log2 & H1 & H & ->).
  apply bind_Ok_inv in H as (tk & log3 & log4 & H2 & H & ->).
  injection H as <- <-.
  apply py_additem_inv in H1 as (-> & H1).
  apply py_additem_inv in H2 as (-> & H2).
  simpl. auto.
Qed.

Lemma hpack_loop_inv (children : list node) (s s' : HPack.t) (log : list event) :
  hpack_loop children s = Ok s' log ->
  log = [] /\
  List.length (HPack.total_stretch s') = List.length (HPack.total_stretch s) /\
  List.length (HPack.total_shrink s') = List.length (HPack.total_shrink s).
Proof.
  revert s. induction children as [|p rest IH]; intros s; simpl.
  - intros [= <- <-]. auto.
  - intros H. apply bind_Ok_inv in H as (s1 & log1 & log2 & H1 & H2 & ->).
    apply hpack_step_inv in H1 as (-> & Ha & Hb).
    apply IH in H2 as (-> & Hc & Hd).
    repeat split; congruence.
Qed.

Lemma hpack_step_ok (p : node) (s : HPack.t) :
  glue_orders_ok [p] = true ->
  List.length (HPack.total_stretch s) = 4%nat ->
  List.length (HPack.total_shrink s) = 4%nat ->
  exists s', hpack_step p s = Ok s' [].
Proof.
  intros Hok Hs Hk.
  destruct p as [ch | ch | b | b | l c | l c | g | k]; simpl;
    try (destruct (_ && _)); try (eexists; reflexivity).
  simpl in Hok. rewrite andb_true_r in Hok.
  apply andb_true_iff in Hok as [H1 H2].
  apply order_ok_range in H1, H2.
  rewrite py_additem_ok by (rewrite Hs; exact H1).
  rewrite py_additem_ok by (rewrite Hk; exact H2).
  eexists. reflexivity.
Qed.

Lemma hpack_loop_ok (children : list node) (s : HPack.t) :
  glue_orders_ok children = true ->
  List.length (HPack.total_stretch s) = 4%nat ->
  List.length (HPack.total_shrink s) = 4%nat ->
  exists s', hpack_loop children s = Ok s' [].
Proof.
  revert s. induction children as [|p rest IH]; intros s Hok Hs Hk; simpl.
  - eexists. reflexivity.
  - simpl in Hok. apply andb_true_iff in Hok as [Hp Hrest].
    destruct (hpack_step_ok p s) as [s1 H1]; auto.
    { simpl. rewrite Hp. reflexivity. }
    rewrite H1, bind_Ok_nil.
    apply hpack_step_inv in H1 as (_ & Ha & Hb).
    apply IH; congruence.
Qed.

Lemma hpack_after_loop (class_name : string) (children : list node)
    (self : BoxList.t) (w : float) (m : pyval) (s : HPack.t) :
  hpack_loop children hpack_start = Ok s [] ->
  hpack class_name children self w m
  = hpack_finish class_name children self w m s.
Proof.
  intros H. unfold hpack. rewrite H, bind_Ok_nil. reflexivity.
Qed.

Lemma hpack_Ok_loop (class_name : string) (children : list node)
    (self self' : BoxList.t) (w : float) (m : pyval) (log : list event) :
  hpack class_name children self w m = Ok self' log ->
  exists s,
    hpack_loop children hpack_start = Ok s [] /\
    List.length (HPack.total_stretch s) = 4%nat /\
    List.length (HPack.total_shrink s) = 4%nat /\
    hpack_finish class_name children self w m s = Ok self' log.
Proof.
  intros H. unfold hpack in H.
  destruct (hpack_loop children hpack_start) as [s log0 | e] eqn:E;
    [|discriminate].
  apply hpack_loop_inv in E as E'. destruct E' as (-> & Ha & Hb).
  rewrite bind_Ok_nil in H. exists s. auto.
Qed.

(** [_set_glue] on four totals: the order, the sign, the glue setting and
    the warning. *)
Lemma _set_glue_spec (class_name : string) (children : list node)
    (self : BoxList.t) (x : float) (sign : Z) (totals : list float)
    (error_type : string) :
  List.length totals = 4%nat ->
  let o := _determine_order totals in
  let total := nth (Z.to_nat o) totals 0 in
  _set_glue class_name children self x sign totals error_type
  = Ok (if py_ne total 0
        then set_glue_set (set_glue_sign (set_glue_order self o) sign)
               (x / total)
        else set_glue_ratio
               (set_glue_sign (set_glue_sign (set_glue_order self o) sign) 0) 0)
       (if (o =? 0)%Z
        then match children with
             | [] => []
             | _ :: _ => [MathTextWarning error_type class_name]
             end
        else []).
Proof.
  intros Hlen o total. unfold _set_glue. fold o.
  rewrite py_getitem_ok by (rewrite Hlen; apply _determine_order_range, Hlen).
  rewrite bind_Ok_nil. fold total.
  destruct (o =? 0)%Z; [destruct children|]; reflexivity.
Qed.

(** ** hpack *)




(** The state in which [hpack] leaves the list, by the three ways it ends. *)
Lemma hpack_finish_cases (class_name : string) (children : list node)
    (self self' : BoxList.t) (w : float) (m : pyval) (s : HPack.t)
    (log : list event) :
  List.length (HPack.total_stretch s) = 4%nat ->
  List.length (HPack.total_shrink s) = 4%nat ->
  hpack_finish class_name children self w m s = Ok self' log ->
  let x := HPack.x s in
  let width := if py_eq_str m "additional" then w + x else w in
  let surplus := width - x in
  let self0 :=
    set_width (set_depth (set_height self (HPack.h s)) (HPack.d s)) width in
  let totals :=
    if py_gt surplus 0 then HPack.total_stretch s else HPack.total_shrink s in
  let sign := (if py_gt surplus 0 then 1 else -1)%Z in
  let o := _determine_order totals in
  let total := nth (Z.to_nat o) totals 0 in
  self' =
    (if surplus =? 0
     then set_glue_ratio (set_glue_order (set_glue_sign self0 0) 0) 0
     else if py_ne total 0
          then set_glue_set (set_glue_sign (set_glue_order self0 o) sign)
                 (surplus / total)
          else set_glue_ratio
                 (set_glue_sign (set_glue_sign (set_glue_order self0 o) sign) 0)
                 0).
Proof.
  intros Hls Hlk H. cbv zeta. unfold hpack_finish in H.
  destruct (_ =? 0) eqn:Ez.
  - injection H as <- <-. reflexivity.
  - destruct (py_gt _ 0) eqn:Eg.
    + rewrite _set_glue_spec in H by exact Hls. injection H as <- _.
      reflexivity.
    + rewrite _set_glue_spec in H by exact Hlk. injection H as <- _.
      reflexivity.
Qed.

Lemma hpack_finish_width (class_name : string) (children : list node)
    (self self' : BoxList.t) (w : float) (m : pyval) (s : HPack.t)
    (log : list event) :
  List.length (HPack.total_stretch s) = 4%nat ->
  List.length (HPack.total_shrink s) = 4%nat ->
  hpack_finish class_name children self w m s = Ok self' log ->
  BoxList.width self'
  = (if py_eq_str m "additional" then w + HPack.x s else w).
Proof.
  intros Hls Hlk H.
  rewrite (hpack_finish_cases _ _ _ _ _ _ _ _ Hls Hlk H).
  destruct (_ =? 0); [reflexivity|]. destruct (py_ne _ 0); reflexivity.
Qed.



(** C8.  Packing again to the packed width changes nothing: when [hpack(w, m)]
    has returned, [hpack(self.width, 'exactly')] on the same children returns
    with every attribute of the list as it was (width, height, depth and
    [glue_set] among them) and repeats the same warning, if there was one. *)
Theorem hpack_idempotent_at_packed_width (class_name : string)
    (children : list node) (self self1 : BoxList.t) (w : float) (m : pyval)
    (log1 : list event) :
  hpack class_name children self w m = Ok self1 log1 ->
  hpack class_name children self1 (BoxList.width self1) (PyStr "exactly")
  = Ok self1 log1 /\
  forall self2 log2,
    hpack class_name children self1 (BoxList.width self1) (PyStr "exactly")
    = Ok self2 log2 ->
    BoxList.width self2 = BoxList.width self1 /\
    BoxList.height self2 = BoxList.height self1 /\
    BoxList.depth self2 = BoxList.depth self1 /\
    BoxList.glue_set self2 = BoxList.glue_set self1.
Proof.
  intros H.
  assert (Hagain :
    hpack class_name children self1 (BoxList.width self1) (PyStr "exactly")
    = Ok self1 log1).
  { apply hpack_Ok_loop in H as (s & Hs & Hls & Hlk & Hf).
    rewrite (hpack_after_loop _ _ _ _ _ _ Hs).
    pose proof (hpack_finish_width _ _ _ _ _ _ _ _ Hls Hlk Hf) as Hw.
    unfold hpack_finish in *. rewrite Hw.
    change (py_eq_str (PyStr "exactly") "additional") with false. cbv iota.
    set (width := if py_eq_str m "additional" then w + HPack.x s else w) in *.
    destruct (width - HPack.x s =? 0) eqn:Ez.
    - injection Hf as <- <-.
      destruct self as [[sz wd ht dp] sh gs gsi go gr]. reflexivity.
    - destruct (py_gt (width - HPack.x s) 0) eqn:Eg.
      + rewrite _set_glue_spec in Hf |- * by exact Hls.
        injection Hf as <- <-.
        destruct (py_ne _ 0);
          destruct self as [[sz wd ht dp] sh gs gsi go gr]; reflexivity.
      + rewrite _set_glue_spec in Hf |- * by exact Hlk.
        injection Hf as <- <-.
        destruct (py_ne _ 0);
          destruct self as [[sz wd ht dp] sh gs gsi go gr]; reflexivity. }
  split; [exact Hagain|].
  intros self2 log2 H2. rewrite Hagain in H2. injection H2 as <- _.
  repeat split.
Qed.

Lemma hpack_idempotent_at_packed_width_witness :
  exists self1,
    hpack "Hlist" sample_children List_init 6 (PyStr "additional")
    = Ok self1 [] /\
    BoxList.width self1 = 10 /\
    hpack "Hlist" sample_children self1 (BoxList.width self1) (PyStr "exactly")
    = Ok self1 [].
Proof.
  eexists. split; [reflexivity|]. split; [reflexivity|].
  apply (hpack_idempotent_at_packed_width "Hlist" sample_children List_init _
           6 (PyStr "additional") [] eq_refl).
Defined.

(** ** A Char inside a Vlist *)

Lemma bind_assoc {A B C : Type} (m : result A) (f : A -> result B)
    (g : B -> result C) :
  bind (bind m f) g = bind m (fun a => bind (f a) g).
Proof.
  unfold bind. destruct m as [a log1 | e]; [|reflexivity].
  destruct (f a) as [b log2 | e]; [|reflexivity].
  destruct (g b) as [c log3 | e]; [|reflexivity].
  rewrite app_assoc. reflexivity.
Qed.

Lemma bind_always_raises {A B : Type} (m : result A) (k : A -> result B) :
  (forall a, exists e, k a = Raise e) -> exists e, bind m k = Raise e.
Proof.
  intros Hk. destruct m as [a log | e]; simpl.
  - destruct (Hk a) as [e ->]. exists e. reflexivity.
  - exists e. reflexivity.
Qed.

Lemma vpack_loop_app (pre rest : list node) (s : VPack.t) :
  vpack_loop (pre ++ rest) s
  = (s' <- vpack_loop pre s ;; vpack_loop rest s').
Proof.
  revert s. induction pre as [|p pre IH]; intros s; cbn [app vpack_loop].
  - rewrite bind_ret. reflexivity.
  - rewrite bind_assoc. destruct (vpack_step p s) as [s1 log | e];
      cbn [bind]; [rewrite IH|]; reflexivity.
Qed.

Lemma vpack_loop_Char (p : node) (post : list node) (s : VPack.t) :
  is_Char p = true ->
  vpack_loop (p :: post) s
  = Raise (RuntimeError "Internal mathtext error: Char node found in Vlist.").
Proof.
  destruct p; try discriminate; reflexivity.
Qed.

Lemma vlist_out_loop_app (l : BoxList.t) (box_width left_edge : float)
    (pre rest : list node) (cur_g cur_glue : float) (self : Ship.t) :
  vlist_out_loop hlist_out vlist_out l box_width
    left_edge (pre ++ rest) cur_g cur_glue self
  = (out <- vlist_out_loop hlist_out vlist_out l
              box_width left_edge pre cur_g cur_glue self ;;
     vlist_out_loop hlist_out vlist_out l box_width
       left_edge rest (snd (fst out)) (snd out) (fst (fst out))).
Proof.
  revert cur_g cur_glue self.
  induction pre as [|p pre IH]; intros cur_g cur_glue self.
  - cbn [app vlist_out_loop]. rewrite bind_ret. reflexivity.
  - destruct p as [ch | ch | b | b | pl [|q pc] | pl [|q pc] | g | k];
      cbn [app vlist_out_loop]; try reflexivity;
      rewrite ?bind_assoc; try apply IH.
    + destruct (_ && _); [|apply IH].
      rewrite bind_assoc. unfold Box_render. rewrite !bind_ret. apply IH.
    + destruct (_ && _); [|apply IH].
      rewrite bind_assoc. unfold Rule_render, emit, bind at 1 3.
      rewrite IH. reflexivity.
    + destruct (hlist_out _ _) as [s1 log | e]; simpl;
        [rewrite IH|]; reflexivity.
    + destruct (vlist_out _ _ _) as [s1 log | e]; simpl;
        [rewrite IH|]; reflexivity.
    + destruct (glue_out _ _ _ _ _ _) as [[g1 gl1] rw]. apply IH.
Qed.

Lemma vlist_out_loop_Char (l : BoxList.t) (box_width left_edge : float)
    (p : node) (post : list node) (cur_g cur_glue : float) (self : Ship.t) :
  is_Char p = true ->
  vlist_out_loop hlist_out vlist_out l box_width
    left_edge (p :: post) cur_g cur_glue self
  = Raise (RuntimeError "Internal mathtext error: Char node found in vlist").
Proof.
  destruct p; try discriminate; reflexivity.
Qed.

(** C5.  A Vlist with a [Char] (or [Accent]) among its children is never
    packed or shipped silently: [vpack] and [vlist_out] both raise, and
    whenever the children before the Char are processed without an exception
    of their own, so that the loop reaches the Char, what is raised is the
    [RuntimeError] "Internal mathtext error: Char node found in Vlist". *)
Theorem Char_in_Vlist_raises (class_name : string) (l : BoxList.t)
    (pre post : list node) (p : node) :
  is_Char p = true ->
  (forall (h : float) (m lim : pyval),
     (exists e, vpack class_name (pre ++ p :: post) l h m lim = Raise e) /\
     (forall s log,
        vpack_loop pre vpack_start = Ok s log ->
        vpack class_name (pre ++ p :: post) l h m lim
        = Raise (RuntimeError
                   "Internal mathtext error: Char node found in Vlist."))) /\
  (forall (box_width : float) (self : Ship.t),
     (exists e, vlist_out (Vlist l (pre ++ p :: post)) box_width self = Raise e) /\
     (forall out log,
        vlist_out_loop hlist_out vlist_out l box_width
          (Ship.cur_h (push self)) pre 0 0
          (set_cur_v (push self) (Ship.cur_v (push self) - BoxList.height l))
        = Ok out log ->
        vlist_out (Vlist l (pre ++ p :: post)) box_width self
        = Raise (RuntimeError
                   "Internal mathtext error: Char node found in vlist"))).
Proof.
  intros Hp. split.
  - intros h m lim. unfold vpack. rewrite vpack_loop_app, bind_assoc. split.
    + apply bind_always_raises. intros s.
      rewrite (vpack_loop_Char p post s Hp). exists (RuntimeError
        "Internal mathtext error: Char node found in Vlist."). reflexivity.
    + intros s log Hs. rewrite Hs. cbn [bind].
      rewrite (vpack_loop_Char p post s Hp). reflexivity.
  - intros box_width self. cbn [vlist_out].
    rewrite vlist_out_loop_app, bind_assoc. split.
    + apply bind_always_raises. intros out.
      rewrite (vlist_out_loop_Char l box_width _ p post _ _ _ Hp).
      exists (RuntimeError "Internal mathtext error: Char node found in vlist").
      reflexivity.
    + intros out log Hout. rewrite Hout. cbn [bind].
      rewrite (vlist_out_loop_Char l box_width _ p post _ _ _ Hp). reflexivity.
Qed.

Lemma Char_in_Vlist_raises_witness :
  is_Char (Char sample_char) = true /\
  vpack "Vlist" [Kern_init 1; Char sample_char; sample_fil] List_init 0
    (PyStr "additional") (PyFloat inf)
  = Raise (RuntimeError "Internal mathtext error: Char node found in Vlist.") /\
  vlist_out (Vlist List_init [Kern_init 1; Char sample_char; sample_fil]) 0
    (Ship.Build_t 0 0 0 0 0 0)
  = Raise (RuntimeError "Internal mathtext error: Char node found in vlist").
Proof.
  split; [reflexivity|].
  destruct (Char_in_Vlist_raises "Vlist" List_init [Kern_init 1] [sample_fil]
              (Char sample_char) eq_refl) as [Hpack Hship].
  split.
  - eapply (proj2 (Hpack 0 (PyStr "additional") (PyFloat inf))).
    reflexivity.
  - eapply (proj2 (Hship 0 (Ship.Build_t 0 0 0 0 0 0))). reflexivity.
Defined.

(** ** Glue set at pack time and distributed at ship time *)









(** ** vpack and the square root *)

Example sample_body_is_a_group :
  Hlist_ sample_fonts [Char sample_comma] = Ok sample_body [].
Proof. reflexivity. Qed.

Lemma vpack_step_inv (p : node) (s s' : VPack.t) (log : list event) :
  vpack_step p s = Ok s' log ->
  log = [] /\
  List.length (VPack.total_stretch s') = List.length (VPack.total_stretch s) /\
  List.length (VPack.total_shrink s') = List.length (VPack.total_shrink s).
Proof.
  destruct p as [ch | ch | b | b | l c | l c | g | k]; simpl;
    try discriminate;
    try (destruct (negb _));
    try (intros [= <- <-]; repeat split; reflexivity).
  intros H.
  apply bind_Ok_inv in H as (ts & log1 & log2 & H1 & H & ->).
  apply bind_Ok_inv in H as (tk & log3 & log4 & H2 & H & ->).
  injection H as <- <-.
  apply py_additem_inv in H1 as (-> & H1).
  apply py_additem_inv in H2 as (-> & H2).
  simpl. auto.
Qed.

Lemma vpack_loop_inv (children : list node) (s s' : VPack.t) (log : list event) :
  vpack_loop children s = Ok s' log ->
  log = [] /\
  List.length (VPack.total_stretch s') = List.length (VPack.total_stretch s) /\
  List.length (VPack.total_shrink s') = List.length (VPack.total_shrink s).
Proof.
  revert s. induction children as [|p rest IH]; intros s; simpl.
  - intros [= <- <-]. auto.
  - intros H. apply bind_Ok_inv in H as (s1 & log1 & log2 & H1 & H2 & ->).
    apply vpack_step_inv in H1 as (-> & Ha & Hb).
    apply IH in H2 as (-> & Hc & Hd).
    repeat split; congruence.
Qed.

(** With a float bound to the mode and a string bound to the limit, [vpack]
    packs to exactly [h] and never clamps the depth: the depth it sets is the
    depth [d] that the loop leaves. *)
Lemma vpack_string_limit_never_clamps (class_name : string)
    (children : list node) (self self' : BoxList.t) (h mode : float)
    (limit : string) (log : list event) :
  vpack class_name children self h (PyFloat mode) (PyStr limit) = Ok self' log ->
  exists s,
    vpack_loop children vpack_start = Ok s [] /\
    BoxList.height self' = h /\
    BoxList.depth self' = VPack.d s /\
    BoxList.width self' = VPack.w s.
Proof.
  intros H. unfold vpack in H.
  destruct (vpack_loop children vpack_start) as [s log0 | e] eqn:E;
    [|discriminate].
  pose proof (vpack_loop_inv _ _ _ _ E) as (-> & Hls & Hlk).
  simpl in Hls, Hlk. rewrite bind_Ok_nil in H.
  exists s. split; [reflexivity|].
  unfold vpack_finish in H. cbn [py_float_gt py_eq_str] in H.
  rewrite bind_ret in H. cbn [fst snd] in H.
  destruct (_ =? 0).
  - injection H as <- _. repeat split.
  - destruct (py_gt _ 0).
    + rewrite _set_glue_spec in H by exact Hls. injection H as <- _.
      destruct (py_ne _ 0); repeat split.
    + rewrite _set_glue_spec in H by exact Hlk. injection H as <- _.
      destruct (py_ne _ 0); repeat split.
Qed.

Lemma Vlist_init_inv (elements : list node) (h : float) (m : pyval)
    (p : node) (log : list event) :
  Vlist_init elements h m = Ok p log ->
  exists l, p = Vlist l elements.
Proof.
  unfold Vlist_init. intros H.
  apply bind_Ok_inv in H as (l & log1 & log2 & _ & H & _).
  injection H as <- _. exists l. reflexivity.
Qed.

(** What [Parser.sqrt] gets from its call of [vpack]: [rightside] is a Vlist
    of the [Hrule], the [Fill] glue and the padded body, its height is
    [height + 1.0], and its depth is the natural depth left by the loop of
    [vpack], whatever the computed [depth] is. *)
Lemma sqrt_rightside_pack (font_output : Fonts)
    (thickness height depth : float) (body : node) (state : State.t)
    (p : node) (log : list event) :
  sqrt_rightside font_output thickness height depth body state = Ok p log ->
  exists l hrule fill padded_body s,
    p = Vlist l [Rule hrule; fill; padded_body] /\
    Box.width hrule = inf /\
    Box.height hrule = Box.depth hrule /\
    vpack_loop [Rule hrule; fill; padded_body] vpack_start = Ok s [] /\
    BoxList.height l = height + 1.0 /\
    BoxList.depth l = VPack.d s.
Proof.
  unfold sqrt_rightside. intros H.
  apply bind_Ok_inv in H as (padded_body & log1 & log2 & _ & H & _).
  apply bind_Ok_inv in H as (hrule & log3 & log4 & Hh & H & _).
  apply bind_Ok_inv in H as (fill & log5 & log6 & _ & H & _).
  apply bind_Ok_inv in H as (rightside & log7 & log8 & Hv & H & _).
  unfold Vlist_ in Hv. apply Vlist_init_inv in Hv as [l0 ->].
  apply bind_Ok_inv in H as (l & log9 & log10 & Hp & H & _).
  injection H as <- _.
  apply vpack_string_limit_never_clamps in Hp as (s & Hs & Hhe & Hd & _).
  unfold Hrule in Hh.
  apply bind_Ok_inv in Hh as (t & log11 & log12 & _ & Hh & _).
  injection Hh as <- _.
  eexists l, _, fill, padded_body, s. repeat split; auto.
Qed.

(** C4, on the code.  [Parser.sqrt] calls
    [rightside.vpack(height + 1.0, depth, 'exactly')] while the parameters of
    [vpack] are [(h, m, l)].  For the group [{,}] in the sample font, [sqrt]
    computes [height = 5.125] and a limit [depth] one unit in the last place
    below 0.1; the Vlist it returns has height [height + 1.0] but depth 0.1,
    the natural depth, above the limit.  With the arguments in the order of
    the parameters, [vpack(height + 1.0, 'exactly', depth)], the depth is
    clamped to the limit. *)
Theorem sqrt_rightside_depth_exceeds_limit :
  exists l root_vlist kern check_l check_children rl rchildren rl',
    sqrt sample_fonts None sample_body sample_state
    = Ok (Hlist l [root_vlist; kern; Hlist check_l check_children;
                   Vlist rl rchildren]) [] /\
    let height := BoxList.height check_l - BoxList.shift_amount check_l in
    let depth := BoxList.depth check_l + BoxList.shift_amount check_l in
    height = 5.125 /\
    depth = 0.09999999999999998 /\
    BoxList.height rl = height + 1.0 /\
    BoxList.depth rl = 0.1 /\
    (depth <? BoxList.depth rl) = true /\
    vpack "Vlist" rchildren rl (height + 1.0) (PyStr "exactly") (PyFloat depth)
    = Ok rl' [] /\
    BoxList.height rl' = height + 1.0 /\
    BoxList.depth rl' = depth.
Proof.
  do 8 eexists. split; [vm_compute; reflexivity|].
  cbv zeta. repeat split; vm_compute; reflexivity.
Qed.

Lemma Hlist_init_inv (font_output : Fonts) (elements : list node) (w : float)
    (m : pyval) (do_kern : bool) (p : node) (log : list event) :
  Hlist_init font_output elements w m do_kern = Ok p log ->
  exists l children, p = Hlist l children.
Proof.
  unfold Hlist_init. intros H.
  apply bind_Ok_inv in H as (children & log1 & log2 & _ & H & _).
  apply bind_Ok_inv in H as (l & log3 & log4 & _ & H & _).
  injection H as <- _. exists l, children. reflexivity.
Qed.

Lemma AutoHeightChar_inv (font_output : Fonts) (c : string)
    (height depth : float) (state : State.t) (p : node) (log : list event) :
  AutoHeightChar font_output c height depth state = Ok p log ->
  exists l children, p = Hlist l children.
Proof.
  unfold AutoHeightChar. intros H.
  apply bind_Ok_inv in H as (alts & log1 & log2 & _ & H & _).
  apply bind_Ok_inv in H as (last & log3 & log4 & _ & H & _).
  destruct last as [[[char sym] st]|]; [|discriminate].
  apply bind_Ok_inv in H as (factor & log5 & log6 & _ & H & _).
  apply bind_Ok_inv in H as (char' & log7 & log8 & _ & H & _).
  apply bind_Ok_inv in H as (self & log9 & log10 & Hh & H & _).
  injection H as <- _.
  unfold Hlist_ in Hh. apply Hlist_init_inv in Hh as (l & children & ->).
  eexists. eexists. reflexivity.
Qed.

(** [Hlist.kern] inserts nothing into a list without a Char. *)
Lemma kern_without_Char (font_output : Fonts) (elements : list node) :
  existsb is_Char elements = false ->
  kern font_output elements = Ok elements [].
Proof.
  induction elements as [|p rest IH]; intros H; [reflexivity|].
  simpl in H. apply orb_false_iff in H as [Hp Hrest].
  cbn [kern]. rewrite (IH Hrest).
  destruct p; try discriminate Hp; reflexivity.
Qed.

(** The tree that [Parser.sqrt] returns: an Hlist of the root, a kern, the
    radical sign and [rightside], the Vlist of an [Hrule] of running width,
    the [Fill] glue and the padded body; [rightside] has height
    [height + 1.0], where [height] is what [sqrt] computes from the radical
    sign, and the depth left by the loop of [vpack]. *)
Lemma sqrt_tree (font_output : Fonts) (root : option root_token) (body : node)
    (state : State.t) (p : node) (log : list event) :
  sqrt font_output root body state = Ok p log ->
  exists l root_vlist kern check_l check_children rl hrule fill padded_body s,
    p = Hlist l [root_vlist; kern; Hlist check_l check_children;
                 Vlist rl [Rule hrule; fill; padded_body]] /\
    Box.width hrule = inf /\
    Box.height hrule = Box.depth hrule /\
    vpack_loop [Rule hrule; fill; padded_body] vpack_start = Ok s [] /\
    BoxList.height rl
    = BoxList.height check_l - BoxList.shift_amount check_l + 1.0 /\
    BoxList.depth rl = VPack.d s.
Proof.
  unfold sqrt. intros H.
  apply bind_Ok_inv in H as (thickness & log1 & log2 & _ & H & _).
  apply bind_Ok_inv in H as (root' & log3 & log4 & _ & H & _).
  apply bind_Ok_inv in H as (bh & log5 & log6 & _ & H & _).
  apply bind_Ok_inv in H as (bs & log7 & log8 & _ & H & _).
  apply bind_Ok_inv in H as (bd & log9 & log10 & _ & H & _).
  apply bind_Ok_inv in H as (check & log11 & log12 & Hc & H & _).
  apply AutoHeightChar_inv in Hc as (cl & cc & ->).
  cbn [node_height node_shift_amount node_depth node_width] in H.
  rewrite !bind_ret in H.
  apply bind_Ok_inv in H as (rightside & log13 & log14 & Hr & H & _).
  apply sqrt_rightside_pack in Hr
    as (rl & hrule & fill & padded & s & -> & Hw & Hhd & Hs & Hh & Hd).
  apply bind_Ok_inv in H as (inner & log15 & log16 & _ & H & _).
  apply bind_Ok_inv in H as (root_vlist & log17 & log18 & Hv & H & _).
  unfold Vlist_ in Hv. apply Vlist_init_inv in Hv as [vl ->].
  cbn [node_set_shift_amount] in H.
  unfold Hlist_, Hlist_init in H. cbv beta iota in H.
  rewrite bind_ret in H.
  rewrite kern_without_Char, bind_Ok_nil in H by reflexivity.
  apply bind_Ok_inv in H as (l & log19 & log20 & _ & H & _).
  injection H as <- _.
  do 10 eexists. split; [reflexivity|]. repeat split; eauto.
Qed.

(** ** The Box branches of the ship routines *)

Lemma vlist_out_loop_flat (l : BoxList.t) (box_width left_edge : float)
    (children : list node) (cur_g cur_glue : float) (self : Ship.t) :
  forallb is_flat children = true ->
  exists out log,
    vlist_out_loop hlist_out vlist_out l box_width left_edge children cur_g
      cur_glue self = Ok out log /\
    forallb is_rect log = true /\
    List.length log = List.length (filter renders_in_vlist children).
Proof.
  revert cur_g cur_glue self.
  induction children as [|p rest IH]; intros cur_g cur_glue self Hflat.
  - do 2 eexists. repeat split.
  - cbn [forallb] in Hflat. apply andb_true_iff in Hflat as [Hp Hrest].
    destruct p as [ch | ch | b | b | pl pc | pl pc | g | k];
      try discriminate Hp; cbn [vlist_out_loop filter renders_in_vlist].
    + destruct (_ && _).
      * unfold Box_render. rewrite bind_ret. apply IH, Hrest.
      * apply IH, Hrest.
    + destruct (_ && _).
      * destruct (IH cur_g cur_glue
                    (set_cur_v self
                       (Ship.cur_v self + (Box.height b + Box.depth b)))
                    Hrest) as (out & log & -> & Hr & Hl).
        do 2 eexists. split; [reflexivity|]. split.
        -- exact Hr.
        -- cbn [List.length app]. rewrite Hl. reflexivity.
      * apply IH, Hrest.
    + destruct (glue_out _ _ _ _ _ _) as [[g1 gl1] rw]. apply IH, Hrest.
    + apply IH, Hrest.
Qed.

(** A box or rule of height 0 passes through the Box branch of [hlist_out]
    without drawing: the loop goes on with [cur_h] advanced by its width. *)
Lemma hlist_out_loop_zero_height_box
    (hlist_out_rec : node -> Ship.t -> result Ship.t)
    (vlist_out_rec : node -> float -> Ship.t -> result Ship.t)
    (l : BoxList.t) (base_line : float) (b : Box.t) (rest : list node)
    (cur_g cur_glue : float) (self : Ship.t) :
  Box.height b = 0 ->
  hlist_out_loop hlist_out_rec vlist_out_rec l base_line (Box b :: rest)
    cur_g cur_glue self
  = hlist_out_loop hlist_out_rec vlist_out_rec l base_line rest cur_g cur_glue
      (set_cur_h self (Ship.cur_h self + Box.width b)) /\
  hlist_out_loop hlist_out_rec vlist_out_rec l base_line (Rule b :: rest)
    cur_g cur_glue self
  = hlist_out_loop hlist_out_rec vlist_out_rec l base_line rest cur_g cur_glue
      (set_cur_h self (Ship.cur_h self + Box.width b)).
Proof.
  intros Hh. cbn [hlist_out_loop]. rewrite Hh.
  change (isinf 0) with false. cbv iota.
  change (py_gt 0 0) with false. cbn [andb]. split; reflexivity.
Qed.

Lemma hlist_out_loop_zero_height (l : BoxList.t) (base_line : float)
    (children : list node) (cur_g cur_glue : float) (self : Ship.t) :
  Forall zero_height children ->
  exists out log,
    hlist_out_loop hlist_out vlist_out l base_line children cur_g cur_glue self
    = Ok out log.
Proof.
  intros H. revert cur_g cur_glue self.
  induction H as [|p rest Hp _ IH]; intros cur_g cur_glue self.
  - do 2 eexists. reflexivity.
  - destruct p as [ch | ch | b | b | pl pc | pl pc | g | k];
      cbn [hlist_out_loop]; try contradiction.
    + destruct (IH cur_g cur_glue
                  (set_cur_h self (Ship.cur_h self + Char.width ch)))
        as (out & log & ->).
      do 2 eexists. reflexivity.
    + destruct (IH cur_g cur_glue
                  (set_cur_h self (Ship.cur_h self + Char.width ch)))
        as (out & log & ->).
      do 2 eexists. reflexivity.
    + cbn [zero_height] in Hp. rewrite Hp.
      change (isinf 0) with false. cbv iota.
      change (py_gt 0 0) with false. cbn [andb]. apply IH.
    + cbn [zero_height] in Hp. rewrite Hp.
      change (isinf 0) with false. cbv iota.
      change (py_gt 0 0) with false. cbn [andb]. apply IH.
    + destruct (glue_out _ _ _ _ _ _) as [[g1 gl1] rw]. apply IH.
    + apply IH.
Qed.

(** In [hlist_out], the Box branch reads [baseline], a name that is bound
    nowhere (the local is [base_line]): a box or rule of positive height and
    width, running dimensions resolved, raises a [NameError]. *)
Lemma hlist_out_Box_branch_NameError (l : BoxList.t) (b : Box.t)
    (rest : list node) (self : Ship.t) :
  py_gt (if isinf (Box.height b) then BoxList.height l else Box.height b) 0
  && py_gt (Box.width b) 0 = true ->
  hlist_out (Hlist l (Rule b :: rest)) self = Raise (NameError "baseline") /\
  hlist_out (Hlist l (Box b :: rest)) self = Raise (NameError "baseline").
Proof.
  intros H. cbn [hlist_out hlist_out_loop]. rewrite H. split; reflexivity.
Qed.

(** C6, as the code has it.  The Box branch of [vlist_out] reads only names
    that are bound: a Vlist whose children are boxes, rules, glue and kerns is
    shipped without any exception, and what it draws is one filled rectangle
    for each rule with [height + depth > 0] and [depth > 0].  The branch is
    reached for trees of the parser: the tree of every [\sqrt] holds a Vlist
    whose first child is a rule, the [Hrule].  In [hlist_out], a box of
    height 0, as [Hbox(width)] and [Box(0., 0., 0.)] are, passes through the
    Box branch without error and without drawing, the cursor advanced by its
    width, so that an Hlist of such boxes, chars, glue and kerns is shipped
    without any exception. *)
Theorem vlist_out_Box_branch_is_defined :
  (forall (l : BoxList.t) (children : list node) (box_width : float)
          (self : Ship.t),
     forallb is_flat children = true ->
     exists self' log,
       vlist_out (Vlist l children) box_width self = Ok self' log /\
       forallb is_rect log = true /\
       List.length log = List.length (filter renders_in_vlist children)) /\
  (forall (font_output : Fonts) (root : option root_token) (body : node)
          (state : State.t) (p : node) (log : list event),
     sqrt font_output root body state = Ok p log ->
     exists l root_vlist kern check rl hrule rest,
       p = Hlist l [root_vlist; kern; check; Vlist rl (Rule hrule :: rest)]) /\
  (forall (l : BoxList.t) (base_line : float) (b : Box.t) (rest : list node)
          (cur_g cur_glue : float) (self : Ship.t),
     Box.height b = 0 ->
     hlist_out_loop hlist_out vlist_out l base_line (Box b :: rest) cur_g
       cur_glue self
     = hlist_out_loop hlist_out vlist_out l base_line rest cur_g cur_glue
         (set_cur_h self (Ship.cur_h self + Box.width b))) /\
  (forall (l : BoxList.t) (children : list node) (self : Ship.t),
     Forall zero_height children ->
     exists self' log, hlist_out (Hlist l children) self = Ok self' log).
Proof.
  split; [|split; [|split]].
  - intros l children box_width self Hflat. cbn [vlist_out].
    destruct (vlist_out_loop_flat l box_width (Ship.cur_h (push self)) children
                0 0
                (set_cur_v (push self)
                   (Ship.cur_v (push self) - BoxList.height l)) Hflat)
      as (out & log & -> & Hr & Hl).
    exists (pop (fst (fst out))), log. cbn [bind ret].
    rewrite app_nil_r. auto.
  - intros font_output root body state p log H.
    apply sqrt_tree in H
      as (l & rv & k & cl & cc & rl & hrule & fill & padded & s & -> & _).
    do 7 eexists. reflexivity.
  - intros l base_line b rest cur_g cur_glue self Hh.
    apply (hlist_out_loop_zero_height_box hlist_out vlist_out l base_line b
             rest cur_g cur_glue self Hh).
  - intros l children self Hz. cbn [hlist_out].
    destruct (hlist_out_loop_zero_height l (Ship.cur_v self) children 0 0
                (push self) Hz) as (out & log & ->).
    do 2 eexists. reflexivity.
Qed.

Lemma vlist_out_Box_branch_is_defined_witness :
  forallb is_flat [Rule (Box_init inf 0.5 0.5); sample_fil] = true /\
  (exists self' log,
     vlist_out (Vlist List_init [Rule (Box_init inf 0.5 0.5); sample_fil]) 6
       (Ship.Build_t 0 0 0 0 0 0) = Ok self' log /\
     forallb is_rect log = true /\ List.length log = 1%nat) /\
  Forall zero_height [Hbox 2; Char sample_char; Box (Box_init 0 0 0)] /\
  exists self' log,
    hlist_out
      (Hlist List_init [Hbox 2; Char sample_char; Box (Box_init 0 0 0)])
      (Ship.Build_t 0 0 0 0 0 0) = Ok self' log.
Proof.
  destruct vlist_out_Box_branch_is_defined as (Hv & _ & _ & Hh).
  split; [reflexivity|]. split.
  - apply (Hv List_init [Rule (Box_init inf 0.5 0.5); sample_fil] 6
             (Ship.Build_t 0 0 0 0 0 0) eq_refl).
  - assert (Hz : Forall zero_height
                   [Hbox 2; Char sample_char; Box (Box_init 0 0 0)]).
    { repeat constructor. }
    split; [exact Hz|].
    apply (Hh List_init _ (Ship.Build_t 0 0 0 0 0 0) Hz).
Defined.

(** C6 as stated fails on both counts.  A renderable rule in a Vlist is drawn
    by [vlist_out] without any error, and the tree of [\sqrt{,}] reaches that
    branch when it is shipped (it draws the rule above the body); it is the
    Box branch of [hlist_out] that raises the [NameError] on [baseline]. *)
Lemma baseline_is_undefined_in_hlist_out_not_vlist_out :
  vlist_out (Vlist List_init [Rule (Box_init 2 1 1)]) 0
    (Ship.Build_t 0 0 0 0 0 0)
  = Ok (Ship.Build_t 1 0 2 0 0 0) [render_rect_filled 0 2 2 4] /\
  hlist_out (Hlist List_init [Rule (Box_init 2 1 1)])
    (Ship.Build_t 0 0 0 0 0 0)
  = Raise (NameError "baseline") /\
  exists tree self log,
    sqrt sample_fonts None sample_body sample_state = Ok tree [] /\
    ship 0 0 tree = Ok self log /\
    existsb is_rect log = true.
Proof.
  split; [reflexivity|]. split; [reflexivity|].
  do 3 eexists. split; [vm_compute; reflexivity|].
  split; [vm_compute; reflexivity|]. reflexivity.
Qed.

(** * Further properties *)

(** ** The order of floats

    The comparisons of primitive floats are specified on [spec_float]; there
    they are a total preorder apart from [nan], which compares false with
    everything. *)

Ltac sf_compare_cases :=
  repeat match goal with
    | H : context [(?a ?= ?b)%Z] |- _ =>
        destruct (Z.compare_spec a b); try subst; try lia; try discriminate
    | |- context [(?a ?= ?b)%Z] =>
        destruct (Z.compare_spec a b); try subst; try lia; try discriminate
    | H : context [(?a ?= ?b)%positive] |- _ =>
        destruct (Pos.compare_spec a b); try subst; try lia; try discriminate
    | |- context [(?a ?= ?b)%positive] =>
        destruct (Pos.compare_spec a b); try subst; try lia; try discriminate
    end.

Ltac sf_destruct a b c :=
  destruct a as [[|]|[|]| |[|] ? ?], b as [[|]|[|]| |[|] ? ?],
    c as [[|]|[|]| |[|] ? ?];
  cbn [SFltb SFleb SFeqb SFcompare CompOpp] in *;
  try discriminate; try reflexivity;
  change (Pos.compare_cont Eq) with Pos.compare in *.

Ltac sf_destruct2 a b :=
  destruct a as [[|]|[|]| |[|] ? ?], b as [[|]|[|]| |[|] ? ?];
  cbn [SFltb SFleb SFeqb SFcompare CompOpp] in *;
  try discriminate; try reflexivity;
  change (Pos.compare_cont Eq) with Pos.compare in *.


Lemma SFleb_trans (a b c : spec_float) :
  SFleb a b = true -> SFleb b c = true -> SFleb a c = true.
Proof.
  intros H1 H2. sf_destruct a b c; sf_compare_cases; reflexivity.
Qed.

Lemma SFltb_leb_trans (a b c : spec_float) :
  SFltb a b = true -> SFleb b c = true -> SFltb a c = true.
Proof.
  intros H1 H2. sf_destruct a b c; sf_compare_cases; reflexivity.
Qed.

Lemma SFleb_ltb_trans (a b c : spec_float) :
  SFleb a b = true -> SFltb b c = true -> SFltb a c = true.
Proof.
  intros H1 H2. sf_destruct a b c; sf_compare_cases; reflexivity.
Qed.

Lemma SFltb_asym (a b : spec_float) :
  SFltb a b = true -> SFleb b a = false.
Proof.
  intros H1. sf_destruct2 a b; sf_compare_cases; reflexivity.
Qed.

Lemma SFleb_total (a b : spec_float) :
  SFeqb a a = true -> SFeqb b b = true -> SFltb a b = false ->
  SFleb b a = true.
Proof.
  intros Ha Hb H1. sf_destruct2 a b; sf_compare_cases; reflexivity.
Qed.

Lemma SFleb_refl (a b : spec_float) :
  SFleb a b = true -> SFeqb a a = true /\ SFeqb b b = true.
Proof.
  intros H1. split; sf_destruct2 a b; sf_compare_cases; reflexivity.
Qed.

Lemma SFltb_leb (a b : spec_float) :
  SFltb a b = true -> SFleb a b = true.
Proof.
  intros H1. sf_destruct2 a b; sf_compare_cases; reflexivity.
Qed.

Lemma SFeqb_leb (a b : spec_float) :
  SFeqb a b = true -> SFleb a b = true /\ SFleb b a = true.
Proof.
  intros H1. split; sf_destruct2 a b; sf_compare_cases; reflexivity.
Qed.

(** A float [x] is a number, not [nan], when [x =? x] (Python: [x == x]). *)


Lemma leb_trans (a b c : float) :
  (a <=? b) = true -> (b <=? c) = true -> (a <=? c) = true.
Proof. rewrite !FloatAxioms.leb_spec. apply SFleb_trans. Qed.

Lemma ltb_leb_trans (a b c : float) :
  (a <? b) = true -> (b <=? c) = true -> (a <? c) = true.
Proof. rewrite !FloatAxioms.ltb_spec, !FloatAxioms.leb_spec. apply SFltb_leb_trans. Qed.

Lemma leb_ltb_trans (a b c : float) :
  (a <=? b) = true -> (b <? c) = true -> (a <? c) = true.
Proof. rewrite !FloatAxioms.ltb_spec, !FloatAxioms.leb_spec. apply SFleb_ltb_trans. Qed.

Lemma ltb_not_leb (a b : float) :
  (a <? b) = true -> (b <=? a) = false.
Proof. rewrite !FloatAxioms.ltb_spec, !FloatAxioms.leb_spec. apply SFltb_asym. Qed.

Lemma leb_not_ltb (a b : float) :
  (a <=? b) = true -> (b <? a) = false.
Proof.
  intros H. destruct (b <? a) eqn:E; [|reflexivity].
  apply ltb_not_leb in E. congruence.
Qed.

Lemma ltb_leb (a b : float) :
  (a <? b) = true -> (a <=? b) = true.
Proof. rewrite !FloatAxioms.ltb_spec, !FloatAxioms.leb_spec. apply SFltb_leb. Qed.

Lemma not_ltb_leb (a b : float) :
  (a =? a) = true -> (b =? b) = true -> (a <? b) = false ->
  (b <=? a) = true.
Proof. rewrite !FloatAxioms.ltb_spec, !FloatAxioms.leb_spec, !FloatAxioms.eqb_spec. apply SFleb_total. Qed.

Lemma leb_number (a b : float) :
  (a <=? b) = true -> (a =? a) = true /\ (b =? b) = true.
Proof. rewrite !FloatAxioms.leb_spec, !FloatAxioms.eqb_spec. apply SFleb_refl. Qed.

Lemma leb_refl (a : float) :
  (a =? a) = true -> (a <=? a) = true.
Proof.
  rewrite !FloatAxioms.leb_spec, !FloatAxioms.eqb_spec. intros H.
  apply (proj1 (SFeqb_leb _ _ H)).
Qed.

Lemma ltb_irrefl (a : float) : (a <? a) = false.
Proof.
  destruct (a <? a) eqn:E; [|reflexivity].
  pose proof (ltb_leb _ _ E) as H. apply ltb_not_leb in E. congruence.
Qed.

(** Python's two-argument [max] returns one of its arguments, is never
    below the first, and is not below the second unless the first is
    [nan]. *)

Lemma py_max_cases (a b : float) :
  (py_max a b = a /\ (a <? b) = false) \/ (py_max a b = b /\ (a <? b) = true).
Proof.
  unfold py_max, py_gt. destruct (a <? b); auto.
Qed.

Lemma py_max_ge_l (a b : float) :
  (a =? a) = true -> (a <=? py_max a b) = true.
Proof.
  intros Ha. destruct (py_max_cases a b) as [[-> _]|[-> H]].
  - now apply leb_refl.
  - now apply ltb_leb.
Qed.

Lemma py_max_ge_r (a b : float) :
  (a =? a) = true -> (b =? b) = true -> (b <=? py_max a b) = true.
Proof.
  intros Ha Hb. destruct (py_max_cases a b) as [[-> H]|[-> H]].
  - now apply not_ltb_leb.
  - now apply leb_refl.
Qed.

Lemma py_max_number (a b : float) :
  (a =? a) = true -> (py_max a b =? py_max a b) = true.
Proof.
  intros Ha. destruct (py_max_cases a b) as [[-> H]|[-> H]]; [easy|].
  apply ltb_leb, leb_number in H. tauto.
Qed.

(** ** The box that hpack computes *)

Lemma hpack_step_grows (p : node) (s s' : HPack.t) (log : list event) :
  hpack_step p s = Ok s' log ->
  (HPack.h s =? HPack.h s) = true -> (HPack.d s =? HPack.d s) = true ->
  (HPack.h s <=? HPack.h s') = true /\ (HPack.d s <=? HPack.d s') = true /\
  (forall v, height_in_hlist p = Some v -> (v =? v) = true ->
             (v <=? HPack.h s') = true) /\
  (forall v, depth_in_hlist p = Some v -> (v =? v) = true ->
             (v <=? HPack.d s') = true).
Proof.
  intros H Hh Hd.
  destruct p as [ch | ch | b | b | pl pc | pl pc | g | k];
    cbn [hpack_step as_Box height_in_hlist depth_in_hlist] in *.
  1-2: injection H as <- _; cbn [HPack.h HPack.d];
    repeat split; try (now apply py_max_ge_l);
    intros v [= <-] Hv; now apply py_max_ge_r.
  1-4: match type of H with
       | context [negb (isinf ?a) && negb (isinf ?c)] =>
           destruct (negb (isinf a) && negb (isinf c))
       end;
    injection H as <- _; cbn [HPack.h HPack.d];
    repeat split; try (now apply py_max_ge_l); try (now apply leb_refl);
    try discriminate;
    intros v [= <-] Hv; now apply py_max_ge_r.
  - apply bind_Ok_inv in H as (ts & l1 & l2 & _ & H & _).
    apply bind_Ok_inv in H as (tk & l3 & l4 & _ & H & _).
    injection H as <- _. cbn [HPack.h HPack.d].
    repeat split; try (now apply leb_refl); discriminate.
  - injection H as <- _. cbn [HPack.h HPack.d].
    repeat split; try (now apply leb_refl); discriminate.
Qed.

Lemma hpack_loop_grows (children : list node) (s s' : HPack.t)
    (log : list event) :
  hpack_loop children s = Ok s' log ->
  (HPack.h s =? HPack.h s) = true -> (HPack.d s =? HPack.d s) = true ->
  (HPack.h s <=? HPack.h s') = true /\ (HPack.d s <=? HPack.d s') = true /\
  (forall p v, In p children -> height_in_hlist p = Some v ->
               (v =? v) = true -> (v <=? HPack.h s') = true) /\
  (forall p v, In p children -> depth_in_hlist p = Some v ->
               (v =? v) = true -> (v <=? HPack.d s') = true).
Proof.
  revert s log.
  induction children as [|p rest IH]; intros s log H Hh Hd.
  - injection H as <- _. repeat split; try (now apply leb_refl);
      intros p v [].
  - cbn [hpack_loop] in H.
    apply bind_Ok_inv in H as (s1 & l1 & l2 & H1 & H2 & _).
    destruct (hpack_step_grows _ _ _ _ H1 Hh Hd) as (Hh1 & Hd1 & Hph & Hpd).
    destruct (IH _ _ H2) as (Hh2 & Hd2 & Hrh & Hrd).
    { apply leb_number in Hh1. tauto. }
    { apply leb_number in Hd1. tauto. }
    repeat split.
    + now apply leb_trans with (HPack.h s1).
    + now apply leb_trans with (HPack.d s1).
    + intros q v [<- | Hin] Hq Hv.
      * apply leb_trans with (HPack.h s1); auto.
      * eauto.
    + intros q v [<- | Hin] Hq Hv.
      * apply leb_trans with (HPack.d s1); auto.
      * eauto.
Qed.

Lemma hpack_finish_box (class_name : string) (children : list node)
    (self self' : BoxList.t) (w : float) (m : pyval) (s : HPack.t)
    (log : list event) :
  List.length (HPack.total_stretch s) = 4%nat ->
  List.length (HPack.total_shrink s) = 4%nat ->
  hpack_finish class_name children self w m s = Ok self' log ->
  BoxList.height self' = HPack.h s /\ BoxList.depth self' = HPack.d s /\
  BoxList.shift_amount self' = BoxList.shift_amount self /\
  BoxList.size self' = BoxList.size self.
Proof.
  intros H1 H2 H.
  rewrite (hpack_finish_cases _ _ _ _ _ _ _ _ H1 H2 H).
  destruct (_ =? 0); [|destruct (py_ne _ 0)]; repeat split.
Qed.

(** X1.  The box that [hpack] computes encloses its children.  Whenever
    [hpack] returns, the height and the depth of the list are numbers that
    are not negative, and each is at least what any child claims on that side
    of the baseline: the height and depth of a [Char], and the height less
    the shift and the depth plus the shift of a box or list without running
    dimensions (a claim that is [nan] is never taken up).  The shift and the
    size level of the list itself are left as they were. *)
Theorem hpack_box_encloses_children (class_name : string)
    (children : list node) (self self' : BoxList.t) (w : float) (m : pyval)
    (log : list event) :
  hpack class_name children self w m = Ok self' log ->
  (0 <=? BoxList.height self') = true /\
  (0 <=? BoxList.depth self') = true /\
  (forall p v, In p children -> height_in_hlist p = Some v ->
               (v =? v) = true -> (v <=? BoxList.height self') = true) /\
  (forall p v, In p children -> depth_in_hlist p = Some v ->
               (v =? v) = true -> (v <=? BoxList.depth self') = true) /\
  BoxList.shift_amount self' = BoxList.shift_amount self /\
  BoxList.size self' = BoxList.size self.
Proof.
  intros H. apply hpack_Ok_loop in H as (s & Hloop & Hs1 & Hs2 & Hfin).
  destruct (hpack_finish_box _ _ _ _ _ _ _ _ Hs1 Hs2 Hfin)
    as (-> & -> & Hsh & Hsz).
  destruct (hpack_loop_grows _ _ _ _ Hloop eq_refl eq_refl)
    as (Hh & Hd & Hph & Hpd).
  repeat split; assumption.
Qed.

Lemma hpack_box_encloses_children_witness :
  exists self',
    hpack "Hlist" sample_children List_init 10 (PyStr "exactly") = Ok self' [] /\
    BoxList.height self' = 4 /\ BoxList.depth self' = 2 /\
    (Char.height sample_char <=? BoxList.height self') = true.
Proof.
  assert (H : hpack "Hlist" sample_children List_init 10 (PyStr "exactly")
              = Ok (BoxList.Build_t (Box.Build_t 0 10 4 2) 0 6 1 1 None) []).
  { vm_compute. reflexivity. }
  eexists. split; [exact H|].
  split; [reflexivity|]. split; [reflexivity|].
  destruct (hpack_box_encloses_children _ _ _ _ _ _ _ H) as (_ & _ & Hh & _).
  apply (Hh (Char sample_char) _ (or_intror (or_introl eq_refl)) eq_refl
           eq_refl).
Defined.

(** ** The box that vpack computes *)

Lemma vpack_step_grows (p : node) (s s' : VPack.t) (log : list event) :
  vpack_step p s = Ok s' log ->
  (VPack.w s =? VPack.w s) = true ->
  (VPack.w s <=? VPack.w s') = true /\
  VPack.d s' = depth_of_last [p] /\
  (forall v, width_in_vlist p = Some v -> (v =? v) = true ->
             (v <=? VPack.w s') = true).
Proof.
  intros H Hw.
  destruct p as [ch | ch | b | b | pl pc | pl pc | g | k];
    cbn [vpack_step as_Box width_in_vlist depth_of_last rev app] in *;
    try discriminate.
  1-4: match type of H with
       | context [negb (isinf ?a)] => destruct (negb (isinf a))
       end;
    injection H as <- _; cbn [VPack.w VPack.d];
    repeat split; try (now apply py_max_ge_l); try (now apply leb_refl);
    try discriminate;
    intros v [= <-] Hv; now apply py_max_ge_r.
  - apply bind_Ok_inv in H as (ts & l1 & l2 & _ & H & _).
    apply bind_Ok_inv in H as (tk & l3 & l4 & _ & H & _).
    injection H as <- _. cbn [VPack.w VPack.d].
    repeat split; try (now apply leb_refl); discriminate.
  - injection H as <- _. cbn [VPack.w VPack.d].
    repeat split; try (now apply leb_refl); discriminate.
Qed.

Lemma depth_of_last_cons (p q : node) (rest : list node) :
  depth_of_last (p :: q :: rest) = depth_of_last (q :: rest).
Proof.
  unfold depth_of_last. cbn [rev].
  destruct (rev rest) as [|r rs]; cbn [app]; [reflexivity|].
  reflexivity.
Qed.

Lemma vpack_loop_grows (children : list node) (s s' : VPack.t)
    (log : list event) :
  vpack_loop children s = Ok s' log ->
  (VPack.w s =? VPack.w s) = true ->
  (VPack.w s <=? VPack.w s') = true /\
  VPack.d s' = match children with
               | [] => VPack.d s
               | _ :: _ => depth_of_last children
               end /\
  (forall p v, In p children -> width_in_vlist p = Some v ->
               (v =? v) = true -> (v <=? VPack.w s') = true).
Proof.
  revert s log.
  induction children as [|p rest IH]; intros s log H Hw.
  - injection H as <- _. repeat split; try (now apply leb_refl);
      intros p v [].
  - cbn [vpack_loop] in H.
    apply bind_Ok_inv in H as (s1 & l1 & l2 & H1 & H2 & _).
    destruct (vpack_step_grows _ _ _ _ H1 Hw) as (Hw1 & Hd1 & Hpw).
    destruct (IH _ _ H2) as (Hw2 & Hd2 & Hrw).
    { apply leb_number in Hw1. tauto. }
    repeat split.
    + now apply leb_trans with (VPack.w s1).
    + rewrite Hd2. destruct rest as [|q rest']; [exact Hd1|].
      symmetry. apply depth_of_last_cons.
    + intros q v [<- | Hin] Hq Hv.
      * apply leb_trans with (VPack.w s1); auto.
      * eauto.
Qed.

Lemma vpack_Ok_loop (class_name : string) (children : list node)
    (self self' : BoxList.t) (h : float) (m l : pyval) (log : list event) :
  vpack class_name children self h m l = Ok self' log ->
  exists s,
    vpack_loop children vpack_start = Ok s [] /\
    List.length (VPack.total_stretch s) = 4%nat /\
    List.length (VPack.total_shrink s) = 4%nat /\
    vpack_finish class_name children self h m l s = Ok self' log.
Proof.
  unfold vpack. intros H.
  destruct (vpack_loop children vpack_start) as [s log0 | e] eqn:E;
    [|discriminate].
  pose proof (vpack_loop_inv _ _ _ _ E) as (-> & Hls & Hlk).
  rewrite bind_Ok_nil in H. exists s. auto.
Qed.

(** What [vpack_finish] writes when the limit is a float. *)
Lemma vpack_finish_cases (class_name : string) (children : list node)
    (self self' : BoxList.t) (h : float) (m : pyval) (l : float)
    (s : VPack.t) (log : list event) :
  List.length (VPack.total_stretch s) = 4%nat ->
  List.length (VPack.total_shrink s) = 4%nat ->
  vpack_finish class_name children self h m (PyFloat l) s = Ok self' log ->
  let d := VPack.d s in
  let x := if py_gt d l then VPack.x s + (d - l) else VPack.x s in
  let depth := if py_gt d l then l else d in
  let height := if py_eq_str m "additional" then h + x else h in
  let surplus := height - x in
  let self0 :=
    set_height (set_depth (set_width self (VPack.w s)) depth) height in
  let totals :=
    if py_gt surplus 0 then VPack.total_stretch s else VPack.total_shrink s in
  let sign := (if py_gt surplus 0 then 1 else -1)%Z in
  let o := _determine_order totals in
  let total := nth (Z.to_nat o) totals 0 in
  self' =
    (if surplus =? 0
     then set_glue_ratio (set_glue_order (set_glue_sign self0 0) 0) 0
     else if py_ne total 0
          then set_glue_set (set_glue_sign (set_glue_order self0 o) sign)
                 (surplus / total)
          else set_glue_ratio
                 (set_glue_sign (set_glue_sign (set_glue_order self0 o) sign) 0)
                 0).
Proof.
  intros Hls Hlk H. cbv zeta.
  unfold vpack_finish in H. cbn [py_float_gt] in H.
  destruct (py_gt (VPack.d s) l); rewrite bind_ret in H; cbn [fst snd] in H;
    (destruct (_ =? 0);
     [injection H as <- _; reflexivity|
      destruct (py_gt _ 0);
      [rewrite _set_glue_spec in H by exact Hls|
       rewrite _set_glue_spec in H by exact Hlk];
      injection H as <- _; reflexivity]).
Qed.

(** X2.  The box that [vpack] computes, for a float limit [l].  Whenever
    [vpack(h, m, l)] returns: the depth of the list is the depth of its last
    child when that is a box, a rule or a list, and zero after glue or a kern
    or in an empty list, cut down to [l] when it is greater, so that it is
    never greater than the limit; what is cut off is added to the natural
    height [x], and the height is [h + x] in mode ['additional'] and [h]
    otherwise; the width is a number that is not negative and at least the
    shifted width of every child box whose width is not running. *)
Theorem vpack_depth_within_limit (class_name : string)
    (children : list node) (self self' : BoxList.t) (h : float) (m : pyval)
    (l : float) (log : list event) :
  vpack class_name children self h m (PyFloat l) = Ok self' log ->
  exists s,
    vpack_loop children vpack_start = Ok s [] /\
    let d := depth_of_last children in
    let x := if py_gt d l then VPack.x s + (d - l) else VPack.x s in
    BoxList.depth self' = (if py_gt d l then l else d) /\
    py_gt (BoxList.depth self') l = false /\
    BoxList.height self' = (if py_eq_str m "additional" then h + x else h) /\
    (0 <=? BoxList.width self') = true /\
    (forall p v, In p children -> width_in_vlist p = Some v ->
                 (v =? v) = true -> (v <=? BoxList.width self') = true).
Proof.
  intros H. apply vpack_Ok_loop in H as (s & Hloop & Hs1 & Hs2 & Hfin).
  exists s. split; [exact Hloop|].
  destruct (vpack_loop_grows _ _ _ _ Hloop eq_refl) as (Hw & Hd & Hpw).
  assert (Hd' : VPack.d s = depth_of_last children).
  { rewrite Hd. destruct children; reflexivity. }
  pose proof (vpack_finish_cases _ _ _ _ _ _ _ _ _ Hs1 Hs2 Hfin) as E.
  cbv zeta in E. rewrite Hd' in E. cbv zeta.
  assert (Hbox : BoxList.depth self'
                 = (if py_gt (depth_of_last children) l then l
                    else depth_of_last children) /\
                 BoxList.height self'
                 = (if py_eq_str m "additional"
                    then h + (if py_gt (depth_of_last children) l
                              then VPack.x s + (depth_of_last children - l)
                              else VPack.x s)
                    else h) /\
                 BoxList.width self' = VPack.w s).
  { rewrite E. destruct (_ =? 0); [|destruct (py_ne _ 0)]; repeat split. }
  destruct Hbox as (Hbd & Hbh & Hbw). rewrite Hbw.
  repeat split; try assumption.
  rewrite Hbd. unfold py_gt.
  destruct (l <? depth_of_last children) eqn:Hgt; [apply ltb_irrefl|exact Hgt].
Qed.

Lemma vpack_depth_within_limit_witness :
  exists self',
    vpack "Vlist" [Kern_init 1; Rule (Box_init 2 1 3)] List_init 0
      (PyStr "additional") (PyFloat 2) = Ok self' [] /\
    BoxList.depth self' = 2 /\ BoxList.height self' = 3 /\
    (2 <=? BoxList.width self') = true.
Proof.
  assert (H : vpack "Vlist" [Kern_init 1; Rule (Box_init 2 1 3)] List_init 0
                (PyStr "additional") (PyFloat 2)
              = Ok (BoxList.Build_t (Box.Build_t 0 2 3 2) 0 0 0 0 (Some 0)) []).
  { vm_compute. reflexivity. }
  eexists. split; [exact H|].
  destruct (vpack_depth_within_limit _ _ _ _ _ _ _ _ H)
    as (s & _ & Hd & _ & Hh & _ & Hw).
  split; [exact Hd|]. split; [reflexivity|].
  apply (Hw (Rule (Box_init 2 1 3)) (2 + 0) (or_intror (or_introl eq_refl))
           eq_refl eq_refl).
Defined.

(** X3.  Packing a Vlist again to the height it was packed to changes
    nothing: when [vpack(h, m, l)] has returned,
    [vpack(self.height, 'exactly', l)] on the same children returns with
    every attribute of the list as it was, and repeats the same warning, if
    there was one. *)
Theorem vpack_idempotent_at_packed_height (class_name : string)
    (children : list node) (self self1 : BoxList.t) (h : float) (m l : pyval)
    (log1 : list event) :
  vpack class_name children self h m l = Ok self1 log1 ->
  vpack class_name children self1 (BoxList.height self1) (PyStr "exactly") l
  = Ok self1 log1.
Proof.
  intros H. apply vpack_Ok_loop in H as (s & Hs & Hls & Hlk & Hf).
  unfold vpack. rewrite Hs, bind_Ok_nil.
  unfold vpack_finish in *.
  destruct (py_float_gt (VPack.d s) l) eqn:Egt.
  - destruct l as [str|lf]; [discriminate Hf|].
    rewrite bind_ret in Hf |- *. cbn [fst snd] in *.
    change (py_eq_str (PyStr "exactly") "additional") with false. cbv iota.
    set (x := VPack.x s + (VPack.d s - lf)) in *.
    set (height := if py_eq_str m "additional" then h + x else h) in *.
    assert (Hh : BoxList.height self1 = height).
    { destruct (height - x =? 0).
      - injection Hf as <- _. reflexivity.
      - destruct (py_gt (height - x) 0);
          [rewrite _set_glue_spec in Hf by exact Hls|
           rewrite _set_glue_spec in Hf by exact Hlk];
          injection Hf as <- _; destruct (py_ne _ 0); reflexivity. }
    rewrite Hh.
    destruct (height - x =? 0).
    + injection Hf as <- <-.
      destruct self as [[sz wd ht dp] sh gs gsi go gr]. reflexivity.
    + destruct (py_gt (height - x) 0);
        [rewrite _set_glue_spec in Hf |- * by exact Hls|
         rewrite _set_glue_spec in Hf |- * by exact Hlk];
        injection Hf as <- <-;
        destruct (py_ne _ 0);
        destruct self as [[sz wd ht dp] sh gs gsi go gr]; reflexivity.
  - rewrite bind_ret in Hf |- *. cbn [fst snd] in *.
    change (py_eq_str (PyStr "exactly") "additional") with false. cbv iota.
    set (x := VPack.x s) in *.
    set (height := if py_eq_str m "additional" then h + x else h) in *.
    assert (Hh : BoxList.height self1 = height).
    { destruct (height - x =? 0).
      - injection Hf as <- _. reflexivity.
      - destruct (py_gt (height - x) 0);
          [rewrite _set_glue_spec in Hf by exact Hls|
           rewrite _set_glue_spec in Hf by exact Hlk];
          injection Hf as <- _; destruct (py_ne _ 0); reflexivity. }
    rewrite Hh.
    destruct (height - x =? 0).
    + injection Hf as <- <-.
      destruct self as [[sz wd ht dp] sh gs gsi go gr]. reflexivity.
    + destruct (py_gt (height - x) 0);
        [rewrite _set_glue_spec in Hf |- * by exact Hls|
         rewrite _set_glue_spec in Hf |- * by exact Hlk];
        injection Hf as <- <-;
        destruct (py_ne _ 0);
        destruct self as [[sz wd ht dp] sh gs gsi go gr]; reflexivity.
Qed.

Lemma vpack_idempotent_at_packed_height_witness :
  exists self1,
    vpack "Vlist" [sample_fil; Rule (Box_init 2 1 3)] List_init 5
      (PyStr "additional") (PyFloat 2) = Ok self1 [] /\
    BoxList.height self1 = 7 /\ BoxList.glue_set self1 = 5 /\
    vpack "Vlist" [sample_fil; Rule (Box_init 2 1 3)] self1
      (BoxList.height self1) (PyStr "exactly") (PyFloat 2) = Ok self1 [].
Proof.
  assert (H : vpack "Vlist" [sample_fil; Rule (Box_init 2 1 3)] List_init 5
                (PyStr "additional") (PyFloat 2)
              = Ok (BoxList.Build_t (Box.Build_t 0 2 7 2) 0 5 1 1 None) []).
  { vm_compute. reflexivity. }
  eexists. split; [exact H|]. split; [reflexivity|]. split; [reflexivity|].
  apply (vpack_idempotent_at_packed_height _ _ _ _ _ _ _ _ H).
Defined.

(** ** Shipping a tree *)

(** Induction on a tree, the children of a list taken together. *)
Lemma node_tree_ind (P : node -> Prop) :
  (forall ch, P (Char ch)) -> (forall ch, P (Accent ch)) ->
  (forall b, P (Box b)) -> (forall b, P (Rule b)) ->
  (forall l children, Forall P children -> P (Hlist l children)) ->
  (forall l children, Forall P children -> P (Vlist l children)) ->
  (forall g, P (Glue g)) -> (forall k, P (Kern k)) ->
  forall p, P p.
Proof.
  intros HC HA HB HR HH HV HG HK.
  fix IH 1. intros [ch | ch | b | b | l children | l children | g | k];
    [apply HC | apply HA | apply HB | apply HR | apply HH | apply HV
    | apply HG | apply HK];
    induction children as [|c rest IHc]; constructor; auto.
Qed.

Lemma deepest_of_nonneg (children : list node) :
  (0 <= deepest_of nesting children)%Z.
Proof.
  induction children as [|p rest IH]; cbn [deepest_of]; lia.
Qed.

Lemma hlist_out_loop_cursor (l : BoxList.t) (base_line : float)
    (children : list node) :
  Forall cursor_restored children ->
  forall cur_g cur_glue self out log,
    hlist_out_loop hlist_out vlist_out l base_line children cur_g cur_glue self
    = Ok out log ->
    Ship.cur_v self = base_line ->
    (Ship.cur_s self <= Ship.max_push self)%Z ->
    ship_returns Ship.cur_v (deepest_of nesting children) self (fst (fst out)).
Proof.
  unfold ship_returns.
  induction 1 as [|p rest Hp _ IH]; intros cur_g cur_glue self out log H Hv Hs.
  - injection H as <- _. cbn [fst deepest_of]. repeat split. lia.
  - destruct p as [ch | ch | b | b | pl pc | pl pc | g | k];
      cbn [hlist_out_loop deepest_of] in H |- *.
    + apply bind_Ok_inv in H as (u & l1 & l2 & _ & H & _).
      apply IH in H; cbn [set_cur_h Ship.cur_v Ship.cur_s Ship.max_push
                            Ship.off_h Ship.off_v] in *; auto.
      destruct H as (? & ? & ? & ? & ?). repeat split; auto; lia.
    + apply bind_Ok_inv in H as (u & l1 & l2 & _ & H & _).
      apply IH in H; cbn [set_cur_h Ship.cur_v Ship.cur_s Ship.max_push
                            Ship.off_h Ship.off_v] in *; auto.
      destruct H as (? & ? & ? & ? & ?). repeat split; auto; lia.
    + destruct (_ && _); [discriminate|].
      apply IH in H; cbn [set_cur_h Ship.cur_v Ship.cur_s Ship.max_push
                            Ship.off_h Ship.off_v] in *; auto.
      destruct H as (? & ? & ? & ? & ?). repeat split; auto; lia.
    + destruct (_ && _); [discriminate|].
      apply IH in H; cbn [set_cur_h Ship.cur_v Ship.cur_s Ship.max_push
                            Ship.off_h Ship.off_v] in *; auto.
      destruct H as (? & ? & ? & ? & ?). repeat split; auto; lia.
    + destruct pc as [|c pc'].
      * apply IH in H; cbn [set_cur_h Ship.cur_v Ship.cur_s Ship.max_push
                              Ship.off_h Ship.off_v] in *; auto.
        destruct H as (? & ? & ? & ? & ?). repeat split; auto; lia.
      * apply bind_Ok_inv in H as (self1 & l1 & l2 & H1 & H & _).
        apply (proj1 Hp) in H1. destruct H1 as (_ & Hs1 & Hh1 & Hv1 & Hm1).
        cbn [set_cur_v Ship.cur_v Ship.cur_s Ship.max_push
               Ship.off_h Ship.off_v] in *.
        apply IH in H; cbn [set_cur_h set_cur_v Ship.cur_v Ship.cur_s
                              Ship.max_push Ship.off_h Ship.off_v] in *;
          auto; [|lia].
        destruct H as (? & ? & ? & ? & ?). repeat split; try congruence.
        lia.
    + destruct pc as [|c pc'].
      * apply IH in H; cbn [set_cur_h Ship.cur_v Ship.cur_s Ship.max_push
                              Ship.off_h Ship.off_v] in *; auto.
        destruct H as (? & ? & ? & ? & ?). repeat split; auto; lia.
      * apply bind_Ok_inv in H as (self1 & l1 & l2 & H1 & H & _).
        apply (proj2 Hp) in H1. destruct H1 as (_ & Hs1 & Hh1 & Hv1 & Hm1).
        cbn [set_cur_v Ship.cur_v Ship.cur_s Ship.max_push
               Ship.off_h Ship.off_v] in *.
        apply IH in H; cbn [set_cur_h set_cur_v Ship.cur_v Ship.cur_s
                              Ship.max_push Ship.off_h Ship.off_v] in *;
          auto; [|lia].
        destruct H as (? & ? & ? & ? & ?). repeat split; try congruence.
        lia.
    + destruct (glue_out _ _ _ _ _ _) as [[g1 gl1] rw].
      apply IH in H; cbn [set_cur_h Ship.cur_v Ship.cur_s Ship.max_push
                            Ship.off_h Ship.off_v] in *; auto.
      destruct H as (? & ? & ? & ? & ?). repeat split; auto; lia.
    + apply IH in H; cbn [set_cur_h Ship.cur_v Ship.cur_s Ship.max_push
                            Ship.off_h Ship.off_v] in *; auto.
      destruct H as (? & ? & ? & ? & ?). repeat split; auto; lia.
Qed.

Lemma vlist_out_loop_cursor (l : BoxList.t) (box_width left_edge : float)
    (children : list node) :
  Forall cursor_restored children ->
  forall cur_g cur_glue self out log,
    vlist_out_loop hlist_out vlist_out l box_width left_edge children cur_g
      cur_glue self = Ok out log ->
    Ship.cur_h self = left_edge ->
    (Ship.cur_s self <= Ship.max_push self)%Z ->
    ship_returns Ship.cur_h (deepest_of nesting children) self (fst (fst out)).
Proof.
  unfold ship_returns.
  induction 1 as [|p rest Hp _ IH]; intros cur_g cur_glue self out log H Hv Hs.
  - injection H as <- _. cbn [fst deepest_of]. repeat split. lia.
  - destruct p as [ch | ch | b | b | pl pc | pl pc | g | k];
      cbn [vlist_out_loop deepest_of] in H |- *; try discriminate.
    + destruct (_ && _).
      * apply bind_Ok_inv in H as (u & l1 & l2 & _ & H & _).
        apply IH in H; cbn [set_cur_v Ship.cur_v Ship.cur_h Ship.cur_s
                              Ship.max_push Ship.off_h Ship.off_v] in *; auto.
        destruct H as (? & ? & ? & ? & ?). repeat split; auto; lia.
      * apply IH in H; auto.
        destruct H as (? & ? & ? & ? & ?). repeat split; auto; lia.
    + destruct (_ && _).
      * apply bind_Ok_inv in H as (u & l1 & l2 & _ & H & _).
        apply IH in H; cbn [set_cur_v Ship.cur_v Ship.cur_h Ship.cur_s
                              Ship.max_push Ship.off_h Ship.off_v] in *; auto.
        destruct H as (? & ? & ? & ? & ?). repeat split; auto; lia.
      * apply IH in H; auto.
        destruct H as (? & ? & ? & ? & ?). repeat split; auto; lia.
    + destruct pc as [|c pc'].
      * apply IH in H; cbn [set_cur_v Ship.cur_v Ship.cur_h Ship.cur_s
                              Ship.max_push Ship.off_h Ship.off_v] in *; auto.
        destruct H as (? & ? & ? & ? & ?). repeat split; auto; lia.
      * apply bind_Ok_inv in H as (self1 & l1 & l2 & H1 & H & _).
        apply (proj1 Hp) in H1. destruct H1 as (_ & Hs1 & Hh1 & Hv1 & Hm1).
        cbn [set_cur_v set_cur_h Ship.cur_v Ship.cur_h Ship.cur_s
               Ship.max_push Ship.off_h Ship.off_v] in *.
        apply IH in H; cbn [set_cur_h set_cur_v Ship.cur_v Ship.cur_h
                              Ship.cur_s Ship.max_push Ship.off_h
                              Ship.off_v] in *;
          auto; [|lia].
        destruct H as (? & ? & ? & ? & ?). repeat split; try congruence.
        lia.
    + destruct pc as [|c pc'].
      * apply IH in H; cbn [set_cur_v Ship.cur_v Ship.cur_h Ship.cur_s
                              Ship.max_push Ship.off_h Ship.off_v] in *; auto.
        destruct H as (? & ? & ? & ? & ?). repeat split; auto; lia.
      * apply bind_Ok_inv in H as (self1 & l1 & l2 & H1 & H & _).
        apply (proj2 Hp) in H1. destruct H1 as (_ & Hs1 & Hh1 & Hv1 & Hm1).
        cbn [set_cur_v set_cur_h Ship.cur_v Ship.cur_h Ship.cur_s
               Ship.max_push Ship.off_h Ship.off_v] in *.
        apply IH in H; cbn [set_cur_h set_cur_v Ship.cur_v Ship.cur_h
                              Ship.cur_s Ship.max_push Ship.off_h
                              Ship.off_v] in *;
          auto; [|lia].
        destruct H as (? & ? & ? & ? & ?). repeat split; try congruence.
        lia.
    + destruct (glue_out _ _ _ _ _ _) as [[g1 gl1] rw].
      apply IH in H; cbn [set_cur_v Ship.cur_v Ship.cur_h Ship.cur_s
                            Ship.max_push Ship.off_h Ship.off_v] in *; auto.
      destruct H as (? & ? & ? & ? & ?). repeat split; auto; lia.
    + apply IH in H; cbn [set_cur_v Ship.cur_v Ship.cur_h Ship.cur_s
                            Ship.max_push Ship.off_h Ship.off_v] in *; auto.
      destruct H as (? & ? & ? & ? & ?). repeat split; auto; lia.
Qed.

Lemma cursor_restored_list (l : BoxList.t) (children : list node) :
  Forall cursor_restored children ->
  cursor_restored (Hlist l children) /\ cursor_restored (Vlist l children).
Proof.
  intros HF.
  assert (Hh : forall box l' children',
            (box = Hlist l' children' \/ box = Vlist l' children') ->
            Forall cursor_restored children' -> cursor_restored box).
  { clear. intros box l children Hbox HF. split.
    - intros self self' log H.
      assert (H' : exists out,
                hlist_out_loop hlist_out vlist_out l (Ship.cur_v self) children
                  0 0 (push self) = Ok out log /\ self' = pop (fst (fst out))).
      { destruct Hbox as [-> | ->]; cbn [hlist_out] in H;
          apply bind_Ok_inv in H as (out & l1 & l2 & H1 & H & ->);
          injection H as <- <-; rewrite app_nil_r; eauto. }
      destruct H' as (out & Hloop & ->).
      apply (hlist_out_loop_cursor _ _ _ HF) in Hloop;
        [|reflexivity|cbn [push Ship.cur_s Ship.max_push]; lia].
      pose proof (deepest_of_nonneg children) as Hn.
      assert (Hnest : nesting box = (1 + deepest_of nesting children)%Z)
        by (destruct Hbox as [-> | ->]; reflexivity).
      rewrite Hnest. unfold ship_returns in *.
      cbn [push pop Ship.cur_v Ship.cur_h Ship.cur_s Ship.max_push Ship.off_h
             Ship.off_v] in *.
      destruct Hloop as (? & ? & ? & ? & ?). repeat split; auto; lia.
    - intros box_width self self' log H.
      assert (H' : exists out,
                vlist_out_loop hlist_out vlist_out l box_width
                  (Ship.cur_h (push self)) children 0 0
                  (set_cur_v (push self)
                     (Ship.cur_v (push self) - BoxList.height l))
                = Ok out log /\ self' = pop (fst (fst out))).
      { destruct Hbox as [-> | ->]; cbn [vlist_out] in H;
          apply bind_Ok_inv in H as (out & l1 & l2 & H1 & H & ->);
          injection H as <- <-; rewrite app_nil_r; eauto. }
      destruct H' as (out & Hloop & ->).
      apply (vlist_out_loop_cursor _ _ _ _ HF) in Hloop;
        [|reflexivity|cbn [push set_cur_v Ship.cur_s Ship.max_push]; lia].
      pose proof (deepest_of_nonneg children) as Hn.
      assert (Hnest : nesting box = (1 + deepest_of nesting children)%Z)
        by (destruct Hbox as [-> | ->]; reflexivity).
      rewrite Hnest. unfold ship_returns in *.
      cbn [push pop set_cur_v Ship.cur_v Ship.cur_h Ship.cur_s Ship.max_push
             Ship.off_h Ship.off_v] in *.
      destruct Hloop as (? & ? & ? & ? & ?). repeat split; auto; lia. }
  split; eapply Hh; eauto.
Qed.

Lemma cursor_restored_all (p : node) : cursor_restored p.
Proof.
  induction p using node_tree_ind;
    try (split; intros; discriminate);
    now apply cursor_restored_list.
Qed.

(** X4.  The routines of [Ship] leave the cursor as a caller expects.  When
    [hlist_out] returns from a tree, the vertical position [cur_v], the level
    [cur_s] and both offsets are what they were at the call, and [max_push]
    is the greater of its old value and the level reached in the tree, which
    is the level at the call plus the nesting depth of the lists that were
    shipped; [vlist_out] returns in the same way with the horizontal position
    [cur_h] as it was.  So a whole [ship] ends at level 0 on the baseline it
    began on, with [max_push] the nesting depth of the tree. *)
Theorem ship_restores_cursor (box : node) :
  (forall self self' log,
     hlist_out box self = Ok self' log ->
     Ship.cur_v self' = Ship.cur_v self /\
     Ship.cur_s self' = Ship.cur_s self /\
     Ship.off_h self' = Ship.off_h self /\
     Ship.off_v self' = Ship.off_v self /\
     Ship.max_push self'
     = Z.max (Ship.max_push self) (Ship.cur_s self + nesting box)) /\
  (forall box_width self self' log,
     vlist_out box box_width self = Ok self' log ->
     Ship.cur_h self' = Ship.cur_h self /\
     Ship.cur_s self' = Ship.cur_s self /\
     Ship.off_h self' = Ship.off_h self /\
     Ship.off_v self' = Ship.off_v self /\
     Ship.max_push self'
     = Z.max (Ship.max_push self) (Ship.cur_s self + nesting box)) /\
  (forall ox oy self' log,
     ship ox oy box = Ok self' log ->
     Ship.cur_v self' = 0 /\ Ship.cur_s self' = 0%Z /\
     Ship.off_h self' = ox /\
     (exists height, node_height box = Ok height [] /\
                     Ship.off_v self' = oy + height) /\
     Ship.max_push self' = nesting box /\ (1 <= nesting box)%Z).
Proof.
  destruct (cursor_restored_all box) as [Hh Hv].
  split; [exact Hh|]. split; [exact Hv|].
  intros ox oy self' log H. unfold ship in H.
  apply bind_Ok_inv in H as (height & l1 & l2 & Hheight & H & _).
  assert (Hn : (1 <= nesting box)%Z).
  { destruct box as [ch | ch | b | b | l children | l children | g | k];
      try discriminate H; cbn [nesting];
      pose proof (deepest_of_nonneg children); lia. }
  apply Hh in H. destruct H as (H1 & H2 & H3 & H4 & H5).
  cbn [Ship.cur_v Ship.cur_s Ship.off_h Ship.off_v Ship.max_push] in *.
  repeat split; auto; try lia.
  exists height. split; [|exact H4].
  destruct box; try discriminate Hheight; injection Hheight as <- <-;
    reflexivity.
Qed.

Lemma drawn_glyphs_app (log1 log2 : list event) :
  drawn_glyphs (log1 ++ log2) = drawn_glyphs log1 ++ drawn_glyphs log2.
Proof. apply flat_map_app. Qed.

Lemma hlist_out_loop_glyphs (l : BoxList.t) (base_line : float)
    (children : list node) :
  Forall draws_glyphs children ->
  forall cur_g cur_glue self out log,
    hlist_out_loop hlist_out vlist_out l base_line children cur_g cur_glue self
    = Ok out log ->
    drawn_glyphs log = glyphs_of glyphs children.
Proof.
  induction 1 as [|p rest Hp _ IH]; intros cur_g cur_glue self out log H.
  - injection H as _ <-. reflexivity.
  - destruct p as [ch | ch | b | b | pl pc | pl pc | g | k];
      cbn [hlist_out_loop glyphs_of] in H |- *.
    + apply bind_Ok_inv in H as (u & l1 & l2 & H1 & H & ->).
      injection H1 as _ <-. rewrite drawn_glyphs_app.
      apply IH in H. rewrite H. reflexivity.
    + apply bind_Ok_inv in H as (u & l1 & l2 & H1 & H & ->).
      injection H1 as _ <-. rewrite drawn_glyphs_app.
      apply IH in H. rewrite H. reflexivity.
    + destruct (_ && _); [discriminate|]. apply IH in H. exact H.
    + destruct (_ && _); [discriminate|]. apply IH in H. exact H.
    + destruct pc as [|c pc'].
      * apply IH in H. exact H.
      * apply bind_Ok_inv in H as (self1 & l1 & l2 & H1 & H & ->).
        apply (proj1 Hp) in H1. apply IH in H.
        rewrite drawn_glyphs_app, H1, H. reflexivity.
    + destruct pc as [|c pc'].
      * apply IH in H. exact H.
      * apply bind_Ok_inv in H as (self1 & l1 & l2 & H1 & H & ->).
        apply (proj2 Hp) in H1. apply IH in H.
        rewrite drawn_glyphs_app, H1, H. reflexivity.
    + destruct (glue_out _ _ _ _ _ _) as [[g1 gl1] rw]. apply IH in H. exact H.
    + apply IH in H. exact H.
Qed.

Lemma vlist_out_loop_glyphs (l : BoxList.t) (box_width left_edge : float)
    (children : list node) :
  Forall draws_glyphs children ->
  forall cur_g cur_glue self out log,
    vlist_out_loop hlist_out vlist_out l box_width left_edge children cur_g
      cur_glue self = Ok out log ->
    drawn_glyphs log = glyphs_of glyphs children.
Proof.
  induction 1 as [|p rest Hp _ IH]; intros cur_g cur_glue self out log H.
  - injection H as _ <-. reflexivity.
  - destruct p as [ch | ch | b | b | pl pc | pl pc | g | k];
      cbn [vlist_out_loop glyphs_of] in H |- *; try discriminate.
    + destruct (_ && _).
      * apply bind_Ok_inv in H as (u & l1 & l2 & H1 & H & ->).
        injection H1 as _ <-. apply IH in H. exact H.
      * apply IH in H. exact H.
    + destruct (_ && _).
      * apply bind_Ok_inv in H as (u & l1 & l2 & H1 & H & ->).
        injection H1 as _ <-. rewrite drawn_glyphs_app.
        apply IH in H. exact H.
      * apply IH in H. exact H.
    + destruct pc as [|c pc'].
      * apply IH in H. exact H.
      * apply bind_Ok_inv in H as (self1 & l1 & l2 & H1 & H & ->).
        apply (proj1 Hp) in H1. apply IH in H.
        rewrite drawn_glyphs_app, H1, H. reflexivity.
    + destruct pc as [|c pc'].
      * apply IH in H. exact H.
      * apply bind_Ok_inv in H as (self1 & l1 & l2 & H1 & H & ->).
        apply (proj2 Hp) in H1. apply IH in H.
        rewrite drawn_glyphs_app, H1, H. reflexivity.
    + destruct (glue_out _ _ _ _ _ _) as [[g1 gl1] rw]. apply IH in H. exact H.
    + apply IH in H. exact H.
Qed.

Lemma draws_glyphs_all (p : node) : draws_glyphs p.
Proof.
  induction p as [ch | ch | b | b | l children HF | l children HF | g | k]
    using node_tree_ind;
    try (split; intros; discriminate).
  - split.
    + intros self self' log H. cbn [hlist_out] in H.
      apply bind_Ok_inv in H as (out & l1 & l2 & H1 & H & ->).
      injection H as _ <-. rewrite app_nil_r.
      apply (hlist_out_loop_glyphs _ _ _ HF) in H1. exact H1.
    + intros w self self' log H. cbn [vlist_out] in H.
      apply bind_Ok_inv in H as (out & l1 & l2 & H1 & H & ->).
      injection H as _ <-. rewrite app_nil_r.
      apply (vlist_out_loop_glyphs _ _ _ _ HF) in H1. exact H1.
  - split.
    + intros self self' log H. cbn [hlist_out] in H.
      apply bind_Ok_inv in H as (out & l1 & l2 & H1 & H & ->).
      injection H as _ <-. rewrite app_nil_r.
      apply (hlist_out_loop_glyphs _ _ _ HF) in H1. exact H1.
    + intros w self self' log H. cbn [vlist_out] in H.
      apply bind_Ok_inv in H as (out & l1 & l2 & H1 & H & ->).
      injection H as _ <-. rewrite app_nil_r.
      apply (vlist_out_loop_glyphs _ _ _ _ HF) in H1. exact H1.
Qed.

(** X5.  Shipping draws every glyph once, in the order of the text.  When
    [ship] returns, the calls of [render_glyph] in its log are, in order, the
    [Char] and [Accent] nodes of the tree from left to right and top to
    bottom, each with its own font, symbol, font size and dpi: no glyph is
    left out, drawn twice or drawn out of order, whatever glue, kerns, rules
    and shifts lie between them. *)
Theorem ship_draws_glyphs_in_order (ox oy : float) (box : node)
    (self' : Ship.t) (log : list event) :
  ship ox oy box = Ok self' log ->
  drawn_glyphs log = glyphs box.
Proof.
  unfold ship. intros H.
  apply bind_Ok_inv in H as (height & l1 & l2 & Hheight & H & ->).
  assert (l1 = []) as ->.
  { destruct box; try discriminate Hheight; now injection Hheight as _ <-. }
  apply (proj1 (draws_glyphs_all box)) in H. exact H.
Qed.

Lemma ship_draws_glyphs_in_order_witness :
  exists self' log,
    ship 1 2 sample_tree = Ok self' log /\
    List.length log = 3%nat /\
    drawn_glyphs log = [glyph_of sample_char; glyph_of sample_comma].
Proof.
  assert (H : ship 1 2 sample_tree
              = Ok (Ship.Build_t 3 0 0 4 1 2)
                  [render_glyph 1 2 (FontStr "it") "x" 8 72;
                   render_glyph 5 2.125 (FontStr "it") "," 8 72;
                   render_rect_filled 5 4.2249999999999996 5
                     6.2249999999999996]).
  { vm_compute. reflexivity. }
  do 2 eexists. split; [exact H|]. split; [reflexivity|].
  apply (ship_draws_glyphs_in_order _ _ _ _ _ H).
Defined.

Lemma bind_Ok_ex {A B : Type} (m : result A) (f : A -> result B) :
  (exists b log, bind m f = Ok b log)
  <-> (exists a log1, m = Ok a log1 /\ exists b log2, f a = Ok b log2).
Proof.
  split.
  - intros (b & log & H).
    apply bind_Ok_inv in H as (a & l1 & l2 & H1 & H2 & _). eauto 6.
  - intros (a & l1 & -> & b & l2 & H). unfold bind. rewrite H. eauto.
Qed.

Lemma hlist_out_loop_ships (l : BoxList.t) (base_line : float)
    (children : list node) :
  Forall ships_decided children ->
  forall cur_g cur_glue self,
    (exists out log,
       hlist_out_loop hlist_out vlist_out l base_line children cur_g cur_glue
         self = Ok out log)
    <-> forallb (hlist_child_ships ships_h ships_v l) children = true.
Proof.
  induction 1 as [|p rest Hp _ IH]; intros cur_g cur_glue self.
  - split; [reflexivity|intros _; do 2 eexists; reflexivity].
  - cbn [forallb]. rewrite andb_true_iff.
    destruct p as [ch | ch | b | b | pl pc | pl pc | g | k];
      cbn [hlist_out_loop hlist_child_ships].
    + rewrite bind_Ok_ex. unfold Char_render, emit. split.
      * intros (a & l1 & _ & H). apply IH in H. auto.
      * intros [_ H]. do 2 eexists. split; [reflexivity|]. now apply IH.
    + rewrite bind_Ok_ex. unfold Accent_render, emit. split.
      * intros (a & l1 & _ & H). apply IH in H. auto.
      * intros [_ H]. do 2 eexists. split; [reflexivity|]. now apply IH.
    + destruct (_ && _); cbn [negb].
      * split; [intros (? & ? & ?); discriminate|intros [? _]; discriminate].
      * rewrite IH. tauto.
    + destruct (_ && _); cbn [negb].
      * split; [intros (? & ? & ?); discriminate|intros [? _]; discriminate].
      * rewrite IH. tauto.
    + destruct pc as [|c pc'].
      * rewrite IH. tauto.
      * rewrite bind_Ok_ex. split.
        -- intros (a & l1 & H1 & H). apply IH in H. split; [|exact H].
           eapply (proj1 Hp). eauto.
        -- intros [H1 H].
           destruct (proj2 (proj1 Hp (set_cur_v self
                                        (base_line + BoxList.shift_amount pl)))
                       H1) as (a & l1 & H1').
           clear H1. rename H1' into H1.
           exists a, l1. split; [exact H1|]. now apply IH.
    + destruct pc as [|c pc'].
      * rewrite IH. tauto.
      * rewrite bind_Ok_ex. split.
        -- intros (a & l1 & H1 & H). apply IH in H. split; [|exact H].
           eapply (proj2 Hp). eauto.
        -- intros [H1 H].
           destruct (proj2 (proj2 Hp (BoxList.width pl)
                              (set_cur_v self
                                 (base_line + BoxList.shift_amount pl)))
                       H1) as (a & l1 & H1').
           clear H1. rename H1' into H1.
           exists a, l1. split; [exact H1|]. now apply IH.
    + destruct (glue_out _ _ _ _ _ _) as [[g1 gl1] rw]. rewrite IH. tauto.
    + rewrite IH. tauto.
Qed.

Lemma vlist_out_loop_ships (l : BoxList.t) (box_width left_edge : float)
    (children : list node) :
  Forall ships_decided children ->
  forall cur_g cur_glue self,
    (exists out log,
       vlist_out_loop hlist_out vlist_out l box_width left_edge children cur_g
         cur_glue self = Ok out log)
    <-> forallb (vlist_child_ships ships_h ships_v) children = true.
Proof.
  induction 1 as [|p rest Hp _ IH]; intros cur_g cur_glue self.
  - split; [reflexivity|intros _; do 2 eexists; reflexivity].
  - cbn [forallb]. rewrite andb_true_iff.
    destruct p as [ch | ch | b | b | pl pc | pl pc | g | k];
      cbn [vlist_out_loop vlist_child_ships].
    + split; [intros (? & ? & ?); discriminate|intros [? _]; discriminate].
    + split; [intros (? & ? & ?); discriminate|intros [? _]; discriminate].
    + destruct (_ && _).
      * rewrite bind_Ok_ex. unfold Box_render. split.
        -- intros (a & l1 & _ & H). apply IH in H. auto.
        -- intros [_ H]. do 2 eexists. split; [reflexivity|]. now apply IH.
      * rewrite IH. tauto.
    + destruct (_ && _).
      * rewrite bind_Ok_ex. unfold Rule_render, emit. split.
        -- intros (a & l1 & _ & H). apply IH in H. auto.
        -- intros [_ H]. do 2 eexists. split; [reflexivity|]. now apply IH.
      * rewrite IH. tauto.
    + destruct pc as [|c pc'].
      * rewrite IH. tauto.
      * rewrite bind_Ok_ex. split.
        -- intros (a & l1 & H1 & H). apply IH in H. split; [|exact H].
           eapply (proj1 Hp). eauto.
        -- intros [H1 H].
           destruct (proj2 (proj1 Hp
                              (set_cur_h
                                 (set_cur_v self
                                    (Ship.cur_v self + BoxList.height pl))
                                 (left_edge + BoxList.shift_amount pl)))
                       H1) as (a & l1 & H1').
           clear H1. rename H1' into H1.
           exists a, l1. split; [exact H1|]. now apply IH.
    + destruct pc as [|c pc'].
      * rewrite IH. tauto.
      * rewrite bind_Ok_ex. split.
        -- intros (a & l1 & H1 & H). apply IH in H. split; [|exact H].
           eapply (proj2 Hp). eauto.
        -- intros [H1 H].
           destruct (proj2 (proj2 Hp box_width
                              (set_cur_h
                                 (set_cur_v self
                                    (Ship.cur_v self + BoxList.height pl))
                                 (left_edge + BoxList.shift_amount pl)))
                       H1) as (a & l1 & H1').
           clear H1. rename H1' into H1.
           exists a, l1. split; [exact H1|]. now apply IH.
    + destruct (glue_out _ _ _ _ _ _) as [[g1 gl1] rw]. rewrite IH. tauto.
    + rewrite IH. tauto.
Qed.

Lemma ships_decided_list (l : BoxList.t) (children : list node) (box : node) :
  box = Hlist l children \/ box = Vlist l children ->
  Forall ships_decided children -> ships_decided box.
Proof.
  intros Hbox HF. split.
  - intros self.
    destruct Hbox as [-> | ->]; cbn [hlist_out ships_h];
      rewrite <- (hlist_out_loop_ships l (Ship.cur_v self) children HF 0 0
                    (push self));
      rewrite bind_Ok_ex;
      (split; [intros (a & l1 & H & _); eauto|
               intros (a & l1 & H); exists a, l1; split; [exact H|];
               do 2 eexists; reflexivity]).
  - intros box_width self.
    destruct Hbox as [-> | ->]; cbn [vlist_out ships_v];
      rewrite <- (vlist_out_loop_ships l box_width (Ship.cur_h (push self))
                    children HF 0 0
                    (set_cur_v (push self)
                       (Ship.cur_v (push self) - BoxList.height l)));
      rewrite bind_Ok_ex;
      (split; [intros (a & l1 & H & _); eauto|
               intros (a & l1 & H); exists a, l1; split; [exact H|];
               do 2 eexists; reflexivity]).
Qed.

Lemma ships_decided_all (p : node) : ships_decided p.
Proof.
  induction p as [ch | ch | b | b | l children HF | l children HF | g | k]
    using node_tree_ind;
    try (split; intros; cbn;
         (split; [intros (? & ? & E); discriminate E|intros E; discriminate E])).
  - apply (ships_decided_list l children); [left; reflexivity|exact HF].
  - apply (ships_decided_list l children); [right; reflexivity|exact HF].
Qed.

(** X6.  When shipping fails.  [ship] returns from a tree exactly when the
    tree has none of the two obstacles under its lists, wherever it is drawn:
    a [Char] that is a direct child of a list shipped by [vlist_out], and a
    box or rule with positive height (for a running height, the height of the
    enclosing list) and positive width that is a direct child of a list
    shipped by [hlist_out].  Child lists without children are stepped over
    and never looked into, and the root is shipped by [hlist_out] whatever
    its class.  Whether the routines return does not depend on the position
    of the cursor, the offsets or the glue settings. *)
Theorem ship_returns_iff_ships (box : node) :
  (forall ox oy,
     (exists self' log, ship ox oy box = Ok self' log) <-> ships_h box = true) /\
  (forall self,
     (exists self' log, hlist_out box self = Ok self' log)
     <-> ships_h box = true) /\
  (forall box_width self,
     (exists self' log, vlist_out box box_width self = Ok self' log)
     <-> ships_v box = true).
Proof.
  destruct (ships_decided_all box) as [Hh Hv].
  split; [|split; [exact Hh|exact Hv]].
  intros ox oy. unfold ship. rewrite bind_Ok_ex. split.
  - intros (a & l1 & _ & H). eapply Hh. eauto.
  - intros H.
    destruct box as [ch | ch | b | b | l children | l children | g | k];
      try discriminate H;
      do 2 eexists; (split; [reflexivity|]); eapply Hh; exact H.
Qed.

(** ** Kerning *)




(** ** Shrinking a tree *)

Lemma List_shrink_keeps (l : BoxList.t) :
  BoxList.size (List_shrink l) = Z.succ (BoxList.size l) /\
  BoxList.glue_sign (List_shrink l) = BoxList.glue_sign l /\
  BoxList.glue_order (List_shrink l) = BoxList.glue_order l.
Proof.
  destruct l as [[sz w h d] sh gs gsi go gr].
  unfold List_shrink, Box_shrink, BoxList.size.
  cbn [BoxList.box set_box Box.size Box.width Box.height Box.depth].
  destruct (sz + 1 <? NUM_SIZE_LEVELS)%Z eqn:E;
    cbn [BoxList.box set_box Box.size Box.width Box.height Box.depth];
    rewrite E; repeat split.
Qed.

Lemma shrink_list (font_output : Fonts) (l : BoxList.t) (children : list node) :
  shrink font_output (Hlist l children)
  = (children' <- shrink_each font_output children ;;
     ret (Hlist (List_shrink l) children')) /\
  shrink font_output (Vlist l children)
  = (children' <- shrink_each font_output children ;;
     ret (Vlist (List_shrink l) children')).
Proof. split; reflexivity. Qed.

Lemma shrink_each_keeps (font_output : Fonts) (children : list node) :
  Forall (shrink_keeps font_output) children ->
  (forall children' log,
     shrink_each font_output children = Ok children' log ->
     map shape_of children' = map shape_of children /\
     flat_map sizes children' = map Z.succ (flat_map sizes children)) /\
  (forallb accent_free children = true ->
   exists children', shrink_each font_output children = Ok children' []).
Proof.
  induction 1 as [|p rest Hp _ IH]; split.
  - intros children' log H. injection H as <- _. split; reflexivity.
  - intros _. exists []. reflexivity.
  - intros children' log H. cbn [shrink_each] in H.
    apply bind_Ok_inv in H as (p' & l1 & l2 & H1 & H & _).
    apply bind_Ok_inv in H as (rest' & l3 & l4 & H2 & H & _).
    injection H as <- _.
    apply (proj1 Hp) in H1 as [Hs1 Hz1]. apply (proj1 IH) in H2 as [Hs2 Hz2].
    cbn [map flat_map]. rewrite Hs1, Hs2, Hz1, Hz2, map_app. split; reflexivity.
  - cbn [forallb]. intros Hf. apply andb_true_iff in Hf as [Hf1 Hf2].
    apply (proj2 Hp) in Hf1 as [p' Hp']. apply (proj2 IH) in Hf2 as [rest' Hr'].
    exists (p' :: rest'). cbn [shrink_each]. rewrite Hp', Hr'. reflexivity.
Qed.

Lemma shrink_keeps_all (font_output : Fonts) (p : node) :
  shrink_keeps font_output p.
Proof.
  induction p as [ch | ch | b | b | l children HF | l children HF | g | k]
    using node_tree_ind.
  - split; [|intros _; eexists; reflexivity].
    intros p' log H. injection H as <- _. unfold Char_shrink.
    destruct (_ <? _)%Z; split; reflexivity.
  - split; [|discriminate].
    intros p' log H. cbn [shrink] in H.
    apply bind_Ok_inv in H as (ch' & l1 & l2 & H1 & H & _).
    injection H as <- _. unfold Accent_shrink, Accent__update_metrics in H1.
    apply bind_Ok_inv in H1 as (m & l3 & l4 & _ & H1 & _).
    injection H1 as <- _. unfold Char_shrink.
    destruct (_ <? _)%Z; split; reflexivity.
  - split; [|intros _; eexists; reflexivity].
    intros p' log H. injection H as <- _. unfold Box_shrink.
    destruct (_ <? _)%Z; split; reflexivity.
  - split; [|intros _; eexists; reflexivity].
    intros p' log H. injection H as <- _. unfold Box_shrink.
    destruct (_ <? _)%Z; split; reflexivity.
  - destruct (shrink_each_keeps font_output children HF) as [Hk Ht].
    destruct (List_shrink_keeps l) as (Hz & Hs & Ho).
    unfold shrink_keeps.
    rewrite (proj1 (shrink_list font_output l children)). split.
    + intros p' log H.
      apply bind_Ok_inv in H as (children' & l1 & l2 & H1 & H & _).
      injection H as <- _. apply Hk in H1 as [H1 H2].
      cbn [shape_of sizes map]. rewrite H1, H2, Hz, Hs, Ho. split; reflexivity.
    + intros Hf. cbn [accent_free] in Hf. apply Ht in Hf as [children' ->].
      eexists. reflexivity.
  - destruct (shrink_each_keeps font_output children HF) as [Hk Ht].
    destruct (List_shrink_keeps l) as (Hz & Hs & Ho).
    unfold shrink_keeps.
    rewrite (proj2 (shrink_list font_output l children)). split.
    + intros p' log H.
      apply bind_Ok_inv in H as (children' & l1 & l2 & H1 & H & _).
      injection H as <- _. apply Hk in H1 as [H1 H2].
      cbn [shape_of sizes map]. rewrite H1, H2, Hz, Hs, Ho. split; reflexivity.
    + intros Hf. cbn [accent_free] in Hf. apply Ht in Hf as [children' ->].
      eexists. reflexivity.
  - split; [|intros _; eexists; reflexivity].
    intros p' log H. injection H as <- _. unfold Glue_shrink.
    destruct (_ && _); split; reflexivity.
  - split; [|intros _; eexists; reflexivity].
    intros p' log H. injection H as <- _. unfold Kern_shrink.
    destruct (_ <? _)%Z; split; reflexivity.
Qed.

(** X8.  [shrink] changes sizes, never the structure.  When [shrink] returns
    from a tree, the tree has the same nodes of the same classes in the same
    order, every [Char] with its symbol, font, dpi and metrics, all glue with
    its stretch and shrink and their orders, every list with its glue sign
    and order; and the size level of every node of the tree, the children of
    lists at any depth included, is one more than it was.  On a tree without
    an [Accent], [shrink] always returns, asks the font nothing and emits
    nothing. *)
Theorem shrink_keeps_structure (font_output : Fonts) (p : node) :
  (forall p' log,
     shrink font_output p = Ok p' log ->
     shape_of p' = shape_of p /\ sizes p' = map Z.succ (sizes p)) /\
  (accent_free p = true -> exists p', shrink font_output p = Ok p' []).
Proof. apply shrink_keeps_all. Qed.

(** ** The glyph that AutoHeightChar chooses *)

Lemma hpack_finish_ok (class_name : string) (children : list node)
    (self : BoxList.t) (w : float) (m : pyval) (s : HPack.t) :
  List.length (HPack.total_stretch s) = 4%nat ->
  List.length (HPack.total_shrink s) = 4%nat ->
  exists self' log, hpack_finish class_name children self w m s = Ok self' log.
Proof.
  intros Hls Hlk. unfold hpack_finish.
  destruct (_ =? 0); [do 2 eexists; reflexivity|].
  destruct (py_gt _ 0); rewrite _set_glue_spec by assumption;
    do 2 eexists; reflexivity.
Qed.

Lemma hpack_ok (class_name : string) (children : list node)
    (self : BoxList.t) (w : float) (m : pyval) :
  glue_orders_ok children = true ->
  exists self' log,
    hpack class_name children self w m = Ok self' log /\
    BoxList.shift_amount self' = BoxList.shift_amount self.
Proof.
  intros Hg.
  destruct (hpack_loop_ok children hpack_start Hg eq_refl eq_refl) as [s Hs].
  pose proof (hpack_loop_inv _ _ _ _ Hs) as (_ & Hls & Hlk).
  destruct (hpack_finish_ok class_name children self w m s Hls Hlk)
    as (self' & log & Hf).
  exists self', log. rewrite (hpack_after_loop _ _ _ _ _ _ Hs). split; [exact Hf|].
  apply (hpack_finish_box _ _ _ _ _ _ _ _ Hls Hlk Hf).
Qed.

(** [Hlist([char])] for a single [Char]: the font is not asked for kerning. *)
Lemma Hlist_of_Char (font_output : Fonts) (ch : Char.t) :
  exists l rest log,
    Hlist_ font_output [Char ch] = Ok (Hlist l (Char ch :: rest)) log /\
    BoxList.shift_amount l = 0.
Proof.
  unfold Hlist_, Hlist_init. cbn [kern get_kerning hd_error].
  rewrite !bind_ret.
  set (children := if py_ne _ 0 then _ else _).
  assert (Hc : exists rest, children = Char ch :: rest /\
                            glue_orders_ok children = true).
  { subst children. destruct (py_ne _ 0); eexists; split; reflexivity. }
  destruct Hc as (rest & Hc & Hg).
  destruct (hpack_ok "Hlist" children List_init 0 (PyStr "additional") Hg)
    as (l & log & -> & Hsh).
  exists l, rest, log. rewrite Hc. split; [|exact Hsh].
  cbn [bind ret]. rewrite app_nil_r. reflexivity.
Qed.

Lemma last_cons_default {A : Type} (x d : A) (l : list A) :
  List.last (x :: l) d = List.last l x.
Proof.
  revert x d. induction l as [|y l IH]; intros x d; [reflexivity|].
  change (List.last (x :: y :: l) d) with (List.last (y :: l) d).
  rewrite !IH. reflexivity.
Qed.

Lemma last_map_Some {A : Type} (l : list A) (d : A) :
  List.last (map Some l) (Some d) = Some (List.last l d).
Proof.
  revert d. induction l as [|y l IH]; intros d; [reflexivity|].
  cbn [map]. rewrite !last_cons_default. apply IH.
Qed.

Lemma AutoHeightChar_loop_chooses (font_output : Fonts)
    (metrics_of : font_name -> string -> float -> float -> Metrics.t)
    (alternatives : list (font_name * string)) (state : State.t)
    (target_total : float) (bound : option (Char.t * string * State.t)) :
  (forall font sym fontsize dpi,
     get_metrics font_output font sym fontsize dpi
     = Ok (metrics_of font sym fontsize dpi) []) ->
  AutoHeightChar_loop font_output alternatives state target_total bound
  = Ok match chosen_alternative metrics_of state target_total alternatives with
       | Some (fontname, sym) =>
           Some (Char_assign_metrics 0 sym fontname (State.fontsize state)
                   (State.dpi state)
                   (metrics_of fontname sym (State.fontsize state)
                      (State.dpi state)),
                 sym,
                 {| State.font := fontname;
                    State.fontsize := State.fontsize state;
                    State.dpi := State.dpi state |})
       | None => bound
       end [].
Proof.
  intros Hm. revert state bound.
  induction alternatives as [|[fontname sym] rest IH]; intros state bound.
  - reflexivity.
  - cbn [AutoHeightChar_loop]. unfold Char_init.
    cbn [State.font State.fontsize State.dpi].
    rewrite Hm, bind_Ok_nil, bind_ret.
    unfold chosen_alternative. cbn [find map].
    change (glyph_total metrics_of state (fontname, sym))
      with (Char.height
              (Char_assign_metrics 0 sym fontname (State.fontsize state)
                 (State.dpi state)
                 (metrics_of fontname sym (State.fontsize state)
                    (State.dpi state)))
            + Char.depth
                (Char_assign_metrics 0 sym fontname (State.fontsize state)
                   (State.dpi state)
                   (metrics_of fontname sym (State.fontsize state)
                      (State.dpi state)))).
    destruct (py_ge _ target_total); [reflexivity|].
    rewrite IH. unfold chosen_alternative.
    cbn [State.font State.fontsize State.dpi].
    change (glyph_total metrics_of
              {| State.font := fontname; State.fontsize := State.fontsize state;
                 State.dpi := State.dpi state |})
      with (glyph_total metrics_of state).
    destruct (find _ rest) as [[f s]|]; [reflexivity|].
    rewrite (last_cons_default (Some (fontname, sym))), last_map_Some.
    destruct rest as [|a rest']; [reflexivity|].
    cbn [map]. rewrite !last_cons_default, last_map_Some.
    destruct (List.last rest' a) as [f s]. reflexivity.
Qed.

Lemma chosen_alternative_None
    (metrics_of : font_name -> string -> float -> float -> Metrics.t)
    (state : State.t) (target_total : float)
    (alternatives : list (font_name * string)) :
  chosen_alternative metrics_of state target_total alternatives = None ->
  alternatives = [].
Proof.
  unfold chosen_alternative. destruct (find _ _); [discriminate|].
  destruct alternatives as [|a rest]; [reflexivity|].
  cbn [map]. rewrite last_cons_default, last_map_Some. discriminate.
Qed.

(** X9.  The glyph of [AutoHeightChar].  For a font object that answers the
    metrics [metrics_of] and the alternatives [alternatives] for the symbol:
    the glyph taken is the first alternative whose height plus depth, at the
    font size of the state, reaches [height + depth], and the last
    alternative when none does; without any alternative the constructor
    raises the [NameError] of its unbound [char]; when the glyph taken has
    height plus depth zero it raises [ZeroDivisionError]; otherwise it
    returns an Hlist whose first child is that glyph in its own font at the
    font size of the state times [(height + depth) / (its height plus
    depth)], shifted by [depth] less the depth of the rescaled glyph. *)
Theorem AutoHeightChar_chooses (font_output : Fonts)
    (metrics_of : font_name -> string -> float -> float -> Metrics.t)
    (c : string) (height depth : float) (state : State.t)
    (alternatives : list (font_name * string)) :
  (forall font sym fontsize dpi,
     get_metrics font_output font sym fontsize dpi
     = Ok (metrics_of font sym fontsize dpi) []) ->
  get_sized_alternatives_for_symbol font_output (State.font state) c
  = Ok alternatives [] ->
  match chosen_alternative metrics_of state (height + depth) alternatives with
  | None =>
      alternatives = [] /\
      AutoHeightChar font_output c height depth state = Raise (NameError "char")
  | Some (fontname, sym) =>
      let total := glyph_total metrics_of state (fontname, sym) in
      if total =? 0 then
        AutoHeightChar font_output c height depth state
        = Raise ZeroDivisionError
      else
        let fontsize := State.fontsize state * ((height + depth) / total) in
        let char :=
          Char_assign_metrics 0 sym fontname fontsize (State.dpi state)
            (metrics_of fontname sym fontsize (State.dpi state)) in
        exists l rest log,
          AutoHeightChar font_output c height depth state
          = Ok (Hlist l (Char char :: rest)) log /\
          BoxList.shift_amount l = depth - Char.depth char
  end.
Proof.
  intros Hm Halts. unfold AutoHeightChar.
  rewrite Halts, bind_Ok_nil.
  rewrite (AutoHeightChar_loop_chooses _ metrics_of _ _ _ _ Hm), bind_Ok_nil.
  destruct (chosen_alternative _ _ _ _) as [[fontname sym]|] eqn:E.
  - cbv zeta.
    change (Char.height
              (Char_assign_metrics 0 sym fontname (State.fontsize state)
                 (State.dpi state)
                 (metrics_of fontname sym (State.fontsize state)
                    (State.dpi state)))
            + Char.depth
                (Char_assign_metrics 0 sym fontname (State.fontsize state)
                   (State.dpi state)
                   (metrics_of fontname sym (State.fontsize state)
                      (State.dpi state))))
      with (glyph_total metrics_of state (fontname, sym)).
    unfold py_div.
    destruct (glyph_total metrics_of state (fontname, sym) =? 0);
      [reflexivity|].
    rewrite bind_ret. unfold Char_init.
    cbn [State.font State.fontsize State.dpi].
    rewrite Hm, bind_Ok_nil, bind_ret.
    match goal with
    | |- context [Hlist_ font_output [Char ?ch]] =>
        destruct (Hlist_of_Char font_output ch) as (l & rest & log & Hl & Hsh);
        rewrite Hl
    end.
    exists (set_shift_amount l
              (depth
               - Char.depth
                   (Char_assign_metrics 0 sym fontname
                      (State.fontsize state
                       * ((height + depth)
                          / glyph_total metrics_of state (fontname, sym)))
                      (State.dpi state)
                      (metrics_of fontname sym
                         (State.fontsize state
                          * ((height + depth)
                             / glyph_total metrics_of state (fontname, sym)))
                         (State.dpi state))))),
      rest, (log ++ []).
    split; reflexivity.
  - split; [|reflexivity]. eapply chosen_alternative_None, E.
Qed.

Lemma AutoHeightChar_chooses_witness :
  exists l rest log,
    AutoHeightChar sample_fonts "\__sqrt__" 5 1 sample_state
    = Ok (Hlist l
            (Char
               (Char_assign_metrics 0 "\__sqrt__" (FontStr "it") (8 * (6 / 10))
                  72 (sample_metrics "\__sqrt__" (8 * (6 / 10))))
             :: rest)) log /\
    BoxList.shift_amount l
    = 1 - Char.depth
            (Char_assign_metrics 0 "\__sqrt__" (FontStr "it") (8 * (6 / 10))
               72 (sample_metrics "\__sqrt__" (8 * (6 / 10)))).
Proof.
  exact (AutoHeightChar_chooses sample_fonts
           (fun font sym fontsize dpi => sample_metrics sym fontsize)
           "\__sqrt__" 5 1 sample_state [(FontStr "it", "\__sqrt__"%string)]
           (fun _ _ _ _ => eq_refl) eq_refl).
Defined.

(** ** Fractions *)

Lemma HCentered_inv (elements : list node) (p : node) (log : list event) :
  HCentered elements = Ok p log ->
  exists l,
    p = Hlist l (ss_glue :: elements ++ [ss_glue]) /\
    hpack "HCentered" (ss_glue :: elements ++ [ss_glue]) List_init 0
      (PyStr "additional") = Ok l log.
Proof.
  unfold HCentered. change SsGlue with (ret ss_glue). rewrite !bind_ret.
  intros H. apply bind_Ok_inv in H as (l & l1 & l2 & Hl & H & ->).
  injection H as <- <-. rewrite app_nil_r. exists l. split; [reflexivity|exact Hl].
Qed.

Lemma Hlist_hpack_inv (class_name : string) (p p' : node) (w : float)
    (m : pyval) (log : list event) :
  Hlist_hpack class_name p w m = Ok p' log ->
  exists l children l',
    p = Hlist l children /\ p' = Hlist l' children /\
    hpack class_name children l w m = Ok l' log.
Proof.
  destruct p as [ch | ch | b | b | l children | l children | g | k];
    try discriminate.
  cbn [Hlist_hpack]. intros H.
  apply bind_Ok_inv in H as (l' & l1 & l2 & Hl & H & ->).
  injection H as <- <-. rewrite app_nil_r. eauto 6.
Qed.

Lemma hpack_width (class_name : string) (children : list node)
    (self self' : BoxList.t) (w : float) (m : pyval) (log : list event) :
  hpack class_name children self w m = Ok self' log ->
  exists s,
    hpack_loop children hpack_start = Ok s [] /\
    BoxList.width self'
    = (if py_eq_str m "additional" then w + HPack.x s else w).
Proof.
  intros H. apply hpack_Ok_loop in H as (s & Hs & Hls & Hlk & Hf).
  exists s. split; [exact Hs|].
  apply (hpack_finish_width _ _ _ _ _ _ _ _ Hls Hlk Hf).
Qed.

(** X10.  The tree of a fraction.  When [Parser.frac] returns, the tree is an
    Hlist of a Vlist and a thin [Hbox]; the Vlist holds, from the top, the
    numerator row, a space, a rule of running width, a space and the
    denominator row; each row is the shrunk numerator or denominator between
    two [SsGlue], and both rows are packed to exactly the same width, the
    greater of the two shrunk widths plus ten rule thicknesses.  Shipping the
    tree draws the glyphs of the numerator before those of the denominator
    and nothing else, and it returns exactly when the shrunk numerator and
    denominator can be shipped inside their rows. *)
Theorem frac_tree (font_output : Fonts) (num den : node) (state : State.t)
    (tree : node) (log : list event) :
  frac font_output num den state = Ok tree log ->
  exists thickness num' den' l vl cn cd hrule log1 log2 log3,
    get_underline_thickness font_output (State.font state)
      (State.fontsize state) (State.dpi state) = Ok thickness log1 /\
    shrink font_output num = Ok num' log2 /\
    shrink font_output den = Ok den' log3 /\
    tree = Hlist l
             [Vlist vl
                [Hlist cn [ss_glue; num'; ss_glue];
                 Vbox 0 (thickness * 2.0);
                 Rule hrule;
                 Vbox 0 (thickness * 4.0);
                 Hlist cd [ss_glue; den'; ss_glue]];
              Hbox (thickness * 2.0)] /\
    (exists num_width den_width,
       node_width num' = Ok num_width [] /\
       node_width den' = Ok den_width [] /\
       BoxList.width cn = py_max num_width den_width + thickness * 10.0 /\
       BoxList.width cd = py_max num_width den_width + thickness * 10.0) /\
    Box.width hrule = inf /\
    glyphs tree = glyphs_of glyphs [num'] ++ glyphs_of glyphs [den'] /\
    ships_h tree
    = hlist_child_ships ships_h ships_v cn num'
      && hlist_child_ships ships_h ships_v cd den'.
Proof.
  unfold frac. intros H.
  apply bind_Ok_inv in H as (thickness & log1 & r1 & Ht & H & _).
  apply bind_Ok_inv in H as (num' & log2 & r2 & Hn & H & _).
  apply bind_Ok_inv in H as (den' & log3 & r3 & Hd & H & _).
  apply bind_Ok_inv in H as (cnum & l4 & r4 & Hcn & H & _).
  apply bind_Ok_inv in H as (cden & l5 & r5 & Hcd & H & _).
  apply bind_Ok_inv in H as (wn & l6 & r6 & Hwn & H & _).
  apply bind_Ok_inv in H as (wd & l7 & r7 & Hwd & H & _).
  apply bind_Ok_inv in H as (cnum' & l8 & r8 & Hpn & H & _).
  apply bind_Ok_inv in H as (cden' & l9 & r9 & Hpd & H & _).
  apply bind_Ok_inv in H as (hrule & l10 & r10 & Hr & H & _).
  apply bind_Ok_inv in H as (vlist & l11 & r11 & Hv & H & _).
  apply bind_Ok_inv in H as (metrics & l12 & r12 & _ & H & _).
  apply bind_Ok_inv in H as (cden_height & l13 & r13 & _ & H & _).
  apply HCentered_inv in Hcn as (cn0 & -> & _).
  apply HCentered_inv in Hcd as (cd0 & -> & _).
  apply Hlist_hpack_inv in Hpn as (? & ? & cn & [= <- <-] & -> & Hpn).
  apply Hlist_hpack_inv in Hpd as (? & ? & cd & [= <- <-] & -> & Hpd).
  apply hpack_width in Hpn as (sn & _ & Hpn).
  apply hpack_width in Hpd as (sd & _ & Hpd).
  unfold Hrule in Hr.
  apply bind_Ok_inv in Hr as (t' & l14 & r14 & _ & Hr & _).
  injection Hr as <- _.
  unfold Vlist_ in Hv. apply Vlist_init_inv in Hv as (vl & ->).
  cbn [node_set_shift_amount] in H.
  unfold Hlist_, Hlist_init in H.
  rewrite kern_without_Char in H by reflexivity. rewrite bind_Ok_nil in H.
  apply bind_Ok_inv in H as (l & l15 & r15 & _ & H & _).
  injection H as <- _.
  assert (Hwn' : node_width num' = Ok wn []).
  { destruct num'; try discriminate Hwn; injection Hwn as <- _; reflexivity. }
  assert (Hwd' : node_width den' = Ok wd []).
  { destruct den'; try discriminate Hwd; injection Hwd as <- _; reflexivity. }
  exists thickness, num', den', l, (set_shift_amount vl
    (cden_height
     - ((Metrics.ymax metrics + Metrics.ymin metrics) / 2 - thickness * 3.0))),
    cn, cd, (Box_init inf (t' * 0.5) (t' * 0.5)), log1, log2, log3.
  repeat (split; [first [assumption | reflexivity]|]).
  split; [exists wn, wd; auto|]. split; [reflexivity|]. split.
  - cbn [glyphs glyphs_of Vbox Hbox app]. rewrite !app_nil_r.
    destruct num', den'; reflexivity.
  - cbn [ships_h ships_v forallb hlist_child_ships vlist_child_ships Vbox Hbox
           ss_glue Box_init Box.height Box.width isinf].
    change (is_infinity 0) with false. cbv iota.
    change (py_gt 0 0) with false. cbn [andb negb].
    rewrite !andb_true_r. reflexivity.
Qed.

Lemma frac_tree_witness :
  exists tree num' den',
    frac sample_fonts (Char sample_char) sample_body sample_state = Ok tree [] /\
    shrink sample_fonts (Char sample_char) = Ok num' [] /\
    shrink sample_fonts sample_body = Ok den' [] /\
    glyphs tree = glyphs_of glyphs [num'] ++ glyphs_of glyphs [den'].
Proof.
  assert (H : exists tree,
            frac sample_fonts (Char sample_char) sample_body sample_state
            = Ok tree []).
  { eexists. vm_compute. reflexivity. }
  destruct H as [tree H].
  destruct (frac_tree _ _ _ _ _ _ H)
    as (t & n & d & l & vl & cn & cd & hr & l1 & l2 & l3 & _ & Hn & Hd & _ & _
        & _ & Hg & _).
  exists tree, n, d. split; [exact H|].
  assert (l2 = []) as -> by (vm_compute in Hn; injection Hn as _ <-; reflexivity).
  assert (l3 = []) as -> by (vm_compute in Hd; injection Hd as _ <-; reflexivity).
  auto.
Defined.

(** ** Subscripts and superscripts *)







(** ** The measured bounding box *)

Lemma py_min_cases (a b : float) :
  (py_min a b = a /\ (b <? a) = false) \/ (py_min a b = b /\ (b <? a) = true).
Proof.
  unfold py_min. destruct (b <? a); auto.
Qed.

Lemma py_min_le_l (a b : float) :
  (a =? a) = true -> (py_min a b <=? a) = true.
Proof.
  intros Ha. destruct (py_min_cases a b) as [[-> _]|[-> H]].
  - now apply leb_refl.
  - now apply ltb_leb.
Qed.

Lemma py_min_le_r (a b : float) :
  (a =? a) = true -> (b =? b) = true -> (py_min a b <=? b) = true.
Proof.
  intros Ha Hb. destruct (py_min_cases a b) as [[-> H]|[-> H]].
  - now apply not_ltb_leb.
  - now apply leb_refl.
Qed.

Lemma _update_bbox_grows (self : Bbox.t) (x1 y1 x2 y2 : float) :
  around_origin self ->
  around_origin (_update_bbox self x1 y1 x2 y2) /\
  reaches (_update_bbox self x1 y1 x2 y2) x1 y1 x2 y2 /\
  (forall a b c d,
     reaches self a b c d -> reaches (_update_bbox self x1 y1 x2 y2) a b c d).
Proof.
  intros (H1 & H2 & H3 & H4).
  pose proof (proj1 (leb_number _ _ H1)) as N1.
  pose proof (proj1 (leb_number _ _ H2)) as N2.
  pose proof (proj2 (leb_number _ _ H3)) as N3.
  pose proof (proj2 (leb_number _ _ H4)) as N4.
  unfold around_origin, reaches, _update_bbox.
  cbn [Bbox.x1 Bbox.y1 Bbox.x2 Bbox.y2].
  pose proof (py_min_le_l _ x1 N1) as L1.
  pose proof (py_min_le_l _ y1 N2) as L2.
  pose proof (py_max_ge_l _ x2 N3) as L3.
  pose proof (py_max_ge_l _ y2 N4) as L4.
  repeat split.
  - exact (leb_trans _ _ _ L1 H1).
  - exact (leb_trans _ _ _ L2 H2).
  - exact (leb_trans _ _ _ H3 L3).
  - exact (leb_trans _ _ _ H4 L4).
  - intros N. now apply py_min_le_r.
  - intros N. now apply py_min_le_r.
  - intros N. now apply py_max_ge_r.
  - intros N. now apply py_max_ge_r.
  - intros N. apply (leb_trans _ _ _ L1). now apply H.
  - intros N. apply (leb_trans _ _ _ L2). now apply H.
  - intros N. apply leb_trans with (Bbox.x2 self); [now apply H|exact L3].
  - intros N. apply leb_trans with (Bbox.y2 self); [now apply H|exact L4].
Qed.

Lemma Bbox_draw_grows
    (metrics_of : font_name -> string -> float -> float -> Metrics.t)
    (self : Bbox.t) (call : event) :
  around_origin self ->
  around_origin (Bbox_draw metrics_of self call) /\
  (forall x1 y1 x2 y2,
     covered metrics_of call = Some (x1, y1, x2, y2) ->
     reaches (Bbox_draw metrics_of self call) x1 y1 x2 y2) /\
  (forall a b c d,
     reaches self a b c d -> reaches (Bbox_draw metrics_of self call) a b c d).
Proof.
  intros H.
  destruct call as [t c | m | ox oy font sym fontsize dpi | x1 y1 x2 y2];
    cbn [Bbox_draw covered].
  - split; [exact H|]. split; [intros ? ? ? ? E; discriminate E|auto].
  - split; [exact H|]. split; [intros ? ? ? ? E; discriminate E|auto].
  - destruct (_update_bbox_grows self
                (ox + Metrics.xmin (metrics_of font sym fontsize dpi))
                (oy - Metrics.ymax (metrics_of font sym fontsize dpi))
                (ox + Metrics.xmax (metrics_of font sym fontsize dpi))
                (oy - Metrics.ymin (metrics_of font sym fontsize dpi)) H)
      as (Ha & Hr & Hm).
    split; [exact Ha|]. split; [|exact Hm].
    intros a b c d [= <- <- <- <-]. exact Hr.
  - destruct (_update_bbox_grows self x1 y1 x2 y2 H) as (Ha & Hr & Hm).
    split; [exact Ha|]. split; [|exact Hm].
    intros a b c d [= <- <- <- <-]. exact Hr.
Qed.

Lemma Bbox_draw_all_grows
    (metrics_of : font_name -> string -> float -> float -> Metrics.t)
    (log : list event) (self : Bbox.t) :
  around_origin self ->
  around_origin (Bbox_draw_all metrics_of log self) /\
  (forall call x1 y1 x2 y2,
     In call log -> covered metrics_of call = Some (x1, y1, x2, y2) ->
     reaches (Bbox_draw_all metrics_of log self) x1 y1 x2 y2) /\
  (forall a b c d,
     reaches self a b c d ->
     reaches (Bbox_draw_all metrics_of log self) a b c d).
Proof.
  revert self. induction log as [|call rest IH]; intros self H.
  - split; [exact H|]. split; [intros ? ? ? ? ? []|auto].
  - destruct (Bbox_draw_grows metrics_of self call H) as (Ha & Hr & Hm).
    destruct (IH _ Ha) as (Ha' & Hr' & Hm').
    unfold Bbox_draw_all in *. cbn [fold_left].
    split; [exact Ha'|]. split.
    + intros c x1 y1 x2 y2 [<- | Hin] Hc; eauto.
    + intros a b c d Hx. auto.
Qed.

(** X13.  The measured bounding box holds everything that was drawn.  After
    the measuring backend has received the drawing calls of a log, whatever
    they are, the four sides of its [bbox] are numbers, the box holds the
    origin, and it reaches the ink of every glyph drawn (the glyph's [xmin],
    [xmax], [ymin], [ymax] placed at the origin of the call) and every
    filled rectangle, on each side whose coordinate is a number; a
    coordinate that is [nan] is never taken into the box. *)
Theorem Bbox_holds_every_call
    (metrics_of : font_name -> string -> float -> float -> Metrics.t)
    (log : list event) :
  around_origin (Bbox_draw_all metrics_of log Bbox_init) /\
  forall call x1 y1 x2 y2,
    In call log -> covered metrics_of call = Some (x1, y1, x2, y2) ->
    reaches (Bbox_draw_all metrics_of log Bbox_init) x1 y1 x2 y2.
Proof.
  assert (H0 : around_origin Bbox_init) by (repeat split).
  destruct (Bbox_draw_all_grows metrics_of log Bbox_init H0) as (Ha & Hr & _).
  split; assumption.
Qed.

(** ** The two passes of the measuring backend *)

Lemma hlist_out_loop_offsets (l : BoxList.t) (base_line : float)
    (children : list node) (ox oy : float) :
  Forall offsets_free children ->
  forall cur_g cur_glue self out log,
    hlist_out_loop hlist_out vlist_out l base_line children cur_g cur_glue self
    = Ok out log ->
    exists log2,
      hlist_out_loop hlist_out vlist_out l base_line children cur_g cur_glue
        (reoffset self ox oy)
      = Ok (reoffset (fst (fst out)) ox oy, snd (fst out), snd out) log2 /\
      map call_shape log2 = map call_shape log.
Proof.
  induction 1 as [|p rest Hp _ IH]; intros cur_g cur_glue self out log H.
  - injection H as <- <-. exists []. split; reflexivity.
  - destruct p as [ch | ch | b | b | pl pc | pl pc | g | k];
      cbn [hlist_out_loop] in H |- *.
    + apply bind_Ok_inv in H as (u & l1 & l2 & H1 & H & ->).
      injection H1 as _ <-.
      destruct (IH _ _ _ _ _ H) as (log2 & H2 & Hs).
      eexists. split.
      * unfold Char_render, emit. cbn [bind].
        change (set_cur_h (reoffset self ox oy)
                  (Ship.cur_h (reoffset self ox oy) + Char.width ch))
          with (reoffset (set_cur_h self (Ship.cur_h self + Char.width ch))
                  ox oy).
        rewrite H2. reflexivity.
      * cbn [map app call_shape]. rewrite Hs. reflexivity.
    + apply bind_Ok_inv in H as (u & l1 & l2 & H1 & H & ->).
      injection H1 as _ <-.
      destruct (IH _ _ _ _ _ H) as (log2 & H2 & Hs).
      eexists. split.
      * unfold Accent_render, emit. cbn [bind].
        change (set_cur_h (reoffset self ox oy)
                  (Ship.cur_h (reoffset self ox oy) + Char.width ch))
          with (reoffset (set_cur_h self (Ship.cur_h self + Char.width ch))
                  ox oy).
        rewrite H2. reflexivity.
      * cbn [map app call_shape]. rewrite Hs. reflexivity.
    + destruct (_ && _); [discriminate|]. exact (IH _ _ _ _ _ H).
    + destruct (_ && _); [discriminate|]. exact (IH _ _ _ _ _ H).
    + destruct pc as [|c pc']; [exact (IH _ _ _ _ _ H)|].
      apply bind_Ok_inv in H as (self1 & l1 & l2 & H1 & H & ->).
      destruct (proj1 Hp _ _ _ ox oy H1) as (l1' & H1' & Hs1).
      destruct (IH _ _ _ _ _ H) as (l2' & H2' & Hs2).
      exists (l1' ++ l2'). split.
      * change (set_cur_v (reoffset self ox oy)
                  (base_line + BoxList.shift_amount pl))
          with (reoffset (set_cur_v self (base_line + BoxList.shift_amount pl))
                  ox oy).
        rewrite H1'. cbn [bind].
        change (set_cur_v
                  (set_cur_h (reoffset self1 ox oy)
                     (Ship.cur_h (reoffset self ox oy) + BoxList.width pl))
                  base_line)
          with (reoffset
                  (set_cur_v
                     (set_cur_h self1 (Ship.cur_h self + BoxList.width pl))
                     base_line) ox oy).
        rewrite H2'. reflexivity.
      * rewrite !map_app, Hs1, Hs2. reflexivity.
    + destruct pc as [|c pc']; [exact (IH _ _ _ _ _ H)|].
      apply bind_Ok_inv in H as (self1 & l1 & l2 & H1 & H & ->).
      destruct (proj2 Hp _ _ _ _ ox oy H1) as (l1' & H1' & Hs1).
      destruct (IH _ _ _ _ _ H) as (l2' & H2' & Hs2).
      exists (l1' ++ l2'). split.
      * change (set_cur_v (reoffset self ox oy)
                  (base_line + BoxList.shift_amount pl))
          with (reoffset (set_cur_v self (base_line + BoxList.shift_amount pl))
                  ox oy).
        rewrite H1'. cbn [bind].
        change (set_cur_v
                  (set_cur_h (reoffset self1 ox oy)
                     (Ship.cur_h (reoffset self ox oy) + BoxList.width pl))
                  base_line)
          with (reoffset
                  (set_cur_v
                     (set_cur_h self1 (Ship.cur_h self + BoxList.width pl))
                     base_line) ox oy).
        rewrite H2'. reflexivity.
      * rewrite !map_app, Hs1, Hs2. reflexivity.
    + destruct (glue_out _ _ _ _ _ _) as [[g1 gl1] rw].
      exact (IH _ _ _ _ _ H).
    + exact (IH _ _ _ _ _ H).
Qed.

Lemma vlist_out_loop_offsets (l : BoxList.t) (box_width left_edge : float)
    (children : list node) (ox oy : float) :
  Forall offsets_free children ->
  forall cur_g cur_glue self out log,
    vlist_out_loop hlist_out vlist_out l box_width left_edge children cur_g
      cur_glue self = Ok out log ->
    exists log2,
      vlist_out_loop hlist_out vlist_out l box_width left_edge children cur_g
        cur_glue (reoffset self ox oy)
      = Ok (reoffset (fst (fst out)) ox oy, snd (fst out), snd out) log2 /\
      map call_shape log2 = map call_shape log.
Proof.
  induction 1 as [|p rest Hp _ IH]; intros cur_g cur_glue self out log H.
  - injection H as <- <-. exists []. split; reflexivity.
  - destruct p as [ch | ch | b | b | pl pc | pl pc | g | k];
      cbn [vlist_out_loop] in H |- *; try discriminate.
    + destruct (_ && _); [|exact (IH _ _ _ _ _ H)].
      apply bind_Ok_inv in H as (u & l1 & l2 & H1 & H & ->).
      injection H1 as _ <-.
      destruct (IH _ _ _ _ _ H) as (log2 & H2 & Hs).
      exists log2. split; [|exact Hs].
      unfold Box_render. rewrite bind_ret. exact H2.
    + destruct (_ && _); [|exact (IH _ _ _ _ _ H)].
      apply bind_Ok_inv in H as (u & l1 & l2 & H1 & H & ->).
      injection H1 as _ <-.
      destruct (IH _ _ _ _ _ H) as (log2 & H2 & Hs).
      eexists. split.
      * unfold Rule_render, emit. cbn [bind].
        change (set_cur_v (reoffset self ox oy)
                  (Ship.cur_v (reoffset self ox oy)
                   + (Box.height b + Box.depth b)))
          with (reoffset
                  (set_cur_v self
                     (Ship.cur_v self + (Box.height b + Box.depth b))) ox oy).
        rewrite H2. reflexivity.
      * cbn [map app call_shape]. rewrite Hs. reflexivity.
    + destruct pc as [|c pc']; [exact (IH _ _ _ _ _ H)|].
      apply bind_Ok_inv in H as (self1 & l1 & l2 & H1 & H & ->).
      destruct (proj1 Hp _ _ _ ox oy H1) as (l1' & H1' & Hs1).
      destruct (IH _ _ _ _ _ H) as (l2' & H2' & Hs2).
      exists (l1' ++ l2'). split.
      * change (set_cur_h
                  (set_cur_v (reoffset self ox oy)
                     (Ship.cur_v (reoffset self ox oy) + BoxList.height pl))
                  (left_edge + BoxList.shift_amount pl))
          with (reoffset
                  (set_cur_h
                     (set_cur_v self (Ship.cur_v self + BoxList.height pl))
                     (left_edge + BoxList.shift_amount pl)) ox oy).
        rewrite H1'. cbn [bind].
        match type of H2' with
        | vlist_out_loop _ _ _ _ _ _ _ _ ?s = _ =>
            match goal with
            | |- context [vlist_out_loop _ _ _ _ _ rest cur_g cur_glue ?s'] =>
                change s' with s
            end
        end.
        rewrite H2'. reflexivity.
      * rewrite !map_app, Hs1, Hs2. reflexivity.
    + destruct pc as [|c pc']; [exact (IH _ _ _ _ _ H)|].
      apply bind_Ok_inv in H as (self1 & l1 & l2 & H1 & H & ->).
      destruct (proj2 Hp _ _ _ _ ox oy H1) as (l1' & H1' & Hs1).
      destruct (IH _ _ _ _ _ H) as (l2' & H2' & Hs2).
      exists (l1' ++ l2'). split.
      * change (set_cur_h
                  (set_cur_v (reoffset self ox oy)
                     (Ship.cur_v (reoffset self ox oy) + BoxList.height pl))
                  (left_edge + BoxList.shift_amount pl))
          with (reoffset
                  (set_cur_h
                     (set_cur_v self (Ship.cur_v self + BoxList.height pl))
                     (left_edge + BoxList.shift_amount pl)) ox oy).
        rewrite H1'. cbn [bind].
        match type of H2' with
        | vlist_out_loop _ _ _ _ _ _ _ _ ?s = _ =>
            match goal with
            | |- context [vlist_out_loop _ _ _ _ _ rest cur_g cur_glue ?s'] =>
                change s' with s
            end
        end.
        rewrite H2'. reflexivity.
      * rewrite !map_app, Hs1, Hs2. reflexivity.
    + destruct (glue_out _ _ _ _ _ _) as [[g1 gl1] rw].
      exact (IH _ _ _ _ _ H).
    + exact (IH _ _ _ _ _ H).
Qed.

Lemma offsets_free_list (l : BoxList.t) (children : list node) (box : node) :
  box = Hlist l children \/ box = Vlist l children ->
  Forall offsets_free children -> offsets_free box.
Proof.
  intros Hbox HF. split.
  - intros self self' log ox oy H.
    assert (H' : exists out,
              hlist_out_loop hlist_out vlist_out l (Ship.cur_v self) children
                0 0 (push self) = Ok out log /\ self' = pop (fst (fst out))).
    { destruct Hbox as [-> | ->]; cbn [hlist_out] in H;
        apply bind_Ok_inv in H as (out & l1 & l2 & H1 & H & ->);
        injection H as <- <-; rewrite app_nil_r; eauto. }
    destruct H' as (out & Hloop & ->).
    destruct (hlist_out_loop_offsets l _ _ ox oy HF _ _ _ _ _ Hloop)
      as (log2 & H2 & Hs).
    exists log2. split; [|exact Hs].
    destruct Hbox as [-> | ->]; cbn [hlist_out];
      change (push (reoffset self ox oy)) with (reoffset (push self) ox oy);
      change (Ship.cur_v (reoffset self ox oy)) with (Ship.cur_v self);
      rewrite H2; cbn [bind ret fst app]; rewrite app_nil_r; reflexivity.
  - intros box_width self self' log ox oy H.
    assert (H' : exists out,
              vlist_out_loop hlist_out vlist_out l box_width
                (Ship.cur_h (push self)) children 0 0
                (set_cur_v (push self)
                   (Ship.cur_v (push self) - BoxList.height l))
              = Ok out log /\ self' = pop (fst (fst out))).
    { destruct Hbox as [-> | ->]; cbn [vlist_out] in H;
        apply bind_Ok_inv in H as (out & l1 & l2 & H1 & H & ->);
        injection H as <- <-; rewrite app_nil_r; eauto. }
    destruct H' as (out & Hloop & ->).
    destruct (vlist_out_loop_offsets l _ _ _ ox oy HF _ _ _ _ _ Hloop)
      as (log2 & H2 & Hs).
    exists log2. split; [|exact Hs].
    destruct Hbox as [-> | ->]; cbn [vlist_out];
      change (set_cur_v (push (reoffset self ox oy))
                (Ship.cur_v (push (reoffset self ox oy)) - BoxList.height l))
        with (reoffset
                (set_cur_v (push self)
                   (Ship.cur_v (push self) - BoxList.height l)) ox oy);
      change (Ship.cur_h (push (reoffset self ox oy)))
        with (Ship.cur_h (push self));
      rewrite H2; cbn [bind ret fst app]; rewrite app_nil_r; reflexivity.
Qed.

Lemma offsets_free_all (p : node) : offsets_free p.
Proof.
  induction p as [ch | ch | b | b | l children HF | l children HF | g | k]
    using node_tree_ind;
    try (split; intros; discriminate).
  - apply (offsets_free_list l children); [left; reflexivity|exact HF].
  - apply (offsets_free_list l children); [right; reflexivity|exact HF].
Qed.

Lemma ship_list (ox oy : float) (box : node) (l : BoxList.t)
    (children : list node) :
  box = Hlist l children \/ box = Vlist l children ->
  ship ox oy box
  = hlist_out box
      {| Ship.max_push := 0; Ship.cur_s := 0; Ship.cur_v := 0; Ship.cur_h := 0;
         Ship.off_h := ox; Ship.off_v := oy + BoxList.height l |}.
Proof.
  intros [-> | ->]; unfold ship; cbn [node_height]; rewrite bind_ret;
    reflexivity.
Qed.

(** X14.  The two passes of [MathtextBackendBbox.get_results].  It returns
    exactly when the tree can be shipped.  When it returns, the measuring
    pass from the origin has returned too, and the real backend has received
    the same drawing calls in the same order, glyph for glyph and rectangle
    for rectangle, only with other coordinates: they are the glyphs of the
    tree in the order of the text.  The origin handed to the real backend is
    the upper left corner of the measured box, whose coordinates are never
    positive. *)
Theorem Bbox_get_results_passes
    (metrics_of : font_name -> string -> float -> float -> Metrics.t)
    (box : node) :
  ((exists canvas log,
      MathtextBackendBbox_get_results metrics_of box = Ok canvas log)
   <-> ships_h box = true) /\
  (forall canvas log,
     MathtextBackendBbox_get_results metrics_of box = Ok canvas log ->
     exists self measured,
       ship 0 0 box = Ok self measured /\
       map call_shape log = map call_shape measured /\
       drawn_glyphs log = glyphs box /\
       Canvas.ox canvas
       = Bbox.x1 (Bbox_draw_all metrics_of measured Bbox_init) /\
       Canvas.oy canvas
       = Bbox.y1 (Bbox_draw_all metrics_of measured Bbox_init) /\
       (Canvas.ox canvas <=? 0) = true /\
       (Canvas.oy canvas <=? 0) = true).
Proof.
  assert (Hlist_case : forall l children,
            box = Hlist l children \/ box = Vlist l children ->
            MathtextBackendBbox_get_results metrics_of box
            = match ship 0 0 box with
              | Ok _ measured =>
                  let self := Bbox_draw_all metrics_of measured Bbox_init in
                  ship (- (Bbox.x1 self - 1)) (- (Bbox.y1 self - 1)) box ;;;
                  ret {| Canvas.ox := Bbox.x1 self;
                         Canvas.oy := Bbox.y1 self;
                         Canvas.width :=
                           ceil (Bbox.x2 self + 1 - (Bbox.x1 self - 1));
                         Canvas.height :=
                           ceil ((Bbox.y2 self + 1 - (Bbox.y1 self - 1))
                                 - BoxList.depth l);
                         Canvas.depth :=
                           ceil ((Bbox.y2 self + 1 - (Bbox.y1 self - 1))
                                 - BoxList.height l) |}
              | Raise e => Raise e
              end).
  { intros l children [-> | ->]; reflexivity. }
  destruct box as [ch | ch | b | b | l children | l children | g | k];
    try (split; [split; [intros (? & ? & E); discriminate E
                        |intros E; discriminate E]
                |intros ? ? E; discriminate E]).
  - rewrite (Hlist_case l children (or_introl eq_refl)). clear Hlist_case.
    pose proof (ship_list 0 0 _ l children (or_introl eq_refl)) as E0.
    split.
    + rewrite <- (proj1 (ships_decided_all (Hlist l children))
                    {| Ship.max_push := 0; Ship.cur_s := 0; Ship.cur_v := 0;
                       Ship.cur_h := 0; Ship.off_h := 0;
                       Ship.off_v := 0 + BoxList.height l |}).
      rewrite <- E0. split.
      * intros (canvas & log & H).
        destruct (ship 0 0 (Hlist l children)) as [st m|e]; [eauto|discriminate].
      * intros (st & measured & H). rewrite H.
        rewrite E0 in H.
        destruct (proj1 (offsets_free_all (Hlist l children)) _ _ _
                    (- (Bbox.x1 (Bbox_draw_all metrics_of measured Bbox_init) - 1))
                    (- (Bbox.y1 (Bbox_draw_all metrics_of measured Bbox_init) - 1)
                     + BoxList.height l) H) as (log2 & H2 & _).
        cbv zeta. rewrite (ship_list _ _ _ l children (or_introl eq_refl)).
        unfold reoffset in H2. cbn [Ship.max_push Ship.cur_s Ship.cur_v
                                      Ship.cur_h] in H2.
        rewrite H2. do 2 eexists. reflexivity.
    + intros canvas log H.
      destruct (ship 0 0 (Hlist l children)) as [st measured|e] eqn:E1;
        [|discriminate].
      exists st, measured. split; [reflexivity|].
      cbv zeta in H.
      apply bind_Ok_inv in H as (st2 & l1 & l2 & E2 & H & ->).
      injection H as <- <-. rewrite app_nil_r.
      clear E1. symmetry in E0. rename E0 into E1.
      rewrite (ship_list _ _ _ l children (or_introl eq_refl)) in E2.
      destruct (proj1 (offsets_free_all (Hlist l children)) _ _ _
                  (- (Bbox.x1 (Bbox_draw_all metrics_of measured Bbox_init) - 1))
                  (- (Bbox.y1 (Bbox_draw_all metrics_of measured Bbox_init) - 1)
                   + BoxList.height l) E1) as (log2 & H2 & Hs).
      unfold reoffset in H2. cbn [Ship.max_push Ship.cur_s Ship.cur_v
                                    Ship.cur_h] in H2.
      rewrite H2 in E2. injection E2 as _ <-.
      split; [exact Hs|].
      split; [exact (proj1 (draws_glyphs_all (Hlist l children)) _ _ _ H2)|].
      cbn [Canvas.ox Canvas.oy].
      destruct (Bbox_draw_all_grows metrics_of measured Bbox_init)
        as ((Hx & Hy & _) & _); [repeat split|].
      auto.
  - rewrite (Hlist_case l children (or_intror eq_refl)). clear Hlist_case.
    pose proof (ship_list 0 0 _ l children (or_intror eq_refl)) as E0.
    split.
    + rewrite <- (proj1 (ships_decided_all (Vlist l children))
                    {| Ship.max_push := 0; Ship.cur_s := 0; Ship.cur_v := 0;
                       Ship.cur_h := 0; Ship.off_h := 0;
                       Ship.off_v := 0 + BoxList.height l |}).
      rewrite <- E0. split.
      * intros (canvas & log & H).
        destruct (ship 0 0 (Vlist l children)) as [st m|e]; [eauto|discriminate].
      * intros (st & measured & H). rewrite H.
        rewrite E0 in H.
        destruct (proj1 (offsets_free_all (Vlist l children)) _ _ _
                    (- (Bbox.x1 (Bbox_draw_all metrics_of measured Bbox_init) - 1))
                    (- (Bbox.y1 (Bbox_draw_all metrics_of measured Bbox_init) - 1)
                     + BoxList.height l) H) as (log2 & H2 & _).
        cbv zeta. rewrite (ship_list _ _ _ l children (or_intror eq_refl)).
        unfold reoffset in H2. cbn [Ship.max_push Ship.cur_s Ship.cur_v
                                      Ship.cur_h] in H2.
        rewrite H2. do 2 eexists. reflexivity.
    + intros canvas log H.
      destruct (ship 0 0 (Vlist l children)) as [st measured|e] eqn:E1;
        [|discriminate].
      exists st, measured. split; [reflexivity|].
      cbv zeta in H.
      apply bind_Ok_inv in H as (st2 & l1 & l2 & E2 & H & ->).
      injection H as <- <-. rewrite app_nil_r.
      clear E1. symmetry in E0. rename E0 into E1.
      rewrite (ship_list _ _ _ l children (or_intror eq_refl)) in E2.
      destruct (proj1 (offsets_free_all (Vlist l children)) _ _ _
                  (- (Bbox.x1 (Bbox_draw_all metrics_of measured Bbox_init) - 1))
                  (- (Bbox.y1 (Bbox_draw_all metrics_of measured Bbox_init) - 1)
                   + BoxList.height l) E1) as (log2 & H2 & Hs).
      unfold reoffset in H2. cbn [Ship.max_push Ship.cur_s Ship.cur_v
                                    Ship.cur_h] in H2.
      rewrite H2 in E2. injection E2 as _ <-.
      split; [exact Hs|].
      split; [exact (proj1 (draws_glyphs_all (Vlist l children)) _ _ _ H2)|].
      cbn [Canvas.ox Canvas.oy].
      destruct (Bbox_draw_all_grows metrics_of measured Bbox_init)
        as ((Hx & Hy & _) & _); [repeat split|].
      auto.
Qed.

(** ** Lists built by the parser *)

Lemma kern_with_kerns (font_output : Fonts) (elements children : list node)
    (log : list event) :
  kern font_output elements = Ok children log ->
  exists distances,
    List.length distances = List.length elements /\
    children = with_kerns elements distances.
Proof.
  revert children log.
  induction elements as [|p rest IH]; intros children log H.
  - injection H as <- _. exists []. split; reflexivity.
  - cbn [kern] in H.
    apply bind_Ok_inv in H as (k & l1 & l2 & _ & H & _).
    apply bind_Ok_inv in H as (rest' & l3 & l4 & Hrest & H & _).
    injection H as <- _.
    destruct (IH _ _ Hrest) as (ks & Hlen & ->).
    exists (k :: ks). split; [cbn; lia|].
    cbn [with_kerns]. destruct (py_ne k 0); reflexivity.
Qed.

(** The kerns that [Hlist.kern] adds draw nothing and are in nobody's way. *)
Lemma with_kerns_transparent (l : BoxList.t) (elements : list node)
    (distances : list float) :
  List.length distances = List.length elements ->
  glyphs_of glyphs (with_kerns elements distances) = glyphs_of glyphs elements /\
  forallb (hlist_child_ships ships_h ships_v l) (with_kerns elements distances)
  = forallb (hlist_child_ships ships_h ships_v l) elements.
Proof.
  revert distances.
  induction elements as [|p rest IH]; intros [|k ks] Hlen;
    try discriminate Hlen; [split; reflexivity|].
  injection Hlen as Hlen. destruct (IH ks Hlen) as [Hg Hs].
  cbn [with_kerns]. destruct (py_ne k 0); cbn [app glyphs_of forallb];
    rewrite Hg, Hs; cbn [hlist_child_ships andb app]; split; reflexivity.
Qed.

(** [Hlist(elements)] draws the glyphs of the elements, and is shipped when
    each of them can be. *)
Lemma Hlist_transparent (font_output : Fonts) (elements : list node)
    (tree : node) (log : list event) :
  Hlist_ font_output elements = Ok tree log ->
  exists l children,
    tree = Hlist l children /\
    glyphs tree = glyphs_of glyphs elements /\
    ships_h tree = forallb (hlist_child_ships ships_h ships_v l) elements.
Proof.
  unfold Hlist_, Hlist_init. intros H.
  apply bind_Ok_inv in H as (children & l1 & l2 & Hk & H & _).
  apply bind_Ok_inv in H as (l & l3 & l4 & _ & H & _).
  injection H as <- _.
  apply kern_with_kerns in Hk as (ks & Hlen & ->).
  destruct (with_kerns_transparent l elements ks Hlen) as [Hg Hs].
  exists l, (with_kerns elements ks). auto.
Qed.

Lemma py_map_height (middle : list node) :
  if existsb no_height middle
  then py_map node_height middle = Raise (AttributeError "height")
  else exists heights,
         py_map node_height middle = Ok heights [] /\
         List.length heights = List.length middle.
Proof.
  induction middle as [|p rest IH]; [exists []; split; reflexivity|].
  cbn [existsb py_map].
  destruct p as [ch | ch | b | b | pl pc | pl pc | g | k];
    cbn [no_height node_height orb]; try reflexivity;
    rewrite bind_ret;
    (destruct (existsb no_height rest);
     [rewrite IH; reflexivity|
      destruct IH as (hs & -> & Hlen); rewrite bind_Ok_nil;
      eexists; split; [reflexivity|cbn; lia]]).
Qed.

Lemma py_map_depth (middle : list node) :
  existsb no_height middle = false ->
  exists depths,
    py_map node_depth middle = Ok depths [] /\
    List.length depths = List.length middle.
Proof.
  induction middle as [|p rest IH]; [exists []; split; reflexivity|].
  cbn [existsb py_map]. intros H. apply orb_false_iff in H as [Hp Hrest].
  destruct (IH Hrest) as (ds & Hds & Hlen).
  destruct p as [ch | ch | b | b | pl pc | pl pc | g | k];
    try discriminate Hp; cbn [node_depth];
    rewrite bind_ret, Hds, bind_Ok_nil;
    eexists; (split; [reflexivity|cbn; lia]).
Qed.

(** X15.  The edges of [Parser.auto_sized_delimiter].  With nothing between
    the delimiters it raises the [ValueError] of [max] on an empty list.
    With glue or a kern among the nodes between them, as an explicit space
    leaves one, it raises [AttributeError], for such a node has no [height].
    Otherwise a delimiter ["."] adds nothing: with ["."] on both sides the
    result is the plain Hlist of the nodes.  Whenever it returns, the tree
    draws the glyphs of the front delimiter, of the nodes between and of the
    back delimiter, in this order, and both delimiters were made by
    [AutoHeightChar] for the same height and depth. *)
Theorem auto_sized_delimiter_edges (font_output : Fonts) (front back : string)
    (middle : list node) (state : State.t) :
  (middle = [] ->
   auto_sized_delimiter font_output front middle back state
   = Raise (OtherError "ValueError")) /\
  (existsb no_height middle = true ->
   auto_sized_delimiter font_output front middle back state
   = Raise (AttributeError "height")) /\
  (existsb no_height middle = false -> middle <> [] ->
   auto_sized_delimiter font_output "." middle "." state
   = Hlist_ font_output middle) /\
  (forall tree log,
     auto_sized_delimiter font_output front middle back state = Ok tree log ->
     exists height depth fronts backs,
       glyphs tree
       = glyphs_of glyphs fronts ++ glyphs_of glyphs middle
         ++ glyphs_of glyphs backs /\
       (if String.eqb front "." then fronts = []
        else exists delimiter dlog,
               AutoHeightChar font_output front height depth state
               = Ok delimiter dlog /\ fronts = [delimiter]) /\
       (if String.eqb back "." then backs = []
        else exists delimiter dlog,
               AutoHeightChar font_output back height depth state
               = Ok delimiter dlog /\ backs = [delimiter])).
Proof.
  pose proof (py_map_height middle) as Hh.
  repeat split.
  - intros ->. reflexivity.
  - intros Hn. rewrite Hn in Hh. unfold auto_sized_delimiter.
    rewrite Hh. reflexivity.
  - intros Hn Hne. rewrite Hn in Hh. destruct Hh as (hs & Hhs & Hlh).
    destruct (py_map_depth middle Hn) as (ds & Hds & Hld).
    unfold auto_sized_delimiter. rewrite Hhs, bind_Ok_nil.
    destruct hs as [|h hs']; [destruct middle; [contradiction|discriminate]|].
    cbn [py_max_list]. rewrite bind_ret, Hds, bind_Ok_nil.
    destruct ds as [|d ds']; [destruct middle; [contradiction|discriminate]|].
    cbn [py_max_list]. rewrite bind_ret.
    change (negb ("." =? ".")%string) with false. cbv iota.
    rewrite !bind_ret. reflexivity.
  - intros tree log H. unfold auto_sized_delimiter in H.
    apply bind_Ok_inv in H as (hs & l1 & l2 & _ & H & _).
    apply bind_Ok_inv in H as (height & l3 & l4 & _ & H & _).
    apply bind_Ok_inv in H as (ds & l5 & l6 & _ & H & _).
    apply bind_Ok_inv in H as (depth & l7 & l8 & _ & H & _).
    apply bind_Ok_inv in H as (fronts & l9 & l10 & Hf & H & _).
    apply bind_Ok_inv in H as (parts & l11 & l12 & Hb & H & _).
    apply Hlist_transparent in H as (l & children & -> & Hg & _).
    exists height, depth, fronts.
    assert (Hglyphs_app : forall a b,
              glyphs_of glyphs (a ++ b)
              = glyphs_of glyphs a ++ glyphs_of glyphs b).
    { intros a b. induction a as [|p a IHa]; [reflexivity|].
      cbn [app glyphs_of]. rewrite IHa, app_assoc. reflexivity. }
    assert (Hfront : if String.eqb front "." then fronts = []
                     else exists delimiter dlog,
                            AutoHeightChar font_output front height depth state
                            = Ok delimiter dlog /\ fronts = [delimiter]).
    { destruct (String.eqb front "."); cbn [negb] in Hf.
      - injection Hf as <- _. reflexivity.
      - apply bind_Ok_inv in Hf as (d & l13 & l14 & Hd & Hf & _).
        injection Hf as <- _. eauto. }
    destruct (String.eqb back ".") eqn:Eb; cbn [negb] in Hb.
    + injection Hb as <- _. exists []. rewrite Hg, Hglyphs_app.
      cbn [glyphs_of]. rewrite app_nil_r. auto.
    + apply bind_Ok_inv in Hb as (d & l13 & l14 & Hd & Hb & _).
      injection Hb as <- _. exists [d].
      rewrite Hg, !Hglyphs_app, app_assoc. eauto 6.
Qed.

(** ** The tree of a square root *)

Lemma set_shift_amount_transparent (p : node) (v : float) :
  glyphs (node_set_shift_amount p v) = glyphs p /\
  ships_h (node_set_shift_amount p v) = ships_h p /\
  ships_v (node_set_shift_amount p v) = ships_v p.
Proof.
  destruct p; repeat split.
Qed.

Lemma AutoHeightChar_transparent (font_output : Fonts) (c : string)
    (height depth : float) (state : State.t) (check : node)
    (log : list event) :
  AutoHeightChar font_output c height depth state = Ok check log ->
  ships_h check = true /\
  (exists l child rest, check = Hlist l (child :: rest)) /\
  exists char, glyphs check = [glyph_of char].
Proof.
  unfold AutoHeightChar. intros H.
  apply bind_Ok_inv in H as (alts & l1 & l2 & _ & H & _).
  apply bind_Ok_inv in H as (bound & l3 & l4 & _ & H & _).
  destruct bound as [[[char sym] st]|]; [|discriminate].
  apply bind_Ok_inv in H as (factor & l5 & l6 & _ & H & _).
  apply bind_Ok_inv in H as (char' & l7 & l8 & _ & H & _).
  apply bind_Ok_inv in H as (self & l9 & l10 & Hh & H & _).
  injection H as <- _.
  destruct (Hlist_of_Char font_output char') as (l0 & rest & log0 & E & _).
  rewrite E in Hh. injection Hh as <- _.
  apply Hlist_transparent in E as (l & children & [= <- <-] & Hg & Hs).
  destruct (set_shift_amount_transparent (Hlist l0 (Char char' :: rest))
              (depth - Char.depth char')) as (Hg' & Hs' & _).
  rewrite Hg', Hs', Hg, Hs. split; [reflexivity|].
  split; [do 3 eexists; reflexivity|]. exists char'. reflexivity.
Qed.

Lemma Hlist_nonempty (font_output : Fonts) (p : node) (rest : list node)
    (tree : node) (log : list event) :
  Hlist_ font_output (p :: rest) = Ok tree log ->
  exists l child children, tree = Hlist l (child :: children).
Proof.
  unfold Hlist_, Hlist_init. intros H.
  apply bind_Ok_inv in H as (children & l1 & l2 & Hk & H & _).
  apply bind_Ok_inv in H as (l & l3 & l4 & _ & H & _).
  injection H as <- _.
  apply kern_with_kerns in Hk as ([|k ks] & Hlen & ->); [discriminate Hlen|].
  cbn [with_kerns]. destruct (py_ne k 0); do 3 eexists; reflexivity.
Qed.

(** X16.  The tree of a square root.  When [Parser.sqrt] returns, the body
    is a list (a node without [shift_amount] raises), the root index is the
    empty [Box(0, 0, 0)] when there is none and otherwise the Hlist of its
    tokens shrunk twice, and the radical sign is made by [AutoHeightChar].
    Shipping the tree draws the glyphs of the root index, then the radical
    sign, then the glyphs of the body, and it returns exactly when the root
    index and the body can be shipped inside the lists that hold them; the
    radical sign, the rule over the body and the paddings are never in the
    way. *)
Theorem sqrt_ships_and_draws (font_output : Fonts) (root : option root_token)
    (body : node) (state : State.t) (tree : node) (log : list event) :
  sqrt font_output root body state = Ok tree log ->
  exists root' check il pl,
    (exists bl bchildren,
       body = Hlist bl bchildren \/ body = Vlist bl bchildren) /\
    match root with
    | None => root' = Box (Box_init 0 0 0)
    | Some (ParseResults toks) =>
        exists r0 r1 log0 log1 log2,
          Hlist_ font_output toks = Ok r0 log0 /\
          shrink font_output r0 = Ok r1 log1 /\
          shrink font_output r1 = Ok root' log2
    | Some NotParseResults => False
    end /\
    (exists height depth clog,
       AutoHeightChar font_output "\__sqrt__" height depth state
       = Ok check clog) /\
    glyphs tree
    = glyphs_of glyphs [root'] ++ glyphs check ++ glyphs_of glyphs [body] /\
    ships_h tree
    = hlist_child_ships ships_h ships_v il root'
      && hlist_child_ships ships_h ships_v pl body.
Proof.
  unfold sqrt. intros H.
  apply bind_Ok_inv in H as (thickness & log1 & log2 & _ & H & _).
  apply bind_Ok_inv in H as (root' & log3 & log4 & Hroot & H & _).
  apply bind_Ok_inv in H as (bh & log5 & log6 & _ & H & _).
  apply bind_Ok_inv in H as (bs & log7 & log8 & Hbs & H & _).
  apply bind_Ok_inv in H as (bd & log9 & log10 & _ & H & _).
  apply bind_Ok_inv in H as (check & log11 & log12 & Hc & H & _).
  pose proof (AutoHeightChar_transparent _ _ _ _ _ _ _ Hc)
    as (Hcs & (cl & cc & ccs & ->) & (char & Hcg)).
  cbn [node_height node_shift_amount node_depth node_width] in H.
  rewrite !bind_ret in H.
  apply bind_Ok_inv in H as (rightside & log13 & log14 & Hr & H & _).
  apply bind_Ok_inv in H as (inner & log15 & log16 & Hi & H & _).
  apply bind_Ok_inv in H as (root_vlist & log17 & log18 & Hv & H & _).
  unfold Vlist_ in Hv. apply Vlist_init_inv in Hv as [vl ->].
  cbn [node_set_shift_amount] in H.
  (* rightside *)
  unfold sqrt_rightside in Hr.
  apply bind_Ok_inv in Hr as (padded & l1 & l2 & Hp & Hr & _).
  apply bind_Ok_inv in Hr as (hrule & l3 & l4 & Hh & Hr & _).
  apply bind_Ok_inv in Hr as (fill & l5 & l6 & Hfill & Hr & _).
  apply bind_Ok_inv in Hr as (rightside0 & l7 & l8 & Hv & Hr & _).
  unfold Vlist_ in Hv. apply Vlist_init_inv in Hv as [rl0 ->].
  apply bind_Ok_inv in Hr as (rl & l9 & l10 & _ & Hr & _).
  injection Hr as <- _.
  unfold Hrule in Hh.
  apply bind_Ok_inv in Hh as (t' & l11 & l12 & _ & Hh & _).
  injection Hh as <- _.
  cbv in Hfill. injection Hfill as <- _.
  (* the lists *)
  pose proof (Hlist_nonempty _ _ _ _ _ Hp) as (pl & pc & pcs & ->).
  apply Hlist_transparent in Hp as (? & ? & [= <- <-] & Hpg & Hps).
  pose proof (Hlist_nonempty _ _ _ _ _ Hi) as (il & ic & ics & ->).
  apply Hlist_transparent in Hi as (? & ? & [= <- <-] & Hig & His).
  rewrite bind_ret in H.
  apply Hlist_transparent in H as (l & children & -> & Hg & Hs).
  exists root', (Hlist cl (cc :: ccs)), il, pl.
  split.
  { destruct body; try discriminate Hbs; eauto. }
  split.
  { destruct root as [[toks|]|].
    - apply bind_Ok_inv in Hroot as (r0 & la & lb & H0 & Hroot & _).
      apply bind_Ok_inv in Hroot as (r1 & lc & ld & H1 & Hroot & _).
      eauto 10.
    - discriminate Hroot.
    - injection Hroot as <- _. reflexivity. }
  split; [eauto|]. split.
  - rewrite Hg.
    change (glyphs_of glyphs
              [Vlist (set_shift_amount vl
                        (- (BoxList.height cl - BoxList.shift_amount cl) * 0.6))
                 [Hlist il (ic :: ics)];
               Kern_init (- BoxList.width cl * 0.5);
               Hlist cl (cc :: ccs);
               Vlist rl
                 [Rule (Box_init inf (t' * 0.5) (t' * 0.5));
                  Glue {| Glue.size := 0; Glue.glue_subtype := "normal";
                          Glue.glue_spec := GlueSpec.Build_t 0 1 2 0 0 |};
                  Hlist pl (pc :: pcs)]])
      with ((glyphs (Hlist il (ic :: ics)) ++ [])
            ++ glyphs (Hlist cl (cc :: ccs))
            ++ (glyphs (Hlist pl (pc :: pcs)) ++ []) ++ []).
    rewrite Hig, Hpg. cbn [glyphs_of Hbox app].
    rewrite !app_nil_r. destruct body; try discriminate Hbs; reflexivity.
  - rewrite Hs.
    change (forallb (hlist_child_ships ships_h ships_v l)
              [Vlist (set_shift_amount vl
                        (- (BoxList.height cl - BoxList.shift_amount cl) * 0.6))
                 [Hlist il (ic :: ics)];
               Kern_init (- BoxList.width cl * 0.5);
               Hlist cl (cc :: ccs);
               Vlist rl
                 [Rule (Box_init inf (t' * 0.5) (t' * 0.5));
                  Glue {| Glue.size := 0; Glue.glue_subtype := "normal";
                          Glue.glue_spec := GlueSpec.Build_t 0 1 2 0 0 |};
                  Hlist pl (pc :: pcs)]])
      with ((ships_h (Hlist il (ic :: ics)) && true)
            && (ships_h (Hlist cl (cc :: ccs))
                && ((ships_h (Hlist pl (pc :: pcs)) && true) && true))).
    rewrite His, Hps, Hcs. cbn [forallb hlist_child_ships Hbox Box_init
                                  Box.height Box.width isinf].
    change (is_infinity 0) with false. cbv iota.
    change (py_gt 0 0) with false. cbn [andb negb].
    rewrite !andb_true_r. reflexivity.
Qed.

Lemma sqrt_ships_and_draws_witness :
  exists tree check,
    sqrt sample_fonts None sample_body sample_state = Ok tree [] /\
    glyphs tree
    = glyphs_of glyphs [Box (Box_init 0 0 0)] ++ glyphs check
      ++ glyphs_of glyphs [sample_body] /\
    ships_h tree = true.
Proof.
  assert (H : exists tree,
            sqrt sample_fonts None sample_body sample_state = Ok tree []).
  { eexists. vm_compute. reflexivity. }
  destruct H as [tree H].
  destruct (sqrt_ships_and_draws _ _ _ _ _ _ H)
    as (root' & check & il & pl & _ & -> & _ & Hg & Hs).
  exists tree, check. split; [exact H|]. split; [exact Hg|].
  rewrite Hs. reflexivity.
Defined.

(** ** The stack of parser states *)

Lemma get_state_top (stack : list State.t) (top : State.t) :
  get_state (stack ++ [top]) = Ok top [].
Proof.
  unfold get_state, py_getitem, py_index.
  rewrite length_app. cbn [List.length].
  replace (-1 <? 0)%Z with true by reflexivity.
  replace (- Z.of_nat (List.length stack + 1) <=? -1)%Z with true
    by (symmetry; apply Z.leb_le; lia).
  replace (Z.to_nat (Z.of_nat (List.length stack + 1) + -1))
    with (List.length stack) by lia.
  rewrite nth_error_app2 by lia. rewrite Nat.sub_diag. reflexivity.
Qed.

Lemma pop_state_top (stack : list State.t) (top : State.t) :
  pop_state (stack ++ [top]) = Ok stack [].
Proof.
  unfold pop_state. rewrite removelast_last.
  destruct stack; reflexivity.
Qed.

Lemma push_state_top (stack : list State.t) (top : State.t) :
  push_state (stack ++ [top]) = Ok ((stack ++ [top]) ++ [top]) [].
Proof.
  unfold push_state. rewrite get_state_top, bind_Ok_nil.
  destruct top. reflexivity.
Qed.

Lemma set_state_font_top (stack : list State.t) (top : State.t)
    (name : string) :
  set_state_font (stack ++ [top]) name
  = Ok (stack ++ [with_font top (FontStr name)]) [].
Proof.
  unfold set_state_font. rewrite get_state_top, bind_Ok_nil, removelast_last.
  reflexivity.
Qed.

Lemma get_state_empty : get_state [] = Raise IndexError.
Proof. reflexivity. Qed.

(** The [Char]s made for the characters of a string in one state. *)
Lemma py_map_Char (font_output : Fonts) (state : State.t)
    (make : string -> result node) (cs : list string) (symbols : list node)
    (log : list event) :
  (forall c, make c
             = (char <- Char_init font_output c state ;; ret (Char char))) ->
  py_map make cs = Ok symbols log ->
  glyphs_of glyphs symbols
  = map (fun c => (State.font state, c, State.fontsize state, State.dpi state))
      cs /\
  forall l, forallb (hlist_child_ships ships_h ships_v l) symbols = true.
Proof.
  intros Hmake. revert symbols log.
  induction cs as [|c rest IH]; intros symbols log H.
  - injection H as <- _. split; reflexivity.
  - cbn [py_map] in H. rewrite Hmake in H.
    apply bind_Ok_inv in H as (p & l1 & l2 & Hp & H & _).
    apply bind_Ok_inv in H as (ps & l3 & l4 & Hps & H & _).
    injection H as <- _.
    apply bind_Ok_inv in Hp as (ch & l5 & l6 & Hch & Hp & _).
    injection Hp as <- _.
    unfold Char_init in Hch.
    apply bind_Ok_inv in Hch as (m & l7 & l8 & _ & Hch & _).
    injection Hch as <- _.
    destruct (IH _ _ Hps) as [Hg Hs].
    cbn [glyphs_of map app forallb hlist_child_ships andb].
    rewrite Hg. split; [reflexivity|exact Hs].
Qed.

(** X17.  Text and function names are set letter by letter.  The Hlist that
    [Parser.non_math] returns draws the characters of the text, [\$] read as
    [$], one glyph each and in their order, in the font, size and dpi of the
    state on top of the stack; the Hlist that [Parser.function] returns
    draws the letters of the name in the font ['rm'] at the size and dpi of
    the state on top, bears the name as its [function_name], and leaves the
    stack as it was.  Both lists can always be shipped. *)
Theorem text_is_set_letter_by_letter (font_output : Fonts)
    (stack : list State.t) (top : State.t) :
  (forall text hlist stack' log,
     non_math font_output text (stack ++ [top]) = Ok (hlist, stack') log ->
     glyphs hlist = text_glyphs (State.font top) top (unescape_dollar text) /\
     ships_h hlist = true) /\
  (forall name hlist function_name stack' log,
     function font_output name (stack ++ [top])
     = Ok (hlist, function_name, stack') log ->
     glyphs hlist = text_glyphs (FontStr "rm") top name /\
     ships_h hlist = true /\
     function_name = name /\
     stack' = stack ++ [top]).
Proof.
  split.
  - intros text hlist stack' log H. unfold non_math in H.
    apply bind_Ok_inv in H as (symbols & l1 & l2 & Hsym & H & _).
    apply bind_Ok_inv in H as (h & l3 & l4 & Hh & H & _).
    apply bind_Ok_inv in H as (s1 & l5 & l6 & _ & H & _).
    apply bind_Ok_inv in H as (s2 & l7 & l8 & _ & H & _).
    injection H as <- _.
    apply Hlist_transparent in Hh as (l & children & -> & Hg & Hs).
    apply (py_map_Char font_output top) in Hsym as [Hg' Hs'].
    + rewrite Hg, Hs, Hg', Hs'. split; reflexivity.
    + intros c. rewrite get_state_top, bind_Ok_nil. reflexivity.
  - intros name hlist function_name stack' log H. unfold function in H.
    rewrite push_state_top, bind_Ok_nil in H.
    rewrite set_state_font_top, bind_Ok_nil in H.
    rewrite get_state_top, bind_Ok_nil in H.
    apply bind_Ok_inv in H as (symbols & l1 & l2 & Hsym & H & _).
    apply bind_Ok_inv in H as (h & l3 & l4 & Hh & H & _).
    rewrite pop_state_top, bind_Ok_nil in H.
    injection H as <- <- <-.
    apply Hlist_transparent in Hh as (l & children & -> & Hg & Hs).
    apply (py_map_Char font_output (with_font top (FontStr "rm"))) in Hsym
      as [Hg' Hs']; [|reflexivity].
    rewrite Hg, Hs, Hg', Hs'. repeat split.
Qed.

Lemma fonts_top (names : list string) (stack : list State.t)
    (top inner : State.t) :
  State.fontsize inner = State.fontsize top ->
  State.dpi inner = State.dpi top ->
  fonts names (stack ++ [inner])
  = Ok (stack
        ++ [with_font top
              match rev names with
              | name :: _ => FontStr name
              | [] => State.font inner
              end]) [].
Proof.
  revert inner. induction names as [|name rest IH]; intros inner Hfs Hdpi.
  - cbn [fonts rev]. destruct inner as [f fs dpi]. cbn in Hfs, Hdpi.
    subst. reflexivity.
  - cbn [fonts]. unfold font. rewrite set_state_font_top, bind_Ok_nil.
    rewrite IH by assumption. cbn [rev].
    destruct (rev rest) as [|r rs]; reflexivity.
Qed.

(** X18.  The scope of a font.  Without a state on the stack every action
    that reads or drops one raises [IndexError].  [non_math] leaves the
    stack with one more state, a copy of the top with the font ['it'], and
    the [math] that follows drops it again.  Opening a group pushes a copy
    of the top, in the font of the LaTeX font command if the group has one
    (['mathrm'] gives ['rm']); the font commands read inside change the font
    of that copy only, the last one being in force; closing the group leaves
    the stack exactly as it was before the group, so that no font chosen
    inside a group is in force after it. *)
Theorem font_scope (font_output : Fonts) (stack : list State.t)
    (top : State.t) :
  (forall text, non_math font_output text [] = Raise IndexError) /\
  (forall name, function font_output name [] = Raise IndexError) /\
  (forall latexfont, start_group latexfont [] = Raise IndexError) /\
  (forall name, font name [] = Raise IndexError) /\
  end_group [] = Raise IndexError /\
  (forall text hlist stack' log,
     non_math font_output text (stack ++ [top]) = Ok (hlist, stack') log ->
     stack' = stack ++ [top; with_font top (FontStr "it")] /\
     forall toks hlist' stack'' log',
       math font_output toks stack' = Ok (hlist', stack'') log' ->
       stack'' = stack ++ [top]) /\
  (forall latexfont names,
     (opened <- start_group latexfont (stack ++ [top]) ;; fonts names opened)
     = Ok (stack ++ [top; with_font top (font_in_force latexfont names top)])
         [] /\
     end_group
       (stack ++ [top; with_font top (font_in_force latexfont names top)])
     = Ok (stack ++ [top]) []).
Proof.
  split.
  { intros text. unfold non_math.
    destruct (chars (unescape_dollar text)) as [|c cs]; reflexivity. }
  split; [reflexivity|]. split; [reflexivity|]. split; [reflexivity|].
  split; [reflexivity|]. split.
  - intros text hlist stack' log H. unfold non_math in H.
    apply bind_Ok_inv in H as (symbols & l1 & l2 & _ & H & _).
    apply bind_Ok_inv in H as (h & l3 & l4 & _ & H & _).
    rewrite push_state_top, bind_Ok_nil in H.
    rewrite set_state_font_top, bind_Ok_nil in H.
    injection H as _ <-. split; [rewrite <- app_assoc; reflexivity|].
    intros toks hlist' stack'' log' H'. unfold math in H'.
    apply bind_Ok_inv in H' as (h' & l5 & l6 & _ & H' & _).
    rewrite pop_state_top, bind_Ok_nil in H'.
    injection H' as _ <-. reflexivity.
  - intros latexfont names. split.
    + unfold start_group. rewrite push_state_top, bind_Ok_nil.
      destruct latexfont as [name|].
      * rewrite set_state_font_top, bind_Ok_nil.
        rewrite (fonts_top names (stack ++ [top]) top) by reflexivity.
        unfold font_in_force. rewrite <- app_assoc.
        destruct (rev names); reflexivity.
      * rewrite bind_ret.
        rewrite (fonts_top names (stack ++ [top]) top) by reflexivity.
        unfold font_in_force. rewrite <- app_assoc.
        destruct (rev names); reflexivity.
    + unfold end_group.
      change (stack
              ++ [top; with_font top (font_in_force latexfont names top)])
        with (stack ++ [top]
              ++ [with_font top (font_in_force latexfont names top)]).
      rewrite app_assoc. apply pop_state_top.
Qed.

(** ** Centered rows *)

Lemma hpack_loop_app (pre rest : list node) (s : HPack.t) :
  hpack_loop (pre ++ rest) s = (s' <- hpack_loop pre s ;; hpack_loop rest s').
Proof.
  revert s. induction pre as [|p pre IH]; intros s.
  - cbn [app hpack_loop]. rewrite bind_ret. reflexivity.
  - cbn [app hpack_loop]. rewrite bind_assoc.
    destruct (hpack_step p s) as [s1 log1|e]; [|reflexivity].
    cbn [bind]. rewrite IH. reflexivity.
Qed.

Lemma hpack_loop_glue_free (elements : list node) (s : HPack.t) :
  existsb is_Glue elements = false ->
  exists s',
    hpack_loop elements s = Ok s' [] /\
    HPack.total_stretch s' = HPack.total_stretch s /\
    HPack.total_shrink s' = HPack.total_shrink s.
Proof.
  revert s. induction elements as [|p rest IH]; intros s H.
  - exists s. repeat split.
  - cbn [existsb] in H. apply orb_false_iff in H as [Hp Hrest].
    assert (Hstep : exists s1,
              hpack_step p s = Ok s1 [] /\
              HPack.total_stretch s1 = HPack.total_stretch s /\
              HPack.total_shrink s1 = HPack.total_shrink s).
    { destruct p as [ch | ch | b | b | pl pc | pl pc | g | k];
        try discriminate Hp; cbn [hpack_step as_Box];
        try (destruct (_ && _)); eexists; repeat split. }
    destruct Hstep as (s1 & Hs1 & Ha & Hb).
    destruct (IH s1 Hrest) as (s' & Hs' & Hc & Hd).
    exists s'. cbn [hpack_loop]. rewrite Hs1, bind_Ok_nil.
    repeat split; congruence.
Qed.

Lemma hpack_step_ss_glue (s : HPack.t) :
  hpack_step ss_glue s
  = (total_stretch <- py_additem (HPack.total_stretch s) 1 1 ;;
     total_shrink <- py_additem (HPack.total_shrink s) 1 (-1) ;;
     ret {| HPack.x := HPack.x s + 0; HPack.h := HPack.h s;
            HPack.d := HPack.d s; HPack.total_stretch := total_stretch;
            HPack.total_shrink := total_shrink |}).
Proof. reflexivity. Qed.

Lemma HCentered_loop (elements : list node) :
  existsb is_Glue elements = false ->
  exists s,
    hpack_loop (ss_glue :: elements ++ [ss_glue]) hpack_start = Ok s [] /\
    HPack.total_stretch s = [0; 2; 0; 0] /\
    HPack.total_shrink s = [0; -2; 0; 0].
Proof.
  intros H. cbn [hpack_loop]. rewrite hpack_step_ss_glue.
  change (py_additem (HPack.total_stretch hpack_start) 1 1)
    with (ret [0; 1; 0; 0]).
  change (py_additem (HPack.total_shrink hpack_start) 1 (-1))
    with (ret [0; -1; 0; 0]).
  rewrite !bind_ret, hpack_loop_app.
  destruct (hpack_loop_glue_free elements
              {| HPack.x := HPack.x hpack_start + 0;
                 HPack.h := HPack.h hpack_start;
                 HPack.d := HPack.d hpack_start;
                 HPack.total_stretch := [0; 1; 0; 0];
                 HPack.total_shrink := [0; -1; 0; 0] |} H)
    as (s' & -> & Ha & Hb).
  rewrite bind_Ok_nil. cbn [hpack_loop]. rewrite hpack_step_ss_glue, Ha, Hb.
  cbn [HPack.total_stretch HPack.total_shrink].
  change (py_additem [0; 1; 0; 0] 1 1) with (ret [0; 2; 0; 0]).
  change (py_additem [0; -1; 0; 0] 1 (-1)) with (ret [0; -2; 0; 0]).
  rewrite !bind_ret. eexists. repeat split.
Qed.

Lemma hpack_between_ss_glue (class_name : string) (children : list node)
    (self : BoxList.t) (w : float) (m : pyval) (s : HPack.t) :
  hpack_loop children hpack_start = Ok s [] ->
  HPack.total_stretch s = [0; 2; 0; 0] ->
  HPack.total_shrink s = [0; -2; 0; 0] ->
  exists l,
    hpack class_name children self w m = Ok l [] /\
    BoxList.width l
    = (if py_eq_str m "additional" then w + HPack.x s else w) /\
    if BoxList.width l - HPack.x s =? 0 then BoxList.glue_sign l = 0%Z
    else if py_gt (BoxList.width l - HPack.x s) 0
         then BoxList.glue_sign l = 1%Z /\ BoxList.glue_order l = 1%Z /\
              BoxList.glue_set l = (BoxList.width l - HPack.x s) / 2
         else BoxList.glue_sign l = (-1)%Z /\ BoxList.glue_order l = 1%Z /\
              BoxList.glue_set l = (BoxList.width l - HPack.x s) / -2.
Proof.
  intros Hs Hst Hsh. rewrite (hpack_after_loop _ _ _ _ _ _ Hs).
  unfold hpack_finish.
  remember (if py_eq_str m "additional" then w + HPack.x s else w) as width
    eqn:Ew.
  destruct (width - HPack.x s =? 0) eqn:Ez.
  - eexists. split; [reflexivity|]. split; [reflexivity|].
    match goal with
    | |- context [BoxList.width ?L] => change (BoxList.width L) with width
    end.
    rewrite Ez. reflexivity.
  - destruct (py_gt (width - HPack.x s) 0) eqn:Eg.
    + rewrite _set_glue_spec by (rewrite Hst; reflexivity). rewrite Hst.
      eexists. split; [reflexivity|]. split; [reflexivity|].
      match goal with
      | |- context [BoxList.width ?L] => change (BoxList.width L) with width
      end.
      rewrite Ez, Eg. repeat split.
    + rewrite _set_glue_spec by (rewrite Hsh; reflexivity). rewrite Hsh.
      eexists. split; [reflexivity|]. split; [reflexivity|].
      match goal with
      | |- context [BoxList.width ?L] => change (BoxList.width L) with width
      end.
      rewrite Ez, Eg. repeat split.
Qed.

(** X19.  Centering never warns.  For elements without glue, [HCentered]
    always returns the elements between two [SsGlue] and emits no warning;
    packing the row to any width [w] with [hpack(w, 'exactly')] returns
    without a warning too, with width [w]: when the surplus [w - x] over the
    natural width is not zero it is shared between the two glues at order 1,
    [glue_set] being half the surplus with sign +1 when the row is widened,
    and the surplus over -2 with sign -1 when it is narrowed, so that an
    "Overfull" or "Underfull" warning never comes from a centered row. *)
Theorem centering_never_warns (elements : list node) (w : float) :
  existsb is_Glue elements = false ->
  exists l0 s l,
    HCentered elements = Ok (Hlist l0 (ss_glue :: elements ++ [ss_glue])) [] /\
    hpack_loop (ss_glue :: elements ++ [ss_glue]) hpack_start = Ok s [] /\
    Hlist_hpack "HCentered" (Hlist l0 (ss_glue :: elements ++ [ss_glue])) w
      (PyStr "exactly")
    = Ok (Hlist l (ss_glue :: elements ++ [ss_glue])) [] /\
    BoxList.width l = w /\
    if w - HPack.x s =? 0 then BoxList.glue_sign l = 0%Z
    else if py_gt (w - HPack.x s) 0
         then BoxList.glue_sign l = 1%Z /\ BoxList.glue_order l = 1%Z /\
              BoxList.glue_set l = (w - HPack.x s) / 2
         else BoxList.glue_sign l = (-1)%Z /\ BoxList.glue_order l = 1%Z /\
              BoxList.glue_set l = (w - HPack.x s) / -2.
Proof.
  intros H. destruct (HCentered_loop elements H) as (s & Hs & Hst & Hsh).
  destruct (hpack_between_ss_glue "HCentered" _ List_init 0
              (PyStr "additional") s Hs Hst Hsh) as (l0 & Hl0 & _).
  destruct (hpack_between_ss_glue "HCentered" _ l0 w (PyStr "exactly") s Hs Hst
              Hsh) as (l & Hl & Hw & Hglue).
  exists l0, s, l. split.
  { unfold HCentered. change SsGlue with (ret ss_glue). rewrite !bind_ret.
    cbn [app]. rewrite Hl0. reflexivity. }
  split; [exact Hs|]. split.
  { cbn [Hlist_hpack]. rewrite Hl. reflexivity. }
  change (py_eq_str (PyStr "exactly") "additional") with false in Hw.
  cbv iota in Hw. rewrite Hw in Hglue. split; [exact Hw|exact Hglue].
Qed.

Lemma centering_never_warns_witness :
  existsb is_Glue [Char sample_char] = false /\
  exists l0 l,
    HCentered [Char sample_char]
    = Ok (Hlist l0 [ss_glue; Char sample_char; ss_glue]) [] /\
    Hlist_hpack "HCentered" (Hlist l0 [ss_glue; Char sample_char; ss_glue]) 10
      (PyStr "exactly")
    = Ok (Hlist l [ss_glue; Char sample_char; ss_glue]) [] /\
    BoxList.width l = 10 /\ BoxList.glue_set l = 3 /\
    BoxList.glue_sign l = 1%Z.
Proof.
  split; [reflexivity|].
  destruct (centering_never_warns [Char sample_char] 10 eq_refl)
    as (l0 & s & l & H0 & Hs & Hl & Hw & Hg).
  exists l0, l. split; [exact H0|]. split; [exact Hl|]. split; [exact Hw|].
  vm_compute in Hs. injection Hs as <-.
  vm_compute in Hg. destruct Hg as (Hsign & _ & Hset). auto.
Defined.
